(** * devpi_server.keyfs: a transactional key/value store on the filesystem

    A shallow embedding of [server/devpi_server/keyfs.py] and the proofs of
    the properties its specification states.

    - Python values are a small tagged union ([pyval]); [None] is [PyNone].
    - Code that raises is embedded in a state-and-exception monad [M] over
      a [World]: the filesystem under [basedir], the storage backend and a
      trace of the effects performed.  As in Python, the effects performed
      before an exception stay performed.
    - The filesystem is a flat finite map from paths to file contents;
      directories are implicit (every directory that is needed exists, so
      [os.makedirs] has nothing to do and opening a file for writing
      succeeds).
    - Strings are [string]s of 8-bit characters. *)

From Stdlib Require Import ZArith Lia String Ascii Decimal DecimalString DecimalZ.
From stdpp Require Import base option list gmap strings.

Set Warnings "-register-all".
Open Scope Z_scope.
Open Scope string_scope.

(** ** Python values *)

Inductive pyval : Type :=
| PyNone
| PyInt (n : Z)
| PyText (s : string)
| PyBytes (b : string)
| PyList (l : list pyval)
| PySet (l : list pyval)
| PyDict (d : list (pyval * pyval)).

(** The declared type of a key.  Keys are declared with one of the data
    types below; [None] is not a value of any of them, it is what
    [record_set] and [get_value_at] use to mark a deletion. *)
Inductive pytype : Type := TInt | TText | TBytes | TList | TSet | TDict.

#[global] Instance pytype_eq_dec : EqDecision pytype.
Proof. solve_decision. Defined.

Definition isinstance (v : pyval) (t : pytype) : bool :=
  match v, t with
  | PyInt _, TInt | PyText _, TText | PyBytes _, TBytes
  | PyList _, TList | PySet _, TSet | PyDict _, TDict => true
  | _, _ => false
  end.

Definition is_bytes (v : pyval) : bool :=
  match v with PyBytes _ => true | _ => false end.

Definition is_none (v : pyval) : bool :=
  match v with PyNone => true | _ => false end.

(** ** Exceptions and the monad of effects *)

Inductive exn : Type :=
| KeyError (k : string)
| TypeError
| ValueError (v : string)
| AttributeError
| AssertionError
| ReadOnly
| IOError
| OSError
| StorageError
| WouldBlock       (* the write lock is held: the caller would wait *)
| IndexError
| ReError          (* re.error *)
| OutOfFuel        (* not a Python exception: a loop was cut off *)
| NotModelled.     (* not a Python exception: outside the embedding *)

Inductive result (A : Type) : Type :=
| Ok (a : A)
| Raise (e : exn).
Arguments Ok {A} a.
Arguments Raise {A} e.

Definition is_ok {A} (r : result A) : bool :=
  match r with Ok _ => true | Raise _ => false end.

(** One change of a changelog entry: [(name, back_serial, value)]. *)
Definition change : Type := string * Z * pyval.

(** A changelog entry: [(changes, rel_renames)]. *)
Definition entry : Type := gmap string change * list string.

(** The effects a transaction performs, in the order they happen. *)
Inductive event : Type :=
| EvWrite (path content : string)      (* a file opened "wb" and written *)
| EvRename (source dest : string)      (* os.rename succeeded *)
| EvRemove (path : string)             (* os.remove succeeded *)
| EvChangelog (serial : Z) (e : entry) (* conn.write_changelog_entry *)
| EvCacheCommit (serial : Z)           (* storage.cache_commit_changes *)
| EvNotify (serial : Z)                (* storage._notify_on_commit *)
| EvOpenWriter (serial : Z).           (* FSWriter.__enter__ *)

(** A key bound to a path: [TypedKey]. Keys compare and hash by [relpath]. *)
Record TypedKey : Type := mkTypedKey {
  relpath : string;
  type : pytype;
  name : string;
  params : gmap string string
}.

#[global] Instance TypedKey_eq_dec : EqDecision TypedKey.
Proof. solve_decision. Defined.

(** Modelled from the spec: the storage backend's [Connection] is not part
    of this module.  Its staging map [dirty_files] sends a path to the bytes
    to write there, or to [None] for a file to delete at commit. *)
Record Connection : Type := mkConnection {
  dirty_files : gmap string (option string)
}.

(** The state of an [FSWriter]; its [storage] is the [World]. *)
Record FSWriter : Type := mkFSWriter {
  conn : Connection;
  pending_renames : list (option string * string);
  changes : gmap string change
}.

Record World : Type := mkWorld {
  win32 : bool;                          (* sys.platform == "win32" *)
  clock : Z;                             (* what time.time() returns *)
  basedir : string;                      (* str(storage.basedir) *)
  files : gmap string string;            (* regular files, by path *)
  next_serial : Z;                       (* storage.next_serial *)
  last_commit_timestamp : option Z;      (* storage.last_commit_timestamp *)
  db_index : gmap string (string * Z);   (* relpath -> (name, last_serial) *)
  changelog : gmap Z entry;              (* serial -> changelog entry *)
  write_lock : bool;                     (* keyfs._write_lock is held *)
  fswriter : FSWriter;                   (* the FSWriter object in use *)
  trace : list event
}.

Definition set_files (f : gmap string string) (w : World) : World :=
  mkWorld (win32 w) (clock w) (basedir w) f (next_serial w)
          (last_commit_timestamp w) (db_index w) (changelog w) (write_lock w)
          (fswriter w) (trace w).

Definition set_next_serial (n : Z) (w : World) : World :=
  mkWorld (win32 w) (clock w) (basedir w) (files w) n
          (last_commit_timestamp w) (db_index w) (changelog w) (write_lock w)
          (fswriter w) (trace w).

Definition set_last_commit_timestamp (t : option Z) (w : World) : World :=
  mkWorld (win32 w) (clock w) (basedir w) (files w) (next_serial w) t
          (db_index w) (changelog w) (write_lock w) (fswriter w) (trace w).

Definition set_db_index (i : gmap string (string * Z)) (w : World) : World :=
  mkWorld (win32 w) (clock w) (basedir w) (files w) (next_serial w)
          (last_commit_timestamp w) i (changelog w) (write_lock w)
          (fswriter w) (trace w).

Definition set_changelog (c : gmap Z entry) (w : World) : World :=
  mkWorld (win32 w) (clock w) (basedir w) (files w) (next_serial w)
          (last_commit_timestamp w) (db_index w) c (write_lock w)
          (fswriter w) (trace w).

Definition set_write_lock (b : bool) (w : World) : World :=
  mkWorld (win32 w) (clock w) (basedir w) (files w) (next_serial w)
          (last_commit_timestamp w) (db_index w) (changelog w) b
          (fswriter w) (trace w).

Definition set_fswriter (fw : FSWriter) (w : World) : World :=
  mkWorld (win32 w) (clock w) (basedir w) (files w) (next_serial w)
          (last_commit_timestamp w) (db_index w) (changelog w) (write_lock w)
          fw (trace w).

Definition emit (e : event) (w : World) : World :=
  mkWorld (win32 w) (clock w) (basedir w) (files w) (next_serial w)
          (last_commit_timestamp w) (db_index w) (changelog w) (write_lock w)
          (fswriter w) (trace w ++ [e]).

Definition M (A : Type) : Type := World -> result A * World.

Definition ret {A} (a : A) : M A := fun w => (Ok a, w).

Definition bind {A B} (m : M A) (k : A -> M B) : M B :=
  fun w => match m w with
           | (Ok a, w') => k a w'
           | (Raise e, w') => (Raise e, w')
           end.

Definition raise {A} (e : exn) : M A := fun w => (Raise e, w).

Definition gets {A} (f : World -> A) : M A := fun w => (Ok (f w), w).

Definition modify (f : World -> World) : M unit := fun w => (Ok tt, f w).

(** [assert cond], raising [AssertionError]. *)
Definition assert (b : bool) : M unit :=
  if b then ret tt else raise AssertionError.

(** [try: body  except <sel>: handler]. *)
Definition try_except {A} (body : M A) (sel : exn -> bool) (handler : M A) : M A :=
  fun w => match body w with
           | (Raise e, w') => if sel e then handler w' else (Raise e, w')
           | r => r
           end.

(** [try: body  finally: final]. *)
Definition try_finally {A} (body : M A) (final : M unit) : M A :=
  fun w => match body w with
           | (r, w') =>
               match final w' with
               | (Ok _, w'') => (r, w'')
               | (Raise e, w'') => (Raise e, w'')
               end
           end.

Declare Scope py_scope.
Delimit Scope py_scope with py.
Notation "x <- m ;; k" := (bind m (fun x => k))
  (at level 100, m at next level, right associativity) : py_scope.
Notation "m ;;; k" := (bind m (fun _ => k))
  (at level 100, right associativity) : py_scope.
Open Scope py_scope.

(** [for x in l: body x]. *)
Fixpoint for_each {A} (l : list A) (body : A -> M unit) : M unit :=
  match l with
  | [] => ret tt
  | x :: l' => body x ;;; for_each l' body
  end.

Definition is_IOError (e : exn) : bool :=
  match e with IOError => true | _ => false end.

Definition is_OSError (e : exn) : bool :=
  match e with OSError => true | _ => false end.

(** ** The operating system *)

Definition os_path_exists (path : string) : M bool :=
  gets (fun w => bool_decide (is_Some (files w !! path))).

(** [os.rename]: fails when the source is missing and, on Windows, when
    the destination exists. *)
Definition os_rename (source dest : string) : M unit :=
  fun w =>
    match files w !! source with
    | None => (Raise OSError, w)
    | Some content =>
        if win32 w && bool_decide (is_Some (files w !! dest))
        then (Raise OSError, w)
        else (Ok tt, emit (EvRename source dest)
                       (set_files (<[dest := content]> (delete source (files w))) w))
    end.

Definition os_remove (path : string) : M unit :=
  fun w =>
    match files w !! path with
    | None => (Raise OSError, w)
    | Some _ => (Ok tt, emit (EvRemove path) (set_files (delete path (files w)) w))
    end.

(** [with open(path, "rb") as f: f.read()]. *)
Definition read_file (path : string) : M string :=
  fun w =>
    match files w !! path with
    | None => (Raise IOError, w)
    | Some content => (Ok content, w)
    end.

(** [open(path, "wb")] followed by [f.write(content)] and the close of the
    file.  The directory of [path] exists, so the call does not fail. *)
Definition open_wb_write (path content : string) : M unit :=
  modify (fun w => emit (EvWrite path content) (set_files (<[path := content]> (files w)) w)).

(** Directories are implicit: [os.path.exists] of a directory that is
    needed is true, and [os.makedirs] has nothing to do. *)
Definition os_path_exists_dir (dirname : string) : M bool := ret true.

Definition os_makedirs (dirname : string) : M unit := ret tt.

(** The part of [path] up to its last [/], the [/] included. *)
Fixpoint path_head (path : string) : option string :=
  match path with
  | EmptyString => None
  | String c r =>
      match path_head r with
      | Some head => Some (String c head)
      | None => if Ascii.eqb c "/" then Some (String c EmptyString) else None
      end
  end.

Fixpoint rstrip_slashes (s : string) : string :=
  match s with
  | EmptyString => EmptyString
  | String c r =>
      match rstrip_slashes r with
      | EmptyString => if Ascii.eqb c "/" then EmptyString else String c EmptyString
      | r' => String c r'
      end
  end.

(** [os.path.dirname] of [posixpath]. *)
Definition os_path_dirname (path : string) : string :=
  match path_head path with
  | None => EmptyString
  | Some head =>
      match rstrip_slashes head with
      | EmptyString => head       (* nothing but slashes *)
      | stripped => stripped
      end
  end.

(** ** Module-level helpers *)

(** [get_write_file_ensure_dir(path)] and the write through the file it
    returns. *)
Definition get_write_file_ensure_dir (path content : string) : M unit :=
  try_except (open_wb_write path content) is_IOError
    (let dirname := os_path_dirname path in
     dir_exists <- os_path_exists_dir dirname ;;
     if dir_exists then raise IOError
     else (os_makedirs dirname ;;; open_wb_write path content)).

Definition rename (source dest : string) : M unit :=
  try_except (os_rename source dest) is_OSError
    (let destdir := os_path_dirname dest in
     dir_exists <- os_path_exists_dir destdir ;;
     (if negb dir_exists then os_makedirs destdir else ret tt) ;;;
     on_win <- gets win32 ;;
     dest_exists <- os_path_exists dest ;;
     (if on_win && dest_exists then os_remove dest else ret tt) ;;;
     os_rename source dest).

(** [s[n:]] and [s[:-n]] on strings. *)
Definition str_from (n : nat) (s : string) : string :=
  substring n (String.length s - n) s.

Definition str_drop_end (n : nat) (s : string) : string :=
  substring 0 (String.length s - n) s.

Definition endswith (s suffix : string) : bool :=
  (String.length suffix <=? String.length s)%nat &&
  String.eqb (str_from (String.length s - String.length suffix) s) suffix.

Definition startswith (s pre : string) : bool := String.prefix pre s.

(** [str(val)] for an integer: decimal digits, ["-"] in front of a
    negative number. *)
Definition py_str_of_int (val : Z) : string :=
  NilZero.string_of_int (Z.to_int val).

Definition is_space (c : ascii) : bool :=
  match c with
  | " "%char | "009"%char | "010"%char | "011"%char | "012"%char | "013"%char => true
  | _ => false
  end.

Fixpoint lstrip (s : string) : string :=
  match s with
  | String c r => if is_space c then lstrip r else s
  | EmptyString => EmptyString
  end.

Fixpoint rstrip (s : string) : string :=
  match s with
  | EmptyString => EmptyString
  | String c r =>
      match rstrip r with
      | EmptyString => if is_space c then EmptyString else String c EmptyString
      | r' => String c r'
      end
  end.

(** [int(data)] for the bytes of a file: surrounding whitespace is
    dropped, then an optional sign and decimal digits are read; [None]
    stands for the [ValueError] of anything else. *)
Definition py_int_of_bytes (data : string) : option Z :=
  match lstrip (rstrip data) with
  | String "+"%char digits => (fun u => Z.of_int (Pos u)) <$> NilZero.uint_of_string digits
  | s => Z.of_int <$> NilZero.int_of_string s
  end.

Definition read_int_from_file (path : string) (default : Z) : M Z :=
  try_except
    (data <- read_file path ;;
     match py_int_of_bytes data with
     | Some n => ret n
     | None => raise (ValueError data)
     end)
    is_IOError
    (ret default).

Definition write_int_to_file (val : Z) (path : string) : M unit :=
  let tmp_path := path ++ "-tmp" in
  get_write_file_ensure_dir tmp_path (py_str_of_int val) ;;;
  rename tmp_path path.

(** ** TxNotificationThread: the event-serial cursor *)

Record TxNotificationThread : Type := {
  event_serial_path : string   (* basedir/.event_serial *)
}.

Definition read_event_serial (self : TxNotificationThread) : M Z :=
  n <- read_int_from_file (event_serial_path self) 0 ;;
  ret (n - 1).

Definition write_event_serial (self : TxNotificationThread) (event_serial : Z) : M unit :=
  write_int_to_file (event_serial + 1) (event_serial_path self).

(** [os.path.join(a, b)] of [posixpath]. *)
Definition os_path_join (a b : string) : string :=
  if startswith b "/" then b
  else if String.eqb a "" || endswith a "/" then a ++ b
  else a ++ "/" ++ b.

(** ** Crash recovery and the rename plan *)

Definition check_pending_renames (basedir : string) (pending_relnames : list string) : M unit :=
  for_each pending_relnames (fun relpath =>
    let path := os_path_join basedir relpath in
    if endswith relpath "-tmp" then
      tmp_exists <- os_path_exists path ;;
      if tmp_exists then rename path (str_drop_end 4 path)
      else (dest_exists <- os_path_exists (str_drop_end 4 path) ;;
            assert dest_exists)
    else
      try_except (os_remove path) is_OSError (ret tt)).

(** [commit_renames]; the two accumulators are [files_commit] and
    [files_del]. *)
Fixpoint commit_renames_from (basedir : string) (pending_renames : list string)
    (files_commit files_del : list string) : M (list string * list string) :=
  match pending_renames with
  | [] => ret (files_commit, files_del)
  | relpath :: rest =>
      let path := os_path_join basedir relpath in
      if endswith relpath "-tmp" then
        rename path (str_drop_end 4 path) ;;;
        commit_renames_from basedir rest
          (files_commit ++ [str_drop_end 4 relpath]) files_del
      else
        try_except (os_remove path) is_OSError (ret tt) ;;;
        commit_renames_from basedir rest files_commit (files_del ++ [relpath])
  end.

Definition commit_renames (basedir : string) (pending_renames : list string)
    : M (list string * list string) :=
  commit_renames_from basedir pending_renames [] [].

(** [list(make_rel_renames(basedir, pending_renames))]: the generator is
    consumed whole, so a failing assertion leaves no list. *)
Fixpoint make_rel_renames (basedir : string)
    (pending_renames : list (option string * string)) : M (list string) :=
  match pending_renames with
  | [] => ret []
  | (Some source, dest) :: rest =>
      assert (String.eqb source (dest ++ "-tmp")) ;;;
      rels <- make_rel_renames basedir rest ;;
      ret (str_from (String.length basedir + 1) source :: rels)
  | (None, dest) :: rest =>
      assert (startswith dest basedir) ;;;
      rels <- make_rel_renames basedir rest ;;
      ret (str_from (String.length basedir + 1) dest :: rels)
  end.

(** ** The storage backend *)

Definition is_KeyError (e : exn) : bool :=
  match e with KeyError _ => true | _ => false end.

(** Modelled from the spec: [Connection.db_read_typedkey(relpath)] returns
    the row [(name, last_serial)] of the primary index or raises
    [KeyError]. *)
Definition db_read_typedkey (rel : string) : M (string * Z) :=
  fun w => match db_index w !! rel with
           | Some row => (Ok row, w)
           | None => (Raise (KeyError rel), w)
           end.

(** Modelled from the spec: [Connection.db_write_typedkey(relpath, name,
    serial)] sets the row of [relpath]. *)
Definition db_write_typedkey (rel keyname : string) (serial : Z) : M unit :=
  modify (fun w => set_db_index (<[rel := (keyname, serial)]> (db_index w)) w).

(** Modelled from the spec: [Connection.write_changelog_entry(serial,
    entry)] makes the entry of [serial] durable. *)
Definition write_changelog_entry (serial : Z) (e : entry) : M unit :=
  modify (fun w => emit (EvChangelog serial e)
                     (set_changelog (<[serial := e]> (changelog w)) w)).

(** Modelled from the spec: [Storage.get_changes(serial)] returns the
    [changes] map of the entry written at [serial]; the bounded cache in
    front of it does not change what is returned. *)
Definition get_changes (serial : Z) : M (gmap string change) :=
  fun w => match changelog w !! serial with
           | Some e => (Ok e.1, w)
           | None => (Raise StorageError, w)
           end.

(** Modelled from the spec: [Storage.cache_commit_changes] and
    [Storage._notify_on_commit] only show in the trace. *)
Definition cache_commit_changes (serial : Z) (frozen : gmap string change) : M unit :=
  modify (emit (EvCacheCommit serial)).

Definition _notify_on_commit (serial : Z) : M unit :=
  modify (emit (EvNotify serial)).

(** ** FSWriter *)

Definition db_get_typedkey_value (typedkey : TypedKey) : M (string * Z) :=
  try_except (db_read_typedkey (relpath typedkey)) is_KeyError
    (ret (name typedkey, -1)).

Definition db_set_typedkey_value (typedkey : TypedKey) (serial : Z) : M unit :=
  db_write_typedkey (relpath typedkey) (name typedkey) serial.

(** [record_set(typedkey, value)]; [PyNone] means the key is deleted.
    Values are immutable here, so the deep copy is the value itself and
    no value is a [ReadonlyView]. *)
Definition record_set (typedkey : TypedKey) (value : pyval) : M unit :=
  row <- db_get_typedkey_value typedkey ;;
  serial <- gets next_serial ;;
  db_set_typedkey_value typedkey serial ;;;
  modify (fun w =>
    let self := fswriter w in
    set_fswriter
      (mkFSWriter (conn self) (pending_renames self)
         (<[relpath typedkey := (name typedkey, row.2, value)]> (changes self)))
      w).

Definition record_rename_file (source : option string) (dest : string) : M unit :=
  assert (negb (String.eqb dest "")) ;;;
  modify (fun w =>
    let self := fswriter w in
    set_fswriter
      (mkFSWriter (conn self) (pending_renames self ++ [(source, dest)])
         (changes self))
      w).

Definition commit_to_filesystem : M (list string * list string * list string) :=
  base <- gets basedir ;;
  self <- gets fswriter ;;
  rel_renames <- make_rel_renames base (pending_renames self) ;;
  serial <- gets next_serial ;;
  write_changelog_entry serial (changes self, rel_renames) ;;;
  done <- commit_renames base rel_renames ;;
  modify (fun w => set_next_serial (next_serial w + 1) w) ;;;
  modify (fun w => set_last_commit_timestamp (Some (clock w)) w) ;;;
  ret ((map_to_list (changes self)).*1, done.1, done.2).

(** The first loop of [__exit__]: the connection's dirty files become
    pending renames; the ones with content are written to [path-tmp]. *)
Definition stage_dirty_files : M unit :=
  self <- gets fswriter ;;
  for_each (map_to_list (dirty_files (conn self))) (fun item =>
    match item.2 with
    | None => record_rename_file None item.1
    | Some content =>
        let tmppath := item.1 ++ "-tmp" in
        get_write_file_ensure_dir tmppath content ;;;
        record_rename_file (Some tmppath) item.1
    end).

(** [while self.pending_renames: source, dest = self.pending_renames.pop()];
    [stack] is the list of pending renames, last one first. *)
Fixpoint pop_pending_renames (stack : list (option string * string)) : M unit :=
  match stack with
  | [] => ret tt
  | (source, dest) :: rest =>
      modify (fun w =>
        let self := fswriter w in
        set_fswriter (mkFSWriter (conn self) (rev rest) (changes self)) w) ;;;
      match source with
      | Some tmp => os_remove tmp
      | None => ret tt
      end ;;;
      pop_pending_renames rest
  end.

(** [FSWriter.__exit__(cls, val, tb)]; [cls] is [None] when the body of the
    [with] statement did not raise. *)
Definition FSWriter_exit (cls : option exn) : M unit :=
  stage_dirty_files ;;;
  match cls with
  | None =>
      _ <- commit_to_filesystem ;;
      serial <- gets next_serial ;;
      let commit_serial := serial - 1 in
      self <- gets fswriter ;;
      cache_commit_changes commit_serial (changes self) ;;;
      _notify_on_commit commit_serial
  | Some _ =>
      self <- gets fswriter ;;
      pop_pending_renames (rev (pending_renames self))
  end.

(** [KeyFS.write_transaction(conn)] and [FSWriter.__enter__]. *)
Definition write_transaction (c : Connection) : M unit :=
  modify (set_fswriter (mkFSWriter c [] ∅)) ;;;
  serial <- gets next_serial ;;
  modify (emit (EvOpenWriter serial)).

(** [with self.keyfs.write_transaction(conn) as fswriter: body]. *)
Definition with_write_transaction {A} (c : Connection) (body : M A) : M A :=
  write_transaction c ;;;
  fun w => match body w with
           | (Ok a, w') => (FSWriter_exit None ;;; ret a) w'
           | (Raise e, w') => (FSWriter_exit (Some e) ;;; raise e) w'
           end.

(** ** KeyFS *)

Definition get_next_serial : M Z := gets next_serial.

Definition get_current_serial : M Z := gets (fun w => next_serial w - 1).

(** The loop of [get_value_at]; it runs as long as [last_serial >= 0], and
    [fuel] bounds the number of iterations of the embedding. *)
Fixpoint get_value_at_loop (fuel : nat) (rel : string) (at_serial last_serial : Z)
    : M pyval :=
  if (0 <=? last_serial)%Z then
    match fuel with
    | O => raise OutOfFuel
    | S fuel' =>
        chs <- get_changes last_serial ;;
        match chs !! rel with
        | None => raise AssertionError
        | Some (keyname, back_serial, val) =>
            if (at_serial <? last_serial)%Z
            then get_value_at_loop fuel' rel at_serial back_serial
            else if is_none val then raise (KeyError rel)   (* was deleted *)
            else ret val
        end
    end
  else raise (KeyError rel).

Definition get_value_at (fuel : nat) (typedkey : TypedKey) (at_serial : Z) : M pyval :=
  row <- db_read_typedkey (relpath typedkey) ;;
  get_value_at_loop fuel (relpath typedkey) at_serial row.2.

(** The crash recovery of [KeyFS.__init__]. *)
Definition crash_recovery : M unit :=
  serial <- gets next_serial ;;
  if (0 <? serial)%Z then
    fun w => match changelog w !! (serial - 1) with
             | Some e => check_pending_renames (basedir w) e.2 w
             | None => (Raise StorageError, w)
             end
  else ret tt.

(** ** TypedKey and Transaction *)

(** The assertions of [check_unicode_keys(d)]: no key and no value of the
    dictionary is a byte string, recursively through the values that are
    dictionaries. *)
Fixpoint unicode_keys_ok (v : pyval) : bool :=
  match v with
  | PyDict d =>
      (fix items_ok (items : list (pyval * pyval)) : bool :=
         match items with
         | [] => true
         | (key, val) :: rest =>
             negb (is_bytes key) && negb (is_bytes val)
             && match val with
                | PyDict _ => unicode_keys_ok val
                | _ => true
                end
             && items_ok rest
         end) d
  | _ => true
  end.

Definition check_unicode_keys (d : pyval) : result unit :=
  match d with
  | PyDict _ => if unicode_keys_ok d then Ok tt else Raise AssertionError
  | _ => Raise AttributeError     (* d.items() *)
  end.

Record Transaction : Type := mkTransaction {
  write : bool;
  at_serial : Z;
  cache : gmap string pyval;       (* by the relpath of the key *)
  dirty : gmap string TypedKey;    (* a set of keys, by relpath *)
  tx_conn : Connection;
  commit_serial : option Z
}.

(** [set.add]: an element equal to one of the set is not added again. *)
Definition set_add (typedkey : TypedKey) (s : gmap string TypedKey) : gmap string TypedKey :=
  match s !! relpath typedkey with
  | Some _ => s
  | None => <[relpath typedkey := typedkey]> s
  end.

Definition acquire_write_lock : M unit :=
  fun w => if write_lock w then (Raise WouldBlock, w)
           else (Ok tt, set_write_lock true w).

(** [Transaction(keyfs, at_serial, write)]; the connection it gets from
    the storage has nothing staged. *)
Definition Transaction_init (at_serial : option Z) (write : bool) : M Transaction :=
  (if write then
     assert (bool_decide (at_serial = None)) ;;;
     acquire_write_lock
   else ret tt) ;;;
  current <- get_current_serial ;;
  ret (mkTransaction write (default current at_serial) ∅ ∅ (mkConnection ∅) None).

(** The staging of a file on the connection of a transaction, as the
    storage backend's file operations do it. *)
Definition stage_file (path : string) (content : option string) (self : Transaction)
    : Transaction :=
  mkTransaction (write self) (at_serial self) (cache self) (dirty self)
    (mkConnection (<[path := content]> (dirty_files (tx_conn self))))
    (commit_serial self).

Definition Transaction_is_dirty (self : Transaction) (typedkey : TypedKey) : bool :=
  bool_decide (is_Some (dirty self !! relpath typedkey)).

Definition Transaction_exists (fuel : nat) (self : Transaction) (typedkey : TypedKey)
    : M bool :=
  if bool_decide (is_Some (cache self !! relpath typedkey)) then ret true
  else if bool_decide (is_Some (dirty self !! relpath typedkey)) then ret false
  else try_except
         (get_value_at fuel typedkey (at_serial self) ;;; ret true)
         is_KeyError
         (ret false).

Definition Transaction_delete (self : Transaction) (typedkey : TypedKey)
    : result Transaction :=
  if negb (write self) then Raise ReadOnly
  else Ok (mkTransaction (write self) (at_serial self)
             (delete (relpath typedkey) (cache self))
             (set_add typedkey (dirty self))
             (tx_conn self) (commit_serial self)).

Definition Transaction_set (self : Transaction) (typedkey : TypedKey) (val : pyval)
    : result Transaction :=
  if negb (write self) then Raise ReadOnly
  else
    match (if bool_decide (type typedkey = TDict) then check_unicode_keys val
           else Ok tt) with
    | Raise e => Raise e
    | Ok _ =>
        Ok (mkTransaction (write self) (at_serial self)
              (<[relpath typedkey := val]> (cache self))
              (set_add typedkey (dirty self))
              (tx_conn self) (commit_serial self))
    end.

(** [TypedKey.set(val)], with [tx] the transaction bound to the thread. *)
Definition TypedKey_set (self : TypedKey) (val : pyval) (tx : Transaction)
    : result Transaction :=
  if negb (isinstance val (type self)) then Raise TypeError
  else Transaction_set tx self val.

Definition TypedKey_delete (self : TypedKey) (tx : Transaction) : result Transaction :=
  Transaction_delete tx self.

Definition TypedKey_exists (fuel : nat) (self : TypedKey) (tx : Transaction) : M bool :=
  Transaction_exists fuel tx self.

Definition Transaction_close (self : Transaction) : M Z :=
  (if write self then modify (set_write_lock false) else ret tt) ;;;
  ret (at_serial self).

Definition Transaction_rollback (self : Transaction) : M Z :=
  Transaction_close self.

Definition Transaction_commit (self : Transaction) : M Z :=
  if negb (write self) then Transaction_close self
  else if bool_decide (dirty self = ∅)
          && bool_decide (dirty_files (tx_conn self) = ∅)
  then Transaction_close self
  else
    try_finally
      (with_write_transaction (tx_conn self)
         (for_each (map_to_list (dirty self)) (fun item =>
            (* None signals deletion *)
            record_set item.2 (default PyNone (cache self !! relpath item.2))) ;;;
          gets next_serial))
      (Transaction_close self ;;; ret tt).

(** ** PTypedKey: parametrized keys

    [str.format], [re.sub] and [re.compile] are embedded for the patterns
    keys are declared with: literal text and [{name}] fields.  What the
    embedding leaves out raises [NotModelled]. *)

Definition chr_eqb (a b : ascii) : bool := Ascii.eqb a b.

Definition is_digit (c : ascii) : bool :=
  let n := nat_of_ascii c in (48 <=? n)%nat && (n <=? 57)%nat.

Definition is_ident_start (c : ascii) : bool :=
  let n := nat_of_ascii c in
  ((65 <=? n)%nat && (n <=? 90)%nat) || ((97 <=? n)%nat && (n <=? 122)%nat)
  || (n =? 95)%nat.

Definition is_ident_char (c : ascii) : bool := is_ident_start c || is_digit c.

Fixpoint str_forallb (f : ascii -> bool) (s : string) : bool :=
  match s with
  | EmptyString => true
  | String c r => f c && str_forallb f r
  end.

(** A name [re] accepts for a group. *)
Definition is_identifier (s : string) : bool :=
  match s with
  | EmptyString => false
  | String c r => is_ident_start c && str_forallb is_ident_char r
  end.

(** ["/" in val]. *)
Definition contains_slash (val : string) : bool :=
  negb (str_forallb (fun c => negb (chr_eqb c "/")) val).

(** [s.replace("+", r"\+")]. *)
Fixpoint replace_plus (s : string) : string :=
  match s with
  | EmptyString => EmptyString
  | String c r =>
      if chr_eqb c "+" then String "\" (String "+" (replace_plus r))
      else String c (replace_plus r)
  end.

(** The [repl] of [PTypedKey.__init__]. *)
Definition repl (group_name : string) : string :=
  "(?P<" ++ group_name ++ ">[^\/]+)".

(** [rex_braces.sub(repl, s)] for [rex_braces = \{(.+?)\}]: the leftmost
    brace that has a closing brace at least one character later, on the
    same line, is replaced.  [inside] holds the characters read since an
    opening brace. *)
Fixpoint rex_braces_sub_from (inside : option string) (s : string) : string :=
  match s with
  | EmptyString =>
      match inside with
      | None => EmptyString
      | Some acc => String "{" acc
      end
  | String c r =>
      match inside with
      | None =>
          if chr_eqb c "{" then rex_braces_sub_from (Some EmptyString) r
          else String c (rex_braces_sub_from None r)
      | Some acc =>
          if chr_eqb c "}" && negb (String.eqb acc "")
          then repl acc ++ rex_braces_sub_from None r
          else if chr_eqb c "010"
          then String "{" (acc ++ String c (rex_braces_sub_from None r))
          else rex_braces_sub_from (Some (acc ++ String c EmptyString)) r
      end
  end.

Definition rex_braces_sub (s : string) : string := rex_braces_sub_from None s.

(** The regular expressions of the embedding. *)
Inductive rx_item : Type :=
| RxChar (c : ascii)        (* a literal character *)
| RxAny                     (* [.]: any character but a newline *)
| RxBol                     (* [^] *)
| RxEol                     (* [$]: the end, or before a last newline *)
| RxGroup (group : string). (* [(?P<group>[^\/]+)] *)

Inductive rx_state : Type :=
| PTop
| PEscape
| POpen (expected : string)
| PName (acc : string)
| PClass (group : string) (expected : string).

Definition rx_special (c : ascii) : bool :=
  existsb (chr_eqb c)
    ["*"; "+"; "?"; "{"; "}"; "["; "]"; "|"; ")"]%char.

(** The parser of [re.compile]; [None] for what it does not read. *)
Fixpoint re_parse (st : rx_state) (s : string) : option (list rx_item) :=
  match s with
  | EmptyString => match st with PTop => Some [] | _ => None end
  | String c r =>
      match st with
      | PTop =>
          if chr_eqb c "\" then re_parse PEscape r
          else if chr_eqb c "(" then re_parse (POpen "?P<") r
          else if chr_eqb c "." then cons RxAny <$> re_parse PTop r
          else if chr_eqb c "^" then cons RxBol <$> re_parse PTop r
          else if chr_eqb c "$" then cons RxEol <$> re_parse PTop r
          else if rx_special c then None
          else cons (RxChar c) <$> re_parse PTop r
      | PEscape =>
          if chr_eqb c "+" then cons (RxChar c) <$> re_parse PTop r else None
      | POpen expected =>
          match expected with
          | String e EmptyString =>
              if chr_eqb c e then re_parse (PName EmptyString) r else None
          | String e rest =>
              if chr_eqb c e then re_parse (POpen rest) r else None
          | EmptyString => None
          end
      | PName acc =>
          if chr_eqb c ">" then re_parse (PClass acc "[^\/]+)") r
          else re_parse (PName (acc ++ String c EmptyString)) r
      | PClass group expected =>
          match expected with
          | String e EmptyString =>
              if chr_eqb c e then cons (RxGroup group) <$> re_parse PTop r else None
          | String e rest =>
              if chr_eqb c e then re_parse (PClass group rest) r else None
          | EmptyString => None
          end
      end
  end.

Definition group_names (rx : list rx_item) : list string :=
  omap (fun item => match item with RxGroup g => Some g | _ => None end) rx.

(** [re.compile(s)]: group names are identifiers and no name is used
    twice, or it raises [re.error]. *)
Definition re_compile (s : string) : result (list rx_item) :=
  match re_parse PTop s with
  | None => Raise NotModelled
  | Some rx =>
      if forallb is_identifier (group_names rx)
         && bool_decide (NoDup (group_names rx))
      then Ok rx else Raise ReError
  end.

(** The greedy [[^\/]+]: the longest run of characters other than [/] is
    tried first, then the shorter ones, down to one character; [k] matches
    the rest of the expression. *)
Fixpoint greedy_not_slash {R} (k : string -> string -> option R)
    (taken : string) (s : string) : option R :=
  match s with
  | String c r =>
      if chr_eqb c "/" then
        if String.eqb taken "" then None else k taken s
      else
        match greedy_not_slash k (taken ++ String c EmptyString) r with
        | Some res => Some res
        | None => if String.eqb taken "" then None else k taken s
        end
  | EmptyString => if String.eqb taken "" then None else k taken s
  end.

(** [rx.match(s)] and the [groupdict()] of the match; [at_start] tells
    that no character has been read yet. *)
Fixpoint re_match_from (rx : list rx_item) (at_start : bool) (s : string)
    : option (gmap string string) :=
  match rx with
  | [] => Some ∅
  | RxChar c :: rest =>
      match s with
      | String c' r => if chr_eqb c c' then re_match_from rest false r else None
      | EmptyString => None
      end
  | RxAny :: rest =>
      match s with
      | String c' r => if chr_eqb c' "010" then None else re_match_from rest false r
      | EmptyString => None
      end
  | RxBol :: rest => if at_start then re_match_from rest at_start s else None
  | RxEol :: rest =>
      if String.eqb s "" || String.eqb s (String "010" EmptyString)
      then re_match_from rest at_start s else None
  | RxGroup g :: rest =>
      greedy_not_slash
        (fun val s' => insert g val <$> re_match_from rest false s')
        EmptyString s
  end.

Definition re_match (rx : list rx_item) (s : string) : option (gmap string string) :=
  re_match_from rx true s.

Record PTypedKey : Type := mkPTypedKey {
  pattern : string;
  p_type : pytype;
  p_name : string;
  rex_reverse : list rx_item
}.

(** [PTypedKey(keyfs, key, type, name)]. *)
Definition PTypedKey_init (key : string) (type : pytype) (name : string)
    : result PTypedKey :=
  let rex_pattern := replace_plus key in
  let rex_pattern := rex_braces_sub rex_pattern in
  match re_compile ("^" ++ rex_pattern ++ "$") with
  | Ok rx => Ok (mkPTypedKey key type name rx)
  | Raise e => Raise e
  end.

Definition format_field_name_ok (c : ascii) : bool :=
  negb (existsb (chr_eqb c) ["{"; "}"; "!"; ":"; "."; "["; "]"]%char).

(** [s.format] with the keyword arguments [kw], for fields that are
    plain names; [inside] holds the
    characters of the field being read. *)
Fixpoint py_format_from (kw : gmap string string) (inside : option string)
    (s : string) : result string :=
  match s with
  | EmptyString =>
      match inside with
      | None => Ok EmptyString
      | Some _ => Raise (ValueError "expected '}' before end of string")
      end
  | String c r =>
      match inside with
      | None =>
          if chr_eqb c "{" then
            match r with
            | String "{" r' =>
                match py_format_from kw None r' with
                | Ok out => Ok (String "{" out)
                | Raise e => Raise e
                end
            | _ => py_format_from kw (Some EmptyString) r
            end
          else if chr_eqb c "}" then
            match r with
            | String "}" r' =>
                match py_format_from kw None r' with
                | Ok out => Ok (String "}" out)
                | Raise e => Raise e
                end
            | _ => Raise (ValueError "Single '}' encountered in format string")
            end
          else
            match py_format_from kw None r with
            | Ok out => Ok (String c out)
            | Raise e => Raise e
            end
      | Some acc =>
          if chr_eqb c "}" then
            if String.eqb acc "" || str_forallb is_digit acc
            then Raise IndexError       (* a positional field, no argument *)
            else
              match kw !! acc with
              | None => Raise (KeyError acc)
              | Some val =>
                  match py_format_from kw None r with
                  | Ok out => Ok (val ++ out)
                  | Raise e => Raise e
                  end
              end
          else if format_field_name_ok c
          then py_format_from kw (Some (acc ++ String c EmptyString)) r
          else Raise NotModelled
      end
  end.

Definition py_format (s : string) (kw : gmap string string) : result string :=
  py_format_from kw None s.

(** [PTypedKey.__call__] with the keyword arguments [kw]. *)
Definition PTypedKey_call (self : PTypedKey) (kw : gmap string string)
    : result TypedKey :=
  match List.find (fun item => contains_slash item.2) (map_to_list kw) with
  | Some item => Raise (ValueError item.2)
  | None =>
      match py_format (pattern self) kw with
      | Ok rel => Ok (mkTypedKey rel (p_type self) (p_name self) kw)
      | Raise e => Raise e
      end
  end.

Definition extract_params (self : PTypedKey) (rel : string) : gmap string string :=
  match re_match (rex_reverse self) rel with
  | Some groupdict => groupdict
  | None => ∅
  end.

(** ** Transaction.get and TypedKey.update *)

(** [typedkey.type()]: the empty instance of the declared type. *)
Definition type_call (t : pytype) : pyval :=
  match t with
  | TInt => PyInt 0
  | TText => PyText ""
  | TBytes => PyBytes ""
  | TList => PyList []
  | TSet => PySet []
  | TDict => PyDict []
  end.

(** [Transaction.get(typedkey, readonly)].  Values are immutable here, so
    the read-only view and the mutable deep copy are the value itself; the
    transaction comes back with the value cached when the storage had
    one. *)
Definition Transaction_get (fuel : nat) (self : Transaction) (typedkey : TypedKey)
    (readonly : bool) : M (pyval * Transaction) :=
  match cache self !! relpath typedkey with
  | Some val => ret (val, self)
  | None =>
      found <-
        (if bool_decide (is_Some (dirty self !! relpath typedkey)) then ret None
         else try_except
                (val <- get_value_at fuel typedkey (at_serial self) ;; ret (Some val))
                is_KeyError
                (ret None)) ;;
      match found with
      | None =>
          (* for convenience an empty instance is returned *)
          ret (type_call (type typedkey), self)
      | Some val =>
          ret (val,
               mkTransaction (write self) (at_serial self)
                 (<[relpath typedkey := val]> (cache self)) (dirty self)
                 (tx_conn self) (commit_serial self))
      end
  end.

(** [TypedKey.get(readonly)] and [TypedKey.is_dirty()], with [tx] the
    transaction bound to the thread. *)
Definition TypedKey_get (fuel : nat) (self : TypedKey) (readonly : bool)
    (tx : Transaction) : M (pyval * Transaction) :=
  Transaction_get fuel tx self readonly.

Definition TypedKey_is_dirty (self : TypedKey) (tx : Transaction) : bool :=
  Transaction_is_dirty tx self.

(** [with typedkey.update() as val: body].  The body changes the value it
    is given or raises; the result holds the transaction as the statement
    leaves it, and the exception of the body or of [set] if there is
    one. *)
Definition TypedKey_update (fuel : nat) (self : TypedKey)
    (body : pyval -> result pyval) (tx : Transaction)
    : M (Transaction * option exn) :=
  got <- Transaction_get fuel tx self false ;;
  match body got.1 with
  | Raise e => ret (got.2, Some e)
  | Ok val =>
      (* no exception, so we can set and thus mark dirty the object *)
      match TypedKey_set self val got.2 with
      | Ok tx' => ret (tx', None)
      | Raise e => ret (got.2, Some e)
      end
  end.

(** ** KeyFS: the registry of keys *)

(** What [KeyFS._keys] holds under a name. *)
Inductive Key : Type :=
| PlainKey (key : TypedKey)
| ParamKey (key : PTypedKey).

(** ["{" in path]. *)
Definition contains_brace (path : string) : bool :=
  negb (str_forallb (fun c => negb (chr_eqb c "{")) path).

(** The names a [KeyFS] object answers to before any key is declared: the
    attributes [__init__] sets, the methods and the nested class.  The
    property [tx] is apart, it has no setter. *)
Definition KeyFS_attributes : list string :=
  ["basedir"; "_keys"; "_mode"; "_write_lock"; "_threadlocal";
   "_import_subscriber"; "notifier"; "_storage"; "_readonly"; "ReadOnly";
   "derive_key"; "import_changes"; "subscribe_on_import"; "get_next_serial";
   "get_current_serial"; "get_last_commit_timestamp"; "get_value_at";
   "add_key"; "get_key"; "begin_transaction_in_thread"; "clear_transaction";
   "restart_as_write_transaction"; "restart_read_transaction";
   "rollback_transaction_in_thread"; "commit_transaction_in_thread";
   "transaction"; "write_transaction"].

(** [setattr(self, name, key)] on the [KeyFS] object.  The property [tx]
    refuses the assignment with [AttributeError].  A name of
    [KeyFS_attributes], or one of the [__...] names every object has, is
    taken over by the key: what the object does from then on is outside
    the embedding, which keeps the registry apart from the object. *)
Definition setattr_key (name : string) : result unit :=
  if String.eqb name "tx" then Raise AttributeError
  else if bool_decide (name ∈ KeyFS_attributes) || startswith name "__"
  then Raise NotModelled
  else Ok tt.

(** [KeyFS.add_key(name, path, type)]: what the call returns or raises, and
    the registry it leaves.  The key is in the registry before [setattr]
    runs, so a [setattr] that raises leaves it there. *)
Definition add_key (name path : string) (type : pytype) (keys : gmap string Key)
    : result Key * gmap string Key :=
  let made :=
    if contains_brace path then
      match PTypedKey_init path type name with
      | Ok key => Ok (ParamKey key)
      | Raise e => Raise e
      end
    else Ok (PlainKey (mkTypedKey path type name ∅)) in
  match made with
  | Raise e => (Raise e, keys)
  | Ok key =>
      let keys' := <[name := key]> keys in
      match setattr_key name with
      | Ok _ => (Ok key, keys')
      | Raise e => (Raise e, keys')
      end
  end.

Definition get_key (name : string) (keys : gmap string Key) : option Key :=
  keys !! name.

(** [KeyFS.derive_key(relpath, keyname)] for a key name that is given, as
    [_execute_hooks] and [import_changes] call it; the result is [None]
    when no key has this name. *)
Definition derive_key (keys : gmap string Key) (rel keyname : string)
    : result (option TypedKey) :=
  match get_key keyname keys with
  | Some (ParamKey key) =>
      match PTypedKey_call key (extract_params key rel) with
      | Ok typedkey => Ok (Some typedkey)
      | Raise e => Raise e
      end
  | Some (PlainKey key) => Ok (Some key)
  | None => Ok None
  end.

(** ** TxNotificationThread: subscribers and hooks *)

(** [KeyChangeEvent(typedkey, value, at_serial, back_serial)]; the key is
    what [derive_key] returned, [None] for a name that is not declared. *)
Record KeyChangeEvent : Type := mkKeyChangeEvent {
  ev_typedkey : option TypedKey;
  ev_value : pyval;
  ev_at_serial : Z;
  ev_back_serial : Z
}.

(** A subscriber is called with the event and does what it does to the
    world. *)
Definition Subscriber : Type := KeyChangeEvent -> M unit.

(** The first argument of [on_key_change]: a key, or the name of one. *)
Inductive key_or_name : Type :=
| ByTypedKey (key : TypedKey)
| ByPTypedKey (key : PTypedKey)
| ByName (keyname : string).

(** [getattr(key, "name", key)]. *)
Definition keyname_of (key : key_or_name) : string :=
  match key with
  | ByTypedKey k => name k
  | ByPTypedKey k => p_name k
  | ByName n => n
  end.

(** [TxNotificationThread.on_key_change(key, subscriber)]; [active] tells
    that the thread has been started, [handlers] is [_on_key_change]. *)
Definition on_key_change (active : bool) (key : key_or_name) (subscriber : Subscriber)
    (handlers : gmap string (list Subscriber))
    : result (gmap string (list Subscriber)) :=
  if active then Raise AssertionError
  else
    let keyname := keyname_of key in
    Ok (<[keyname := (default [] (handlers !! keyname) ++ [subscriber])%list]> handlers).

(** What [except Exception] catches: every exception of Python; the
    outcomes that stand for a wait or for the limits of the embedding are
    not exceptions. *)
Definition is_Exception (e : exn) : bool :=
  match e with
  | WouldBlock | OutOfFuel | NotModelled => false
  | _ => true
  end.

(** [TxNotificationThread._execute_hooks(event_serial, log, raising)]. *)
Definition _execute_hooks (keys : gmap string Key)
    (handlers : gmap string (list Subscriber)) (event_serial : Z) (raising : bool)
    : M unit :=
  changes <- get_changes event_serial ;;
  for_each (map_to_list changes) (fun item =>
    let rel := item.1 in
    let keyname := item.2.1.1 in
    let back_serial := item.2.1.2 in
    let val := item.2.2 in
    match derive_key keys rel keyname with
    | Raise e => raise e
    | Ok key =>
        let ev := mkKeyChangeEvent key val event_serial back_serial in
        let subscribers := default [] (handlers !! keyname) in
        for_each subscribers (fun sub =>
          try_except (sub ev)
            (fun e => is_Exception e && negb raising)   (* if raising: raise *)
            (ret tt))
    end).

(** The inner loop of [thread_run]: as long as the event serial is behind
    the current serial, the hooks of the next serial are run and the event
    serial is written.  [fuel] bounds the number of rounds of the
    embedding; the thread is not shut down meanwhile. *)
Fixpoint thread_run_loop (fuel : nat) (self : TxNotificationThread)
    (keys : gmap string Key) (handlers : gmap string (list Subscriber))
    (event_serial : Z) : M Z :=
  current <- get_current_serial ;;
  if (event_serial <? current)%Z then
    match fuel with
    | O => raise OutOfFuel
    | S fuel' =>
        let event_serial := event_serial + 1 in
        _execute_hooks keys handlers event_serial false ;;;
        write_event_serial self event_serial ;;;
        thread_run_loop fuel' self keys handlers event_serial
    end
  else ret event_serial.

(** [thread_run] up to its first wait for a new transaction: the event
    serial it has reached. *)
Definition thread_run (fuel : nat) (self : TxNotificationThread)
    (keys : gmap string Key) (handlers : gmap string (list Subscriber)) : M Z :=
  event_serial <- read_event_serial self ;;
  thread_run_loop fuel self keys handlers event_serial.

(** ** KeyFS.import_changes *)

(** An import subscriber is called with the key, the value and the back
    serial of the change (and with the writer, which is in the world). *)
Definition ImportSubscriber : Type := TypedKey -> pyval -> Z -> M unit.

(** [KeyFS.subscribe_on_import(key, subscriber)]. *)
Definition subscribe_on_import (key : TypedKey) (subscriber : ImportSubscriber)
    (import_subscriber : gmap string ImportSubscriber)
    : result (gmap string ImportSubscriber) :=
  if bool_decide (is_Some (import_subscriber !! name key)) then Raise AssertionError
  else Ok (<[name key := subscriber]> import_subscriber).

(** [with self._write_lock: body]. *)
Definition with_write_lock {A} (body : M A) : M A :=
  acquire_write_lock ;;;
  try_finally body (modify (set_write_lock false)).

(** [KeyFS.import_changes(serial, changes)]; the connection it gets from
    the storage has nothing staged. *)
Definition import_changes (keys : gmap string Key)
    (import_subscriber : gmap string ImportSubscriber)
    (serial : Z) (changes : gmap string change) : M unit :=
  with_write_lock
    (with_write_transaction (mkConnection ∅)
       (next <- get_next_serial ;;
        assert (next =? serial)%Z ;;;
        for_each (map_to_list changes) (fun item =>
          let rel := item.1 in
          let keyname := item.2.1.1 in
          let back_serial := item.2.1.2 in
          let val := item.2.2 in
          match derive_key keys rel keyname with
          | Raise e => raise e
          | Ok None => raise AttributeError      (* typedkey.relpath *)
          | Ok (Some typedkey) =>
              record_set typedkey val ;;;
              match import_subscriber !! name typedkey with
              | Some meth => meth typedkey val back_serial
              | None => ret tt
              end
          end))).

(** ** KeyFS: the transaction of the thread *)

(** What [keyfs._threadlocal] holds: no [tx], a transaction, or a
    transaction that has been closed ([_close] has deleted its cache and
    its dirty set, and what reads them raises [AttributeError]). *)
Inductive threadlocal : Type :=
| NoTx
| OpenTx (tx : Transaction)
| ClosedTx (tx : Transaction).

(** Code that runs in a thread of a [KeyFS]: the state is the thread-local
    slot and the world.  As in [M], what was done before an exception stays
    done. *)
Definition K (A : Type) : Type :=
  threadlocal -> World -> result A * threadlocal * World.

Definition kret {A} (a : A) : K A := fun t w => (Ok a, t, w).

Definition kbind {A B} (m : K A) (k : A -> K B) : K B :=
  fun t w => match m t w with
             | (Ok a, t', w') => k a t' w'
             | (Raise e, t', w') => (Raise e, t', w')
             end.

Definition kraise {A} (e : exn) : K A := fun t w => (Raise e, t, w).

(** The transaction after [commit]: closed, with its commit serial when a
    writer was opened. *)
Definition committed_tx (tx : Transaction) (r : result Z) : Transaction :=
  match r with
  | Ok serial =>
      if write tx
         && negb (bool_decide (dirty tx = ∅)
                  && bool_decide (dirty_files (tx_conn tx) = ∅))
      then mkTransaction (write tx) (at_serial tx) (cache tx) (dirty tx)
             (tx_conn tx) (Some serial)
      else tx
  | Raise _ => tx
  end.

(** [self._threadlocal.tx.commit()] and [self._threadlocal.tx.rollback()]. *)
Definition tx_commit : K Z :=
  fun t w =>
    match t with
    | OpenTx tx =>
        match Transaction_commit tx w with
        | (r, w') => (r, ClosedTx (committed_tx tx r), w')
        end
    | _ => (Raise AttributeError, t, w)
    end.

Definition tx_rollback : K Z :=
  fun t w =>
    match t with
    | OpenTx tx =>
        match Transaction_rollback tx w with
        | (r, w') => (r, ClosedTx tx, w')
        end
    | _ => (Raise AttributeError, t, w)
    end.

(** [KeyFS.begin_transaction_in_thread(write, at_serial)]; [readonly] is
    [keyfs._readonly]. *)
Definition begin_transaction_in_thread (readonly write : bool) (at_serial : option Z)
    : K Transaction :=
  fun t w =>
    if write && readonly then (Raise ReadOnly, t, w)
    else
      match t with
      | NoTx =>
          match Transaction_init at_serial write w with
          | (Ok tx, w') => (Ok tx, OpenTx tx, w')
          | (Raise e, w') => (Raise e, t, w')
          end
      | _ => (Raise AssertionError, t, w)   (* assert not hasattr(..., "tx") *)
      end.

(** [KeyFS.clear_transaction()]: [del self._threadlocal.tx]. *)
Definition clear_transaction : K unit :=
  fun t w =>
    match t with
    | NoTx => (Raise AttributeError, t, w)
    | _ => (Ok tt, NoTx, w)
    end.

Definition rollback_transaction_in_thread : K unit :=
  kbind tx_rollback (fun _ => clear_transaction).

Definition commit_transaction_in_thread : K unit :=
  kbind tx_commit (fun _ => clear_transaction).

(** [with keyfs.transaction(write, at_serial) as tx: body]; an outcome of
    the body that is not an exception (a wait) is not handled. *)
Definition transaction {A} (readonly write : bool) (at_serial : option Z)
    (body : Transaction -> K A) : K A :=
  kbind (begin_transaction_in_thread readonly write at_serial) (fun tx =>
    fun t w =>
      match body tx t w with
      | (Ok a, t', w') =>
          kbind commit_transaction_in_thread (fun _ => kret a) t' w'
      | (Raise e, t', w') =>
          if is_Exception e
          then kbind rollback_transaction_in_thread (fun _ => kraise e) t' w'
          else (Raise e, t', w')
      end).

(** [Transaction.restart(write)] on the transaction of the thread: it is
    committed, and a new transaction takes its place. *)
Definition tx_restart (write : bool) : K unit :=
  kbind tx_commit (fun _ =>
    fun t w =>
      match Transaction_init None write w with
      | (Ok newtx, w') => (Ok tt, OpenTx newtx, w')
      | (Raise e, w') => (Raise e, t, w')
      end).

Definition restart_as_write_transaction (readonly : bool) : K unit :=
  fun t w =>
    if readonly then (Raise ReadOnly, t, w)
    else
      match t with
      | NoTx => (Raise AttributeError, t, w)    (* self.tx *)
      | _ => tx_restart true t w
      end.

Definition restart_read_transaction : K unit :=
  fun t w =>
    match t with
    | NoTx => (Raise AttributeError, t, w)      (* self.tx *)
    | OpenTx tx | ClosedTx tx =>
        if write tx then (Raise AssertionError, t, w)
        else tx_restart false t w
    end.

(** [typedkey.set(val)] and [typedkey.delete()] in the thread: the calls
    go to [keyfs.tx]. *)
Definition in_thread_tx (f : Transaction -> result Transaction) : K unit :=
  fun t w =>
    match t with
    | NoTx => (Raise AttributeError, t, w)
    | OpenTx tx =>
        match f tx with
        | Ok tx' => (Ok tt, OpenTx tx', w)
        | Raise e => (Raise e, t, w)
        end
    | ClosedTx tx =>
        match f tx with
        | Ok _ => (Raise AttributeError, t, w)  (* self.cache, self.dirty *)
        | Raise e => (Raise e, t, w)
        end
    end.

Definition set_in_thread (typedkey : TypedKey) (val : pyval) : K unit :=
  in_thread_tx (TypedKey_set typedkey val).

Definition delete_in_thread (typedkey : TypedKey) : K unit :=
  in_thread_tx (TypedKey_delete typedkey).

(** * Definitions for the statements and the proofs *)

(** ** Histories of transactions *)

(** What a write transaction does before it commits: it sets and deletes
    keys through [TypedKey.set] and [TypedKey.delete], and stages files on
    its connection. *)
Inductive op : Type :=
| OpSet (typedkey : TypedKey) (val : pyval)
| OpDelete (typedkey : TypedKey)
| OpStage (path : string) (content : option string).

Definition run_op (tx : Transaction) (o : op) : result Transaction :=
  match o with
  | OpSet typedkey val => TypedKey_set typedkey val tx
  | OpDelete typedkey => TypedKey_delete typedkey tx
  | OpStage path content => Ok (stage_file path content tx)
  end.

Fixpoint run_ops (tx : Transaction) (ops : list op) : result Transaction :=
  match ops with
  | [] => Ok tx
  | o :: rest =>
      match run_op tx o with
      | Ok tx' => run_ops tx' rest
      | Raise e => Raise e
      end
  end.

(** A transaction that has something to commit: a dirty key or a dirty
    file. *)
Definition has_changes (tx : Transaction) : Prop :=
  dirty tx ≠ ∅ \/ dirty_files (tx_conn tx) ≠ ∅.

(** [committed h w]: the storage of [w] is what the write transactions of
    [h] leave, each one begun, run and committed with success after the
    one before, the first one on an empty storage.  The transaction at
    index [s] of [h] is the one committed at serial [s]. *)
Inductive committed : list (list op) -> World -> Prop :=
| committed_nil w :
    next_serial w = 0 -> db_index w = ∅ -> changelog w = ∅ ->
    committed [] w
| committed_commit h w ops tx tx' serial w1 w2 :
    committed h w ->
    Transaction_init None true w = (Ok tx, w1) ->
    run_ops tx ops = Ok tx' ->
    has_changes tx' ->
    Transaction_commit tx' w1 = (Ok serial, w2) ->
    committed (h ++ [ops]) w2
| committed_frame h w w' :
    committed h w ->
    next_serial w' = next_serial w -> db_index w' = db_index w ->
    changelog w' = changelog w ->
    committed h w'.

(** The key/value state, as the specification sees it: a map from relpath
    to the value the key holds. *)
Definition kv_apply (state : gmap string pyval) (o : op) : gmap string pyval :=
  match o with
  | OpSet typedkey val => <[relpath typedkey := val]> state
  | OpDelete typedkey => delete (relpath typedkey) state
  | OpStage _ _ => state
  end.

(** The state immediately after serial [s]: the transactions of serials
    [0] to [s] applied in order. *)
Definition state_after (h : list (list op)) (s : Z) : gmap string pyval :=
  foldl (foldl kv_apply) ∅ (take (Z.to_nat (s + 1)) h).

(** [after_commits n w w']: [w'] is reached from [w] by [n] successful
    commits of write transactions that have something to commit; in
    between, anything may happen that leaves [next_serial] alone. *)
Inductive after_commits : nat -> World -> World -> Prop :=
| after_commits_0 w : after_commits 0 w w
| after_commits_S n w w1 tx serial w2 :
    after_commits n w w1 ->
    write tx = true -> has_changes tx ->
    Transaction_commit tx w1 = (Ok serial, w2) ->
    after_commits (S n) w w2
| after_commits_frame n w w1 w2 :
    after_commits n w w1 -> next_serial w2 = next_serial w1 ->
    after_commits n w w2.

(** ** Effects and frames *)

(** The world after a step that only touches the files: [f] are the files
    now and [evs] the effects the step added to the trace. *)
Definition fs_update (f : gmap string string) (evs : list event) (w : World) : World :=
  mkWorld (win32 w) (clock w) (basedir w) f (next_serial w)
          (last_commit_timestamp w) (db_index w) (changelog w) (write_lock w)
          (fswriter w) (trace w ++ evs).

(** An effect on a side file that destroys something: a rename or a
    removal. *)
Definition is_file_move (e : event) : bool :=
  match e with EvRename _ _ | EvRemove _ => true | _ => false end.

Definition is_changelog_write (e : event) : bool :=
  match e with EvChangelog _ _ => true | _ => false end.

Definition no_space (s : string) : bool :=
  str_forallb (fun c => negb (is_space c)) s.

(** [w'] has the storage of [w]: serial, index, changelog and the changes
    recorded by the writer. *)
Definition same_storage (w w' : World) : Prop :=
  next_serial w' = next_serial w /\ db_index w' = db_index w
  /\ changelog w' = changelog w /\ basedir w' = basedir w
  /\ last_commit_timestamp w' = last_commit_timestamp w
  /\ changes (fswriter w') = changes (fswriter w)
  /\ conn (fswriter w') = conn (fswriter w).

(** [w'] comes from [w] by effects that all satisfy [P], on the files and
    on the list of pending renames only. *)
Definition fs_steps (P : event -> Prop) (w w' : World) : Prop :=
  same_storage w w'
  /\ exists evs, trace w' = (trace w ++ evs)%list /\ Forall P evs.

(** The write of a staged file: a file [path-tmp] is written. *)
Definition is_staging_write (e : event) : Prop :=
  exists path content, e = EvWrite (path ++ "-tmp") content.

Open Scope list_scope.

Definition moves_file (e : event) : Prop := is_file_move e = true.

(** The back serial [record_set] finds for [rel] in the index of [w]. *)
Definition back_serial_of (w : World) (rel : string) : Z :=
  match db_index w !! rel with Some row => row.2 | None => -1 end.

(** The loop of [Transaction.commit] over the dirty keys. *)
Definition record_dirty (tx : Transaction) (items : list (string * TypedKey)) : M unit :=
  for_each items (fun item =>
    record_set item.2 (default PyNone (cache tx !! relpath item.2))).

(** [w'] differs from [w] in the index and the recorded changes only. *)
Definition index_steps (w w' : World) : Prop :=
  next_serial w' = next_serial w /\ changelog w' = changelog w
  /\ files w' = files w /\ trace w' = trace w /\ basedir w' = basedir w
  /\ pending_renames (fswriter w') = pending_renames (fswriter w)
  /\ conn (fswriter w') = conn (fswriter w)
  /\ write_lock w' = write_lock w.

(** ** Staging and rollback *)

Definition staged_rename (item : string * option string) : option string * string :=
  match item.2 with
  | None => (None, item.1)
  | Some _ => (Some (item.1 +:+ "-tmp"), item.1)
  end.

Definition staged_write (item : string * option string) (f : gmap string string)
    : gmap string string :=
  match item.2 with
  | None => f
  | Some content => <[item.1 +:+ "-tmp" := content]> f
  end.

Definition staged_event (item : string * option string) : list event :=
  match item.2 with
  | None => []
  | Some content => [EvWrite (item.1 +:+ "-tmp") content]
  end.

Definition sources (pending : list (option string * string)) : list string :=
  omap fst pending.

Definition is_remove_event (e : event) : Prop := exists path, e = EvRemove path.

Definition stage_item (item : string * option string) : M unit :=
  match item.2 with
  | None => record_rename_file None item.1
  | Some content =>
      let tmppath := item.1 +:+ "-tmp" in
      get_write_file_ensure_dir tmppath content ;;;
      record_rename_file (Some tmppath) item.1
  end.

(** The world after a step of staging: files [f], [evs] more effects and
    [pend] more pending renames. *)
Definition staged (f : gmap string string) (evs : list event)
    (pend : list (option string * string)) (w : World) : World :=
  mkWorld (win32 w) (clock w) (basedir w) f (next_serial w)
    (last_commit_timestamp w) (db_index w) (changelog w) (write_lock w)
    (mkFSWriter (conn (fswriter w)) (pending_renames (fswriter w) ++ pend)
       (changes (fswriter w)))
    (trace w ++ evs).

(** ** Replay of a rename plan *)

(** A rename plan in which no path is the destination of a rename of the
    plan. *)
Definition rename_plan_ok (base : string) (rels : list string) : Prop :=
  Forall (fun rel =>
            endswith rel "-tmp" = true ->
            str_drop_end 4 (os_path_join base rel) ∉ map (os_path_join base) rels)
         rels.

(** One round of the loop of [check_pending_renames]. *)
Definition replay_rename (base rel : string) : M unit :=
  let path := os_path_join base rel in
  if endswith rel "-tmp" then
    tmp_exists <- os_path_exists path ;;
    if tmp_exists then rename path (str_drop_end 4 path)
    else (dest_exists <- os_path_exists (str_drop_end 4 path) ;;
          assert dest_exists)
  else
    try_except (os_remove path) is_OSError (ret tt).

(** The entry [rel] has been carried out on the files [f]. *)
Definition settled (base : string) (f : gmap string string) (rel : string) : Prop :=
  let path := os_path_join base rel in
  f !! path = None
  /\ (endswith rel "-tmp" = true -> is_Some (f !! str_drop_end 4 path)).

(** ** Write sets and the storage invariant *)

(** The write set of a transaction: the relpaths it sets or deletes, with
    the last value written ([PyNone] for a deletion). *)
Definition ws_apply (ws : gmap string pyval) (o : op) : gmap string pyval :=
  match o with
  | OpSet typedkey val => <[relpath typedkey := val]> ws
  | OpDelete typedkey => <[relpath typedkey := PyNone]> ws
  | OpStage _ _ => ws
  end.

Definition write_set (ops : list op) : gmap string pyval := foldl ws_apply ∅ ops.

(** No operation sets a key to [None]. *)
Definition op_typed (o : op) : Prop :=
  match o with OpSet _ val => is_none val = false | _ => True end.

(** The dirty set and the cache of [tx] hold the write set [ws]. *)
Definition holds_write_set (tx : Transaction) (ws : gmap string pyval) : Prop :=
  write tx = true
  /\ (forall rel k, dirty tx !! rel = Some k -> relpath k = rel)
  /\ (forall rel, dirty tx !! rel = None <-> ws !! rel = None)
  /\ (forall rel v, ws !! rel = Some v -> default PyNone (cache tx !! rel) = v).

(** The last transaction among the first [j] of [h] that writes [rel],
    with the value it writes. *)
Fixpoint last_write (h : list (list op)) (rel : string) (j : nat)
    : option (nat * pyval) :=
  match j with
  | O => None
  | S j' =>
      match h !! j' with
      | Some ops =>
          match write_set ops !! rel with
          | Some v => Some (j', v)
          | None => last_write h rel j'
          end
      | None => last_write h rel j'
      end
  end.

Definition serial_of (lw : option (nat * pyval)) : Z :=
  match lw with Some (i, _) => Z.of_nat i | None => -1 end.

Definition value_of (lw : option (nat * pyval)) : option pyval :=
  match lw with
  | Some (_, v) => if is_none v then None else Some v
  | None => None
  end.

(** The storage of [w] holds the history [h]. *)
Definition storage_inv (h : list (list op)) (w : World) : Prop :=
  next_serial w = Z.of_nat (length h)
  /\ (forall rel,
        snd <$> (db_index w !! rel)
        = (fun p : nat * pyval => Z.of_nat p.1) <$> last_write h rel (length h))
  /\ (forall i ops, h !! i = Some ops ->
        exists e, changelog w !! Z.of_nat i = Some e
          /\ forall rel,
               (fun c : change => (c.1.2, c.2)) <$> (e.1 !! rel)
               = (fun v => (serial_of (last_write h rel i), v))
                   <$> (write_set ops !! rel))
  /\ Forall (Forall op_typed) h.

Definition overlay (ws st : gmap string pyval) (rel : string) : option pyval :=
  match ws !! rel with
  | Some v => if is_none v then None else Some v
  | None => st !! rel
  end.

(** What [get_value_at] answers for the value [o] of the specification. *)
Definition answer (rel : string) (o : option pyval) : result pyval :=
  match o with Some v => Ok v | None => Raise (KeyError rel) end.

(** ** Key patterns *)

(** A key pattern as the grammar of the specification has it: literal
    characters and [{name}] fields. *)
Inductive token : Type :=
| TLit (c : ascii)
| TField (field : string).

Fixpoint render (ts : list token) : string :=
  match ts with
  | [] => EmptyString
  | TLit c :: rest => String c (render rest)
  | TField n :: rest => String "{" (n +:+ String "}" (render rest))
  end.

Definition fields (ts : list token) : list string :=
  omap (fun t => match t with TField n => Some n | TLit _ => None end) ts.

(** A literal character of a pattern: not one [re] or [str.format] reads
    as an operator; [+] and [.] are allowed. *)
Definition plain_char (c : ascii) : bool :=
  negb (existsb (chr_eqb c)
          ["\"; "("; ")"; "^"; "$"; "*"; "?"; "{"; "}"; "["; "]"; "|"]%char).

(** Every field is followed by [/] or by the end of the pattern. *)
Fixpoint fields_delimited (ts : list token) : Prop :=
  match ts with
  | [] => True
  | TLit _ :: rest => fields_delimited rest
  | TField _ :: rest =>
      match rest with
      | [] => True
      | TLit c :: _ => c = "/"%char
      | TField _ :: _ => False
      end /\ fields_delimited rest
  end.

Definition token_ok (t : token) : Prop :=
  match t with
  | TLit c => plain_char c = true
  | TField n => is_identifier n = true
  end.

Definition pattern_ok (ts : list token) : Prop :=
  Forall token_ok ts /\ NoDup (fields ts) /\ fields_delimited ts.

(** The parameter maps a pattern takes: a value for each field and no
    other, each one not empty and without [/]. *)
Definition legal_params (ts : list token) (m : gmap string string) : Prop :=
  dom m = list_to_set (fields ts)
  /\ map_Forall (fun _ v => v ≠ "" /\ contains_slash v = false) m.

(** The pattern after [replace("+", r"\+")]. *)
Fixpoint render_escaped (ts : list token) : string :=
  match ts with
  | [] => EmptyString
  | TLit c :: rest =>
      if chr_eqb c "+" then String "\" (String "+" (render_escaped rest))
      else String c (render_escaped rest)
  | TField n :: rest => String "{" (n +:+ String "}" (render_escaped rest))
  end.

(** The source of the regular expression of a pattern. *)
Fixpoint render_rex (ts : list token) : string :=
  match ts with
  | [] => EmptyString
  | TLit c :: rest =>
      if chr_eqb c "+" then String "\" (String "+" (render_rex rest))
      else String c (render_rex rest)
  | TField n :: rest => repl n +:+ render_rex rest
  end.

Definition token_item (t : token) : rx_item :=
  match t with
  | TLit c => if chr_eqb c "." then RxAny else RxChar c
  | TField n => RxGroup n
  end.

(** The relpath of a pattern for the parameters [m]. *)
Fixpoint substitute (m : gmap string string) (ts : list token) : string :=
  match ts with
  | [] => EmptyString
  | TLit c :: rest => String c (substitute m rest)
  | TField n :: rest => default EmptyString (m !! n) +:+ substitute m rest
  end.

Definition no_slash (v : string) : bool :=
  str_forallb (fun c => negb (chr_eqb c "/")) v.

(** The [groupdict] of the match of a relpath built from [m]. *)
Fixpoint groups (m : gmap string string) (ts : list token) : gmap string string :=
  match ts with
  | [] => ∅
  | TLit _ :: rest => groups m rest
  | TField n :: rest => <[n := default EmptyString (m !! n)]> (groups m rest)
  end.

(** ** Concrete runs *)

Definition world0 : World :=
  mkWorld false 0 "/srv" ∅ 0 None ∅ ∅ false (mkFSWriter (mkConnection ∅) [] ∅) [].

Definition key_alice : TypedKey := mkTypedKey "users/alice" TDict "USER" ∅.

Definition val_alice : pyval := PyDict [(PyText "email", PyText "a@x")].

(** A write transaction that runs [ops] and commits. *)
Definition write_tx (ops : list op) : M Z :=
  tx <- Transaction_init None true ;;
  match run_ops tx ops with
  | Ok tx' => Transaction_commit tx'
  | Raise e => raise e
  end.

Definition world_set : World := (write_tx [OpSet key_alice val_alice] world0).2.

Definition world_deleted : World := (write_tx [OpDelete key_alice] world_set).2.

Definition world_set_deleted : World :=
  (write_tx [OpSet key_alice val_alice; OpDelete key_alice] world_set).2.

(** A world whose writer has one file staged on its connection. *)
Definition world_staged : World :=
  set_fswriter
    (mkFSWriter (mkConnection {[ "/srv/pkgs/a.tar" := Some "DATA" ]}) [] ∅) world0.

Definition world_exit_ok : World := (FSWriter_exit None world_staged).2.

Definition world_exit_err : World := (FSWriter_exit (Some TypeError) world_staged).2.

Definition read_tx : Transaction := mkTransaction false 0 ∅ ∅ (mkConnection ∅) None.

Definition empty_write_tx : Transaction :=
  mkTransaction true (-1) ∅ ∅ (mkConnection ∅) None.

Definition notifier : TxNotificationThread :=
  {| event_serial_path := "/srv/.event_serial" |}.

(** A crash after the changelog entry of a commit that stages [f] and
    deletes [old]. *)
Definition world_crashed : World :=
  set_files {[ "/srv/f-tmp" := "DATA"; "/srv/old" := "x" ]} world0.

Definition world_recovered : World :=
  (check_pending_renames "/srv" ["f-tmp"; "old"] world_crashed).2.

(** A crash after the changelog entry of a commit that stages the two
    files [a] and [a-tmp]. *)
Definition world_crashed_tmp : World :=
  set_files {[ "/srv/a-tmp" := "y"; "/srv/a-tmp-tmp" := "x" ]} world0.

Definition world_replayed_once : World :=
  (check_pending_renames "/srv" ["a-tmp"; "a-tmp-tmp"] world_crashed_tmp).2.

Definition world_replayed_twice : World :=
  (check_pending_renames "/srv" ["a-tmp"; "a-tmp-tmp"] world_replayed_once).2.

Definition users_pattern : list token :=
  [TLit "u"; TLit "s"; TLit "e"; TLit "r"; TLit "s"; TLit "/"; TField "u";
   TLit "/"; TLit "i"; TLit "n"; TLit "f"; TLit "o"]%char.

Definition tx_alice_set : Transaction :=
  mkTransaction true (-1) {[ "users/alice" := val_alice ]}
    {[ "users/alice" := key_alice ]} (mkConnection ∅) None.

(** ** Files of the base directory *)

(** The file [rel] of the directory [base]. *)
Definition under (base rel : string) : string := base +:+ "/" +:+ rel.

(** The path a pending rename stands for on the disk: the staged file, or
    the file to delete. *)
Definition pending_path (entry : option string * string) : string :=
  match entry.1 with Some source => source | None => entry.2 end.

(** A pending rename as [FSWriter.__exit__] records it for a file of the
    directory [base]. *)
Definition pending_under (base : string) (entry : option string * string) : Prop :=
  exists rel,
    entry.2 = under base rel /\ startswith rel "/" = false
    /\ (entry.1 = None \/ entry.1 = Some (entry.2 +:+ "-tmp")).

(** The name [make_rel_renames] gives to a dirty file. *)
Definition rel_of (base : string) (item : string * option string) : string :=
  str_from (String.length base + 1) (pending_path (staged_rename item)).

(** What the commit of one dirty file leaves on the disk. *)
Definition install_item (item : string * option string) (f : gmap string string)
    : gmap string string :=
  match item.2 with
  | Some content => <[item.1 := content]> (delete (item.1 +:+ "-tmp") f)
  | None => delete item.1 f
  end.

(** A dirty file of the directory [base] whose name does not end in
    [-tmp]. *)
Definition dirty_path_ok (base path : string) : Prop :=
  exists rel,
    path = under base rel /\ startswith rel "/" = false
    /\ endswith rel "-tmp" = false.

(** A path that is not the temp file of any path. *)
Definition not_temp (q : string) : Prop := forall p, q ≠ p +:+ "-tmp".

(** The files that are not temp files are in [w'] as in [w]. *)
Definition keeps_files (w w' : World) : Prop :=
  forall q, not_temp q -> files w' !! q = files w !! q.

(** Running [m] with [next_serial] set to [n] is running [m] and setting
    [next_serial] to [n]: [m] does not look at the serial. *)
Definition serial_blind {A} (n : Z) (m : M A) : Prop :=
  forall w, m (set_next_serial n w)
            = (let (r, w') := m w in (r, set_next_serial n w')).

(** ** The view of a transaction *)

(** The transaction holds no value it has read: what is in its cache has
    been set by it, and nothing in the cache is [None]. *)
Definition cache_written (tx : Transaction) : Prop :=
  forall rel v, cache tx !! rel = Some v ->
                is_Some (dirty tx !! rel) /\ is_none v = false.

(** The transaction has written nothing, and what it holds in its cache
    is what the history [h] holds at its snapshot. *)
Definition reads_snapshot (h : list (list op)) (tx : Transaction) : Prop :=
  dirty tx = ∅ /\ at_serial tx < Z.of_nat (length h)
  /\ forall rel v, cache tx !! rel = Some v ->
                   state_after h (at_serial tx) !! rel = Some v.

(** ** Subscribers and imports *)

(** The outcome of a subscriber: it returns, or it raises an exception of
    Python. *)
Definition python_outcome {A} (r : result A) : Prop :=
  match r with Ok _ => True | Raise e => is_Exception e = true end.

(** Every subscriber of [handlers] returns or raises an exception. *)
Definition subscribers_raise_exceptions (handlers : gmap string (list Subscriber))
    : Prop :=
  forall keyname subs sub ev w,
    handlers !! keyname = Some subs -> sub ∈ subs -> python_outcome (sub ev w).1.

(** No subscriber of [handlers] commits or rewrites the history: the
    serial and the changelog are as before it was called. *)
Definition subscribers_keep_storage (handlers : gmap string (list Subscriber))
    : Prop :=
  forall keyname subs sub ev w r w',
    handlers !! keyname = Some subs -> sub ∈ subs -> sub ev w = (r, w') ->
    next_serial w' = next_serial w /\ changelog w' = changelog w.

(** Every change of the entry of [serial] has a name [derive_key] finds a
    key for. *)
Definition changes_derivable (keys : gmap string Key) (w : World) (serial : Z) : Prop :=
  exists e, changelog w !! serial = Some e
    /\ forall rel c, e.1 !! rel = Some c -> is_ok (derive_key keys rel c.1.1) = true.

(** The hooks of [serial] are derivable for every serial the thread has
    to catch up with. *)
Definition history_derivable (keys : gmap string Key) (w : World) (event_serial : Z)
    : Prop :=
  forall serial, event_serial < serial < next_serial w ->
                 changes_derivable keys w serial.

(** One round of the loop of [thread_run] at [serial]. *)
Definition notify_serial (self : TxNotificationThread) (keys : gmap string Key)
    (handlers : gmap string (list Subscriber)) (serial : Z) : M unit :=
  _execute_hooks keys handlers serial false ;;;
  write_event_serial self serial.

(** The body of the loop of [import_changes]. *)
Definition import_change (keys : gmap string Key)
    (import_subscriber : gmap string ImportSubscriber) (item : string * change)
    : M unit :=
  match derive_key keys item.1 item.2.1.1 with
  | Raise e => raise e
  | Ok None => raise AttributeError
  | Ok (Some typedkey) =>
      record_set typedkey item.2.2 ;;;
      match import_subscriber !! name typedkey with
      | Some meth => meth typedkey item.2.2 item.2.1.2
      | None => ret tt
      end
  end.

(** Every change has a key under its name, with the relpath of the change,
    and no import subscriber is registered for it. *)
Definition import_ready (keys : gmap string Key)
    (import_subscriber : gmap string ImportSubscriber)
    (changes : gmap string change) : Prop :=
  forall rel c, changes !! rel = Some c ->
    exists typedkey,
      derive_key keys rel c.1.1 = Ok (Some typedkey)
      /\ relpath typedkey = rel
      /\ import_subscriber !! name typedkey = None.

(** ** More concrete runs *)

(** A cursor file that holds a blank and no number. *)
Definition world_blank_cursor : World :=
  set_files {[ "/srv/.event_serial" := " " ]} world0.

(** A Windows host with one file. *)
Definition world_win32 : World :=
  mkWorld true 0 "/srv" {[ "/srv/old" := "x" ]} 0 None ∅ ∅ false
    (mkFSWriter (mkConnection ∅) [] ∅) [].

Definition world_committed : World :=
  (commit_renames "/srv" ["f-tmp"; "old"] world_crashed).2.

(** A write transaction that stages the deletion of a file outside the
    base directory. *)
Definition tx_outside : Transaction :=
  stage_file "/elsewhere/x" None empty_write_tx.

Definition world_failed_commit : World :=
  (Transaction_commit tx_outside (set_write_lock true world0)).2.

Definition users_key : PTypedKey :=
  mkPTypedKey "users/{u}/info" TDict "USER"
    (RxBol :: map token_item users_pattern ++ [RxEol]).

Definition users_alice_key : TypedKey :=
  mkTypedKey "users/alice/info" TDict "USER" {[ "u" := "alice" ]}.

Definition keys_alice : gmap string Key := {[ "USER" := PlainKey key_alice ]}.

(** A subscriber that fails. *)
Definition failing_subscriber : Subscriber := fun _ => raise TypeError.

Definition handlers_alice : gmap string (list Subscriber) :=
  {[ "USER" := [failing_subscriber] ]}.

Definition changes_alice : gmap string change :=
  {[ "users/alice" := ("USER", -1, val_alice) ]}.

(** A body that sets a key and fails. *)
Definition body_set_and_fail (tx : Transaction) : K unit :=
  kbind (set_in_thread key_alice val_alice) (fun _ => kraise TypeError).


Definition twice_a_pattern : list token := [TField "a"; TLit "/"; TField "a"]%char.

(** The integer 42 written to a file of the base directory. *)
Definition world_int_written : World :=
  (write_int_to_file 42 "/srv/serial" world0).2.

(** The commit of [world_staged]. *)
Definition world_installed : World := (FSWriter_exit None world_staged).2.

(** A replay that fails: neither the temp file nor its destination is
    there. *)
Definition world_replay_failed : World :=
  (check_pending_renames "/srv" ["old"; "f-tmp"] world_win32).2.

(** * Properties *)

(** ** The embedding on small inputs *)

Example os_path_dirname_file : os_path_dirname "/srv/pkgs/a.tar" = "/srv/pkgs".
Proof. reflexivity. Qed.

Example os_path_dirname_root : os_path_dirname "/a" = "/".
Proof. reflexivity. Qed.

Example os_path_dirname_plain : os_path_dirname "a.tar" = "".
Proof. reflexivity. Qed.

Example os_path_join_relative : os_path_join "/srv" "pkgs/a.tar-tmp" = "/srv/pkgs/a.tar-tmp".
Proof. reflexivity. Qed.

Example os_path_join_absolute : os_path_join "/srv" "/etc/x" = "/etc/x".
Proof. reflexivity. Qed.

Example str_drop_end_tmp : str_drop_end 4 "/srv/pkgs/a.tar-tmp" = "/srv/pkgs/a.tar".
Proof. reflexivity. Qed.

Example str_drop_end_short : str_drop_end 4 "tmp" = "".
Proof. reflexivity. Qed.

Example endswith_tmp : endswith "a.tar-tmp" "-tmp" = true /\ endswith "tmp" "-tmp" = false.
Proof. split; reflexivity. Qed.

Example py_str_of_int_negative : py_str_of_int (-120) = "-120".
Proof. reflexivity. Qed.

Example py_int_of_bytes_signed : py_int_of_bytes " +42 " = Some 42.
Proof. reflexivity. Qed.

Example py_int_of_bytes_empty : py_int_of_bytes "" = None.
Proof. reflexivity. Qed.

Example rex_of_pattern :
  rex_braces_sub (replace_plus "{user}/{index}/+f")
  = "(?P<user>[^\/]+)/(?P<index>[^\/]+)/\+f".
Proof. reflexivity. Qed.

Example rex_braces_first_closing : rex_braces_sub "{}x}" = "(?P<}x>[^\/]+)".
Proof. reflexivity. Qed.

Example re_compile_twice_the_same_group :
  PTypedKey_init "{u}/{u}" TDict "K" = Raise ReError.
Proof. reflexivity. Qed.

Example py_format_missing_field :
  py_format "users/{u}" ∅ = Raise (KeyError "u").
Proof. reflexivity. Qed.

Example py_format_braces : py_format "{{x}}" ∅ = Ok "{x}".
Proof. reflexivity. Qed.

Example PTypedKey_call_slash :
  (key <- (fun w => (PTypedKey_init "users/{u}" TDict "K", w)) ;;
   fun w => (PTypedKey_call key {[ "u" := "a/b" ]}, w)) world0
  = (Raise (ValueError "a/b"), world0).
Proof. reflexivity. Qed.

(** The first two scenarios of the specification: a value set at serial
    0 and deleted at serial 1. *)
Example scenario_set_then_delete :
  (write_tx [OpSet key_alice val_alice] ;;;
   write_tx [OpDelete key_alice] ;;;
   before <- try_except (get_value_at 2 key_alice (-1)) is_KeyError (ret PyNone) ;;
   at0 <- get_value_at 2 key_alice 0 ;;
   at1 <- try_except (get_value_at 2 key_alice 1) is_KeyError (ret PyNone) ;;
   ret (before, at0, at1)) world0
  = (Ok (PyNone, val_alice, PyNone), world_deleted).
Proof. vm_compute. reflexivity. Qed.

(** The fourth scenario: a staged file is committed. *)
Example scenario_staged_file :
  trace world_exit_ok
  = [EvWrite "/srv/pkgs/a.tar-tmp" "DATA";
     EvChangelog 0 (∅, ["pkgs/a.tar-tmp"]);
     EvRename "/srv/pkgs/a.tar-tmp" "/srv/pkgs/a.tar";
     EvCacheCommit 0; EvNotify 0]
  /\ files world_exit_ok = {[ "/srv/pkgs/a.tar" := "DATA" ]}.
Proof. split; vm_compute; reflexivity. Qed.

(** ** Strings *)

Lemma append_length (s t : string) :
  String.length (s +:+ t) = (String.length s + String.length t)%nat.
Proof. induction s as [|c s IH]; simpl; [reflexivity | now rewrite IH]. Qed.

Lemma append_tmp_neq (path : string) : path +:+ "-tmp" ≠ path.
Proof.
  intros E. apply (f_equal String.length) in E.
  rewrite append_length in E. simpl in E. lia.
Qed.

(** ** Decimal numbers in files *)

Lemma lstrip_no_space s : no_space s = true -> lstrip s = s.
Proof.
  destruct s as [|c r]; simpl; [reflexivity|].
  intros H. apply andb_prop in H as [Hc _].
  now destruct (is_space c).
Qed.

Lemma rstrip_no_space s : no_space s = true -> rstrip s = s.
Proof.
  induction s as [|c r IH]; simpl; [reflexivity|].
  intros H. apply andb_prop in H as [Hc Hr].
  rewrite (IH Hr). destruct r; [|reflexivity].
  now destruct (is_space c).
Qed.

Lemma no_space_digits (d : uint) : no_space (NilEmpty.string_of_uint d) = true.
Proof. unfold no_space. induction d; simpl; auto. Qed.

Lemma no_space_string_of_int (d : int) : no_space (NilZero.string_of_int d) = true.
Proof.
  destruct d as [u|u]; simpl; destruct u; cbn; try reflexivity;
    apply no_space_digits.
Qed.

Lemma string_of_int_no_plus (d : int) (r : string) :
  NilZero.string_of_int d ≠ String "+" r.
Proof. destruct d as [u|u]; simpl; destruct u; simpl; congruence. Qed.

Lemma py_int_of_bytes_unsigned (s : string) :
  no_space s = true -> (forall r, s ≠ String "+" r) ->
  py_int_of_bytes s = Z.of_int <$> NilZero.int_of_string s.
Proof.
  intros Hs Hplus. unfold py_int_of_bytes.
  rewrite (rstrip_no_space _ Hs), (lstrip_no_space _ Hs).
  destruct s as [|c r]; [reflexivity|].
  destruct (Ascii.ascii_dec c "+") as [->|Hc]; [now destruct (Hplus r)|].
  destruct c as [[] [] [] [] [] [] [] []]; try reflexivity. now destruct Hc.
Qed.

Lemma py_int_of_str (n : Z) : py_int_of_bytes (py_str_of_int n) = Some n.
Proof.
  unfold py_str_of_int.
  rewrite py_int_of_bytes_unsigned
    by auto using no_space_string_of_int, string_of_int_no_plus.
  rewrite NilZero.isi.
  - simpl. now rewrite DecimalZ.of_to.
  - destruct n; simpl; intros [= E]. now apply DecimalPos.Unsigned.to_uint_nonnil in E.
  - destruct n; simpl; intros [= E]. now apply DecimalPos.Unsigned.to_uint_nonnil in E.
Qed.

(** ** Filesystem steps *)

Lemma fs_update_fs_update f1 e1 f2 e2 w :
  fs_update f2 e2 (fs_update f1 e1 w) = fs_update f2 (e1 ++ e2) w.
Proof. unfold fs_update. simpl. now rewrite app_assoc. Qed.

Lemma fs_update_id w : fs_update (files w) [] w = w.
Proof. destruct w. unfold fs_update. simpl. now rewrite app_nil_r. Qed.

Lemma emit_set_files e f w : emit e (set_files f w) = fs_update f [e] w.
Proof. reflexivity. Qed.

Lemma get_write_file_ensure_dir_spec path content w :
  get_write_file_ensure_dir path content w
  = (Ok tt, fs_update (<[path := content]> (files w)) [EvWrite path content] w).
Proof. reflexivity. Qed.

Lemma os_remove_present path old w :
  files w !! path = Some old ->
  os_remove path w = (Ok tt, fs_update (delete path (files w)) [EvRemove path] w).
Proof. intros H. unfold os_remove. now rewrite H. Qed.

Lemma os_remove_missing path w :
  files w !! path = None -> os_remove path w = (Raise OSError, w).
Proof. intros H. unfold os_remove. now rewrite H. Qed.

(** Unfolds the plumbing of [M] in the goal. *)
Ltac run_m :=
  repeat (progress (unfold bind, ret, gets, modify, raise; cbn beta iota zeta)).

(** [rename] moves an existing file, on both platforms. *)
Lemma rename_spec source dest content w :
  files w !! source = Some content -> source ≠ dest ->
  exists evs,
    rename source dest w
    = (Ok tt, fs_update (<[dest := content]> (delete source (files w))) evs w)
    /\ Forall (fun e => is_file_move e = true) evs.
Proof.
  intros Hsrc Hne.
  unfold rename, try_except, os_rename. rewrite Hsrc.
  destruct (win32 w && bool_decide (is_Some (files w !! dest))) eqn:Hwin.
  - apply andb_prop in Hwin as [Hwin Hex].
    apply bool_decide_eq_true in Hex as [old Hold].
    cbn [is_OSError].
    unfold os_path_exists_dir, os_makedirs, os_path_exists. run_m. cbn [negb].
    run_m.
    rewrite Hwin, Hold, bool_decide_true by eauto. cbn [andb].
    rewrite (os_remove_present _ _ _ Hold).
    cbn [files fs_update win32]. rewrite lookup_delete_ne by done.
    rewrite Hsrc, Hwin, lookup_delete_eq. cbn [andb].
    rewrite bool_decide_false by (intros [? ?]; discriminate).
    exists [EvRemove dest; EvRename source dest]. split.
    + rewrite emit_set_files, fs_update_fs_update. do 2 f_equal.
      apply map_eq. intros p.
      destruct (decide (p = dest)) as [->|Hp].
      * now rewrite !lookup_insert_eq.
      * rewrite !lookup_insert_ne by done.
        destruct (decide (p = source)) as [->|Hp'].
        -- now rewrite !lookup_delete_eq.
        -- now rewrite !lookup_delete_ne by done.
    + repeat constructor.
  - exists [EvRename source dest]. split; [reflexivity | repeat constructor].
Qed.

(** ** The event-serial cursor *)

Lemma write_int_to_file_ok (val : Z) (path : string) (w : World) :
  exists w', write_int_to_file val path w = (Ok tt, w')
             /\ files w' !! path = Some (py_str_of_int val).
Proof.
  unfold write_int_to_file, bind.
  rewrite get_write_file_ensure_dir_spec.
  edestruct (rename_spec (path +:+ "-tmp") path) as (evs & -> & _);
    [ | apply append_tmp_neq | ].
  - cbn [files fs_update]. apply lookup_insert_eq.
  - eexists; split; [reflexivity|]. cbn [files fs_update]. apply lookup_insert_eq.
Qed.

Lemma read_int_from_file_present (path : string) (default n : Z) (w : World) :
  files w !! path = Some (py_str_of_int n) ->
  read_int_from_file path default w = (Ok n, w).
Proof.
  intros H. unfold read_int_from_file, try_except, bind, read_file.
  rewrite H, py_int_of_str. reflexivity.
Qed.

Lemma read_int_from_file_missing (path : string) (default : Z) (w : World) :
  files w !! path = None ->
  read_int_from_file path default w = (Ok default, w).
Proof.
  intros H. unfold read_int_from_file, try_except, bind, read_file.
  rewrite H. reflexivity.
Qed.

(** C8.  The cursor file stores [event_serial + 1]: for every integer
    [n >= -1], [write_event_serial n] succeeds, leaves the decimal digits of
    [n + 1] in the file, and [read_event_serial] then returns [n]; when the
    file is missing, [read_event_serial] returns [-1]. *)
Theorem event_serial_roundtrip (self : TxNotificationThread) (w : World) :
  (forall n : Z, -1 <= n ->
     exists w', write_event_serial self n w = (Ok tt, w')
                /\ files w' !! event_serial_path self = Some (py_str_of_int (n + 1))
                /\ read_event_serial self w' = (Ok n, w'))
  /\ (files w !! event_serial_path self = None ->
      read_event_serial self w = (Ok (-1), w)).
Proof.
  split.
  - intros n _. unfold write_event_serial, read_event_serial.
    destruct (write_int_to_file_ok (n + 1) (event_serial_path self) w)
      as (w' & Hw & Hf).
    exists w'. split; [exact Hw|]. split; [exact Hf|].
    unfold bind. rewrite (read_int_from_file_present _ _ _ _ Hf).
    unfold ret. do 2 f_equal. lia.
  - intros Hmiss. unfold read_event_serial, bind.
    rewrite (read_int_from_file_missing _ _ _ Hmiss). reflexivity.
Qed.

(** ** TypedKey.set and the empty commit *)

(** C10.  For a key bound to a read transaction, [set] of a value that is
    not an instance of the key's type raises [TypeError], not [ReadOnly]:
    the type is checked first, and [ReadOnly] is raised exactly for the
    values of the right type. *)
Theorem set_type_error_before_readonly (k : TypedKey) (v : pyval) (tx : Transaction) :
  write tx = false ->
  (isinstance v (type k) = false -> TypedKey_set k v tx = Raise TypeError)
  /\ (TypedKey_set k v tx = Raise ReadOnly <-> isinstance v (type k) = true).
Proof.
  intros Hread. unfold TypedKey_set, Transaction_set. rewrite Hread.
  destruct (isinstance v (type k)); simpl; split; try split; congruence.
Qed.

(** C7.  The commit of a write transaction with no dirty key and no
    dirty file only closes the transaction (the write lock is released) and
    returns [at_serial]: [next_serial], the changelog, the primary index
    and the files are unchanged, and the trace is unchanged, so that no
    FSWriter is opened. *)
Theorem empty_commit_is_noop (tx : Transaction) (w : World) :
  write tx = true -> dirty tx = ∅ -> dirty_files (tx_conn tx) = ∅ ->
  exists w',
    Transaction_commit tx w = (Ok (at_serial tx), w')
    /\ w' = set_write_lock false w
    /\ next_serial w' = next_serial w
    /\ changelog w' = changelog w
    /\ db_index w' = db_index w
    /\ files w' = files w
    /\ fswriter w' = fswriter w
    /\ trace w' = trace w.
Proof.
  intros Hw Hd Hf. exists (set_write_lock false w).
  unfold Transaction_commit, Transaction_close. rewrite Hw, Hd, Hf. simpl.
  rewrite !bool_decide_true by reflexivity. simpl.
  repeat split; reflexivity.
Qed.

(** ** Frames: what a step leaves alone *)

Lemma same_storage_refl w : same_storage w w.
Proof. repeat split. Qed.

Lemma same_storage_trans w1 w2 w3 :
  same_storage w1 w2 -> same_storage w2 w3 -> same_storage w1 w3.
Proof. unfold same_storage. intuition congruence. Qed.

Lemma fs_steps_refl P w : fs_steps P w w.
Proof.
  split; [apply same_storage_refl|]. exists []. now rewrite app_nil_r.
Qed.

Lemma fs_steps_trans P w1 w2 w3 :
  fs_steps P w1 w2 -> fs_steps P w2 w3 -> fs_steps P w1 w3.
Proof.
  intros [S1 (e1 & T1 & F1)] [S2 (e2 & T2 & F2)]. split.
  - eapply same_storage_trans; eassumption.
  - exists (e1 ++ e2). rewrite T2, T1, app_assoc. split; [reflexivity|].
    now apply Forall_app.
Qed.

Lemma fs_steps_weaken (P Q : event -> Prop) w w' :
  (forall e, P e -> Q e) -> fs_steps P w w' -> fs_steps Q w w'.
Proof.
  intros HPQ [S (evs & T & F)]. split; [exact S|].
  exists evs. split; [exact T|]. eapply Forall_impl; eassumption.
Qed.

Lemma fs_steps_fs_update (P : event -> Prop) f evs w :
  Forall P evs -> fs_steps P w (fs_update f evs w).
Proof. intros F. split; [repeat split|]. now exists evs. Qed.

Lemma bind_inv {A B} (m : M A) (k : A -> M B) w r w' :
  bind m k w = (r, w') ->
  (exists a w1, m w = (Ok a, w1) /\ k a w1 = (r, w'))
  \/ (exists e, m w = (Raise e, w') /\ r = Raise e).
Proof.
  unfold bind. destruct (m w) as [[a|e] w1]; intros H.
  - left. eauto.
  - right. injection H as <- <-. eauto.
Qed.

Lemma bind_steps {A B} (R : World -> World -> Prop) (m : M A) (k : A -> M B) :
  (forall w1 w2 w3, R w1 w2 -> R w2 w3 -> R w1 w3) ->
  (forall w r w', m w = (r, w') -> R w w') ->
  (forall a w r w', k a w = (r, w') -> R w w') ->
  forall w r w', bind m k w = (r, w') -> R w w'.
Proof.
  intros Htrans Hm Hk w r w' H.
  apply bind_inv in H as [(a & w1 & H1 & H2)|(e & H1 & _)]; eauto.
Qed.

Lemma for_each_steps {A} (R : World -> World -> Prop) (l : list A) body :
  (forall w, R w w) ->
  (forall w1 w2 w3, R w1 w2 -> R w2 w3 -> R w1 w3) ->
  (forall x w r w', body x w = (r, w') -> R w w') ->
  forall w r w', for_each l body w = (r, w') -> R w w'.
Proof.
  intros Hrefl Htrans Hbody. induction l as [|x l IH]; intros w r w' H.
  - injection H as <- <-. apply Hrefl.
  - simpl in H. eapply bind_steps in H; eauto.
Qed.

Lemma assert_steps b w r w' : assert b w = (r, w') -> w' = w.
Proof. destruct b; intros [= <- <-]; reflexivity. Qed.

Lemma record_rename_file_steps P source dest w r w' :
  record_rename_file source dest w = (r, w') -> fs_steps P w w'.
Proof.
  unfold record_rename_file. intros H.
  apply bind_inv in H as [(a & w1 & H1 & H2)|(e & H1 & _)].
  - apply assert_steps in H1 as ->. injection H2 as <- <-.
    split; [repeat split|]. exists []. simpl. now rewrite app_nil_r.
  - apply assert_steps in H1 as ->. apply fs_steps_refl.
Qed.

Lemma stage_dirty_files_steps w r w' :
  stage_dirty_files w = (r, w') -> fs_steps is_staging_write w w'.
Proof.
  unfold stage_dirty_files. intros H.
  apply bind_inv in H as [(self & w1 & [= <- <-] & H)|(e & [=] & _)].
  revert H. apply for_each_steps;
    [apply fs_steps_refl | apply fs_steps_trans |].
  intros [path [content|]] v ? ? H; simpl in H.
  - apply bind_inv in H as [(a & w1 & H1 & H2)|(e & [=] & _)].
    rewrite get_write_file_ensure_dir_spec in H1. injection H1 as <- <-.
    eapply fs_steps_trans; [|eapply record_rename_file_steps; eassumption].
    apply fs_steps_fs_update. repeat constructor. unfold is_staging_write. eauto.
  - eapply record_rename_file_steps; eassumption.
Qed.

Lemma os_remove_steps path w r w' :
  os_remove path w = (r, w') -> fs_steps moves_file w w'.
Proof.
  unfold os_remove. destruct (files w !! path); intros [= <- <-].
  - rewrite emit_set_files. apply fs_steps_fs_update. repeat constructor.
  - apply fs_steps_refl.
Qed.

Lemma os_rename_steps source dest w r w' :
  os_rename source dest w = (r, w') -> fs_steps moves_file w w'.
Proof.
  unfold os_rename. destruct (files w !! source); [|intros [= <- <-]; apply fs_steps_refl].
  destruct (win32 w && _); intros [= <- <-].
  - apply fs_steps_refl.
  - rewrite emit_set_files. apply fs_steps_fs_update. repeat constructor.
Qed.

Lemma try_except_steps {A} (R : World -> World -> Prop) (body handler : M A) sel :
  (forall w1 w2 w3, R w1 w2 -> R w2 w3 -> R w1 w3) ->
  (forall w r w', body w = (r, w') -> R w w') ->
  (forall w r w', handler w = (r, w') -> R w w') ->
  forall w r w', try_except body sel handler w = (r, w') -> R w w'.
Proof.
  intros Htrans Hb Hh w r w'. unfold try_except.
  destruct (body w) as [[a|e] w1] eqn:Hbody.
  - intros [= <- <-]. eauto.
  - destruct (sel e); [|intros [= <- <-]; eauto].
    intros H. eauto.
Qed.

Lemma rename_steps source dest w r w' :
  rename source dest w = (r, w') -> fs_steps moves_file w w'.
Proof.
  unfold rename. apply try_except_steps;
    [apply fs_steps_trans | apply os_rename_steps |].
  clear. intros w r w'. unfold os_path_exists_dir, os_makedirs, os_path_exists.
  apply bind_steps; [apply fs_steps_trans | |].
  { intros ? ? ? [= <- <-]. apply fs_steps_refl. }
  intros dir_exists. apply bind_steps; [apply fs_steps_trans | |].
  { destruct dir_exists; intros ? ? ? [= <- <-]; apply fs_steps_refl. }
  intros _. apply bind_steps; [apply fs_steps_trans | |].
  { intros ? ? ? [= <- <-]. apply fs_steps_refl. }
  intros on_win. apply bind_steps; [apply fs_steps_trans | |].
  { intros ? ? ? [= <- <-]. apply fs_steps_refl. }
  intros dest_exists. apply bind_steps; [apply fs_steps_trans | |].
  { destruct (on_win && dest_exists).
    - apply os_remove_steps.
    - intros ? ? ? [= <- <-]. apply fs_steps_refl. }
  intros _. apply os_rename_steps.
Qed.

Lemma remove_ignoring_steps path w r w' :
  try_except (os_remove path) is_OSError (ret tt) w = (r, w') ->
  fs_steps moves_file w w'.
Proof.
  apply try_except_steps; [apply fs_steps_trans | apply os_remove_steps |].
  intros ? ? ? [= <- <-]. apply fs_steps_refl.
Qed.

Create HintDb frames.

#[local] Hint Resolve fs_steps_refl fs_steps_trans rename_steps
  remove_ignoring_steps : frames.

Lemma commit_renames_from_steps base rels fc fd w r w' :
  commit_renames_from base rels fc fd w = (r, w') -> fs_steps moves_file w w'.
Proof.
  revert fc fd w r w'. induction rels as [|rel rels IH]; intros fc fd w r w' H.
  - injection H as <- <-. apply fs_steps_refl.
  - simpl in H. destruct (endswith rel "-tmp").
    + eapply bind_steps in H; eauto with frames.
    + eapply bind_steps in H; eauto with frames.
Qed.

Lemma make_rel_renames_pure base pending w r w' :
  make_rel_renames base pending w = (r, w') -> w' = w.
Proof.
  revert r w'. induction pending as [|[[source|] dest] rest IH]; intros r w' H.
  - now injection H as <- <-.
  - simpl in H.
    apply bind_inv in H as [(a & w1 & H1 & H2)|(e & H1 & _)];
      apply assert_steps in H1 as ->; [|reflexivity].
    apply bind_inv in H2 as [(rels & w1 & H1 & H2)|(e & H1 & _)].
    + apply IH in H1 as ->. now injection H2 as <- <-.
    + now apply IH in H1.
  - simpl in H.
    apply bind_inv in H as [(a & w1 & H1 & H2)|(e & H1 & _)];
      apply assert_steps in H1 as ->; [|reflexivity].
    apply bind_inv in H2 as [(rels & w1 & H1 & H2)|(e & H1 & _)].
    + apply IH in H1 as ->. now injection H2 as <- <-.
    + now apply IH in H1.
Qed.

(** What a successful [commit_to_filesystem] does. *)
Lemma commit_to_filesystem_ok w out w' :
  commit_to_filesystem w = (Ok out, w') ->
  exists rels post,
    make_rel_renames (basedir w) (pending_renames (fswriter w)) w = (Ok rels, w)
    /\ next_serial w' = next_serial w + 1
    /\ db_index w' = db_index w
    /\ changelog w'
       = <[next_serial w := (changes (fswriter w), rels)]> (changelog w)
    /\ changes (fswriter w') = changes (fswriter w)
    /\ trace w' = trace w ++ EvChangelog (next_serial w) (changes (fswriter w), rels) :: post
    /\ Forall moves_file post.
Proof.
  unfold commit_to_filesystem. intros H.
  apply bind_inv in H as [(base & w1 & [= <- <-] & H)|(e & [=] & _)].
  apply bind_inv in H as [(self & w1 & [= <- <-] & H)|(e & [=] & _)].
  apply bind_inv in H as [(rels & w1 & Hrel & H)|(e & _ & [=])].
  pose proof (make_rel_renames_pure _ _ _ _ _ Hrel) as ->.
  apply bind_inv in H as [(serial & w1 & [= <- <-] & H)|(e & [=] & _)].
  apply bind_inv in H as [(? & w1 & [= <- <-] & H)|(e & [=] & _)].
  apply bind_inv in H as [(done & w2 & Hren & H)|(e & _ & [=])].
  injection H as _ <-.
  apply commit_renames_from_steps in Hren as [S (post & T & F)].
  destruct S as (S1 & S2 & S3 & S4 & S5 & S6 & S7).
  exists rels, post. simpl in *.
  rewrite <- app_assoc in T. simpl in T.
  repeat split; solve [assumption | congruence].
Qed.

(** What a successful [__exit__] of a commit does: the trace grows by the
    writes of the staged files ([pre]), then the changelog entry, then the
    renames and removals and the notifications ([post]). *)
Lemma FSWriter_exit_commit_ok w w' :
  FSWriter_exit None w = (Ok tt, w') ->
  exists rels pre post,
    next_serial w' = next_serial w + 1
    /\ db_index w' = db_index w
    /\ changelog w'
       = <[next_serial w := (changes (fswriter w), rels)]> (changelog w)
    /\ trace w'
       = trace w ++ pre
         ++ EvChangelog (next_serial w) (changes (fswriter w), rels) :: post
    /\ Forall is_staging_write pre
    /\ Forall (fun e => is_changelog_write e = false) post.
Proof.
  unfold FSWriter_exit. intros H.
  apply bind_inv in H as [(? & w1 & Hstage & H)|(e & _ & [=])].
  apply stage_dirty_files_steps in Hstage as [S (pre & T & F)].
  destruct S as (S1 & S2 & S3 & S4 & S5 & S6 & S7).
  apply bind_inv in H as [(out & w2 & Hcommit & H)|(e & _ & [=])].
  apply commit_to_filesystem_ok in Hcommit
    as (rels & post & _ & C1 & C2 & C3 & C4 & C5 & C6).
  injection H as <-. simpl.
  exists rels, pre, (post ++ [EvCacheCommit (next_serial w2 - 1); EvNotify (next_serial w2 - 1)]).
  rewrite C5, T, S1, S6, C3, S3, S1, S6, <- !app_assoc. simpl.
  repeat split; try solve [assumption | congruence].
  apply Forall_app. split.
  - eapply Forall_impl; [exact C6|]. intros [] E; try discriminate E; reflexivity.
  - repeat constructor.
Qed.

(** C5.  On every successful scoped exit of an FSWriter the trace grows by
    [pre], then the changelog entry of the commit serial, then [post]:
    [pre] holds nothing but the writes of the staged [path-tmp] files, no
    rename and no removal (and no changelog write), so the entry is written
    before any side file is renamed or removed, and it is the entry the
    changelog holds at that serial. *)
Theorem changelog_written_before_file_moves (w w' : World) :
  FSWriter_exit None w = (Ok tt, w') ->
  exists e pre post,
    trace w' = trace w ++ pre ++ EvChangelog (next_serial w) e :: post
    /\ changelog w' !! next_serial w = Some e
    /\ Forall is_staging_write pre
    /\ Forall (fun ev => is_file_move ev = false) pre
    /\ Forall (fun ev => is_changelog_write ev = false) pre
    /\ Forall (fun ev => is_changelog_write ev = false) post.
Proof.
  intros H. apply FSWriter_exit_commit_ok in H
    as (rels & pre & post & _ & _ & Hlog & Htrace & Hpre & Hpost).
  exists (changes (fswriter w), rels), pre, post.
  split; [exact Htrace|]. split; [rewrite Hlog; apply lookup_insert_eq|].
  split; [exact Hpre|].
  repeat split; try assumption;
    (eapply Forall_impl; [exact Hpre|]; intros ? (? & ? & ->); reflexivity).
Qed.

Lemma record_set_next_serial typedkey value w r w' :
  record_set typedkey value w = (r, w') -> next_serial w' = next_serial w.
Proof.
  unfold record_set, db_get_typedkey_value, db_set_typedkey_value,
    db_write_typedkey, db_read_typedkey, try_except.
  run_m. destruct (db_index w !! relpath typedkey); simpl; now intros [= <- <-].
Qed.

Lemma Transaction_close_spec tx w :
  Transaction_close tx w
  = (Ok (at_serial tx), if write tx then set_write_lock false w else w).
Proof. unfold Transaction_close. now destruct (write tx). Qed.

(** ** Recording the dirty keys *)

Lemma record_set_spec typedkey value w :
  record_set typedkey value w
  = (Ok tt,
     set_fswriter
       (mkFSWriter (conn (fswriter w)) (pending_renames (fswriter w))
          (<[relpath typedkey := (name typedkey, back_serial_of w (relpath typedkey), value)]>
             (changes (fswriter w))))
       (set_db_index
          (<[relpath typedkey := (name typedkey, next_serial w)]> (db_index w)) w)).
Proof.
  unfold record_set, db_get_typedkey_value, db_set_typedkey_value,
    db_write_typedkey, db_read_typedkey, try_except, back_serial_of.
  run_m. destruct (db_index w !! relpath typedkey); reflexivity.
Qed.

Lemma record_dirty_frame tx items w :
  exists w', record_dirty tx items w = (Ok tt, w') /\ index_steps w w'.
Proof.
  revert w. induction items as [|[rel k] items IH]; intros w.
  - exists w. split; [reflexivity | repeat split].
  - unfold record_dirty. simpl. unfold bind at 1. rewrite record_set_spec.
    match goal with |- context [for_each items ?b ?w1] =>
      destruct (IH w1) as (w' & Hrun & Hst) end.
    exists w'. split; [exact Hrun|].
    unfold index_steps in *. simpl in Hst. intuition congruence.
Qed.

Lemma record_dirty_spec tx items w w' :
  NoDup items.*1 ->
  (forall rel k, (rel, k) ∈ items -> relpath k = rel) ->
  record_dirty tx items w = (Ok tt, w') ->
  (forall rel,
     db_index w' !! rel
     = match (list_to_map items : gmap string TypedKey) !! rel with
       | Some k => Some (name k, next_serial w)
       | None => db_index w !! rel
       end)
  /\ (forall rel,
        changes (fswriter w') !! rel
        = match (list_to_map items : gmap string TypedKey) !! rel with
          | Some k => Some (name k, back_serial_of w rel,
                            default PyNone (cache tx !! rel))
          | None => changes (fswriter w) !! rel
          end).
Proof.
  revert w. induction items as [|[rel0 k0] items IH]; intros w Hnd Hwf Hrun.
  - injection Hrun as <-. simpl. split; intros rel; now rewrite lookup_empty.
  - unfold record_dirty in Hrun. simpl in Hrun. unfold bind at 1 in Hrun.
    rewrite record_set_spec in Hrun.
    apply NoDup_cons in Hnd as [Hnotin Hnd].
    assert (Hk0 : relpath k0 = rel0) by (apply Hwf; left).
    apply IH in Hrun as [Hidx Hch]; [|exact Hnd|intros; apply Hwf; now right].
    simpl in Hidx, Hch. rewrite Hk0 in *.
    split; intros rel; [rewrite Hidx | rewrite Hch]; simpl;
      destruct (decide (rel = rel0)) as [->|Hne].
    + rewrite (not_elem_of_list_to_map_1 _ _ Hnotin), !lookup_insert_eq. reflexivity.
    + rewrite !lookup_insert_ne by done. reflexivity.
    + rewrite (not_elem_of_list_to_map_1 _ _ Hnotin), !lookup_insert_eq. reflexivity.
    + rewrite !lookup_insert_ne by done.
      destruct (list_to_map items !! rel); [|reflexivity].
      unfold back_serial_of. simpl. now rewrite lookup_insert_ne by done.
Qed.

(** ** Transaction.commit *)

(** A successful commit of a transaction with changes: the writer is
    opened on [w], the dirty keys are recorded up to [wc], [__exit__]
    commits up to [wa], and the transaction is closed. *)
Lemma Transaction_commit_inv tx w serial w' :
  write tx = true -> has_changes tx ->
  Transaction_commit tx w = (Ok serial, w') ->
  exists wc wa,
    record_dirty tx (map_to_list (dirty tx))
      (emit (EvOpenWriter (next_serial w))
         (set_fswriter (mkFSWriter (tx_conn tx) [] ∅) w)) = (Ok tt, wc)
    /\ FSWriter_exit None wc = (Ok tt, wa)
    /\ serial = next_serial w
    /\ w' = set_write_lock false wa.
Proof.
  intros Hw Hch. unfold Transaction_commit. rewrite Hw. simpl.
  assert (bool_decide (dirty tx = ∅) && bool_decide (dirty_files (tx_conn tx) = ∅)
          = false) as ->.
  { apply andb_false_iff. destruct Hch as [H|H]; [left|right];
      now apply bool_decide_eq_false. }
  unfold try_finally, with_write_transaction, write_transaction. run_m.
  match goal with |- context [for_each ?l ?b ?w1] =>
    change (for_each l b w1) with (record_dirty tx l w1);
    destruct (record_dirty_frame tx l w1) as (wc & Hrun & Hst) end.
  rewrite Hrun. run_m.
  destruct (FSWriter_exit None wc) as [[[]|e] wa] eqn:Hexit; run_m;
    rewrite Transaction_close_spec, Hw; run_m; [|discriminate].
  intros [= <- <-]. exists wc, wa. repeat split; try assumption.
  destruct Hst as (-> & _). reflexivity.
Qed.

Lemma Transaction_commit_next_serial tx w serial w' :
  write tx = true -> has_changes tx ->
  Transaction_commit tx w = (Ok serial, w') ->
  serial = next_serial w /\ next_serial w' = next_serial w + 1.
Proof.
  intros Hw Hch H.
  apply Transaction_commit_inv in H as (wc & wa & Hrun & Hexit & -> & ->);
    try assumption.
  split; [reflexivity|].
  destruct (record_dirty_frame tx (map_to_list (dirty tx))
              (emit (EvOpenWriter (next_serial w))
                 (set_fswriter (mkFSWriter (tx_conn tx) [] ∅) w)))
    as (wc' & Hrun' & Hst).
  rewrite Hrun in Hrun'. injection Hrun' as <-.
  apply FSWriter_exit_commit_ok in Hexit as (? & ? & ? & E & _).
  destruct Hst as (Hn & _). simpl in *. lia.
Qed.

(** C3, as amended.  After [n] successful commits of write transactions
    that have something to commit (a dirty key or a dirty file), the
    current serial has increased by exactly [n]; and every successful
    scoped exit of an FSWriter increments [next_serial] by exactly one. *)
Theorem serial_counts_commits (n : nat) (w w' : World) :
  after_commits n w w' ->
  (next_serial w' - 1) = (next_serial w - 1) + Z.of_nat n
  /\ (forall wa wb, FSWriter_exit None wa = (Ok tt, wb) ->
                    next_serial wb = next_serial wa + 1).
Proof.
  intros H. split.
  - induction H as [w | n w w1 tx serial w2 _ IH Hw Hch Hcommit
                      | n w w1 w2 _ IH Heq].
    + lia.
    + apply Transaction_commit_next_serial in Hcommit as [_ ->]; try assumption.
      lia.
    + lia.
  - intros wa wb Hexit.
    now apply FSWriter_exit_commit_ok in Hexit as (? & ? & ? & E & _).
Qed.

(** ** Rollback *)

Lemma staged_staged f1 e1 p1 f2 e2 p2 w :
  staged f2 e2 p2 (staged f1 e1 p1 w) = staged f2 (e1 ++ e2) (p1 ++ p2) w.
Proof. unfold staged. simpl. now rewrite !app_assoc. Qed.

Lemma staged_id w : staged (files w) [] [] w = w.
Proof.
  destruct w as [? ? ? ? ? ? ? ? ? [] ?]. unfold staged. simpl.
  now rewrite !app_nil_r.
Qed.

Lemma stage_item_ok item w :
  item.1 ≠ "" ->
  stage_item item w
  = (Ok tt, staged (staged_write item (files w)) (staged_event item)
              [staged_rename item] w).
Proof.
  intros Hd. destruct item as [path [content|]];
    unfold stage_item, staged_write, staged_event, staged_rename; simpl in *.
  - unfold bind. rewrite get_write_file_ensure_dir_spec.
    unfold record_rename_file, bind.
    destruct (String.eqb_spec path ""); [contradiction|]. reflexivity.
  - unfold record_rename_file, bind.
    destruct (String.eqb_spec path ""); [contradiction|].
    simpl. unfold modify, staged. simpl. now rewrite app_nil_r.
Qed.

Lemma stage_item_fail item w :
  item.1 = "" -> exists w', stage_item item w = (Raise AssertionError, w').
Proof.
  destruct item as [path [content|]]; simpl; intros ->;
    unfold stage_item; simpl; eexists; reflexivity.
Qed.

Lemma stage_items_ok items w :
  Forall (fun item => item.1 ≠ "") items ->
  for_each items stage_item w
  = (Ok tt, staged (foldl (fun f item => staged_write item f) (files w) items)
              (flat_map staged_event items) (map staged_rename items) w).
Proof.
  revert w. induction items as [|item items IH]; intros w Hall.
  - simpl. now rewrite staged_id.
  - apply Forall_cons in Hall as [Hitem Hall]. simpl. unfold bind at 1.
    rewrite (stage_item_ok _ _ Hitem), (IH _ Hall), staged_staged. reflexivity.
Qed.

Lemma stage_items_ok_inv items w w' :
  for_each items stage_item w = (Ok tt, w') ->
  Forall (fun item => item.1 ≠ "") items.
Proof.
  revert w. induction items as [|item items IH]; intros w H; [constructor|].
  simpl in H. unfold bind at 1 in H.
  destruct (decide (item.1 = "")) as [Hd|Hd].
  - destruct (stage_item_fail item w Hd) as (w1 & E). rewrite E in H. discriminate.
  - rewrite (stage_item_ok _ _ Hd) in H. constructor; eauto.
Qed.

Lemma staged_write_grows items f p :
  is_Some (f !! p) ->
  is_Some (foldl (fun f item => staged_write item f) f items !! p).
Proof.
  revert f. induction items as [|[path [content|]] items IH]; intros f Hp; simpl; auto.
  apply IH. unfold staged_write. simpl.
  destruct (decide (p = path +:+ "-tmp")) as [->|Hne].
  - rewrite lookup_insert_eq. eauto.
  - now rewrite lookup_insert_ne.
Qed.

Lemma staged_sources_exist items f src :
  src ∈ sources (map staged_rename items) ->
  is_Some (foldl (fun f item => staged_write item f) f items !! src).
Proof.
  revert f. induction items as [|[path [content|]] items IH]; intros f Hsrc.
  - inversion Hsrc.
  - unfold sources in Hsrc. simpl in Hsrc.
    apply elem_of_cons in Hsrc as [->|Hsrc].
    + simpl. apply staged_write_grows. unfold staged_write. simpl.
      rewrite lookup_insert_eq. eauto.
    + simpl. now apply IH.
  - unfold sources in Hsrc. simpl in Hsrc. simpl. now apply IH.
Qed.

Lemma append_tmp_inj (p q : string) : p +:+ "-tmp" = q +:+ "-tmp" -> p = q.
Proof.
  revert q. induction p as [|c p IH]; intros [|d q] H; simpl in H.
  - reflexivity.
  - apply (f_equal String.length) in H. simpl in H.
    rewrite append_length in H. simpl in H. lia.
  - apply (f_equal String.length) in H. simpl in H.
    rewrite append_length in H. simpl in H. lia.
  - injection H as -> H. f_equal. now apply IH.
Qed.

Lemma staged_sources_NoDup items :
  NoDup items.*1 -> NoDup (sources (map staged_rename items)).
Proof.
  induction items as [|[path content] items IH]; intros Hnd.
  - constructor.
  - simpl in Hnd. apply NoDup_cons in Hnd as [Hnotin Hnd].
    unfold sources. simpl. destruct content as [content|]; simpl; [|now apply IH].
    apply NoDup_cons. split; [|now apply IH].
    intros Hin. apply Hnotin. clear -Hin.
    induction items as [|[p [c|]] items IH]; simpl in *.
    + inversion Hin.
    + apply elem_of_cons in Hin as [E|Hin].
      * apply append_tmp_inj in E as ->. left.
      * right. now apply IH.
    + right. now apply IH.
Qed.

Lemma stage_dirty_files_unfold w :
  stage_dirty_files w
  = for_each (map_to_list (dirty_files (conn (fswriter w)))) stage_item w.
Proof. reflexivity. Qed.

Lemma pop_pending_renames_steps stack w r w' :
  pop_pending_renames stack w = (r, w') -> fs_steps is_remove_event w w'.
Proof.
  revert w. induction stack as [|[source dest] stack IH]; intros w H.
  - injection H as <- <-. apply fs_steps_refl.
  - simpl in H. unfold bind at 1, modify at 1 in H. cbn beta iota zeta in H.
    apply bind_inv in H as [([] & w1 & H1 & H2)|(e & H1 & _)].
    + eapply fs_steps_trans; [|eapply IH; eassumption].
      destruct source as [tmp|].
      * unfold os_remove in H1. simpl in H1.
        destruct (files w !! tmp); [|discriminate]. injection H1 as <-.
        split; [repeat split|]. exists [EvRemove tmp]. split; [reflexivity|].
        repeat constructor. now exists tmp.
      * injection H1 as <-. split; [repeat split|].
        exists []. simpl. now rewrite app_nil_r.
    + destruct source as [tmp|]; [|discriminate].
      unfold os_remove in H1. simpl in H1.
      destruct (files w !! tmp); [discriminate H1|]. injection H1 as _ <-.
      split; [repeat split|]. exists []. simpl. now rewrite app_nil_r.
Qed.

Lemma pop_pending_renames_ok stack w w' :
  pop_pending_renames stack w = (Ok tt, w') ->
  files w' = foldl (fun f p => delete p f) (files w) (sources stack)
  /\ trace w' = trace w ++ map EvRemove (sources stack)
  /\ pending_renames (fswriter w')
     = match stack with [] => pending_renames (fswriter w) | _ => [] end.
Proof.
  revert w. induction stack as [|[source dest] stack IH]; intros w H.
  - injection H as <-. simpl. now rewrite app_nil_r.
  - simpl in H. unfold bind at 1, modify at 1 in H. cbn beta iota zeta in H.
    apply bind_inv in H as [([] & w1 & H1 & H2)|(e & _ & [=])].
    apply IH in H2 as (Hf & Ht & Hp).
    assert (Hp' : pending_renames (fswriter w') = []).
    { rewrite Hp. destruct stack; [|reflexivity].
      destruct source as [tmp|].
      - unfold os_remove in H1. simpl in H1.
        destruct (files w !! tmp); [|discriminate]. now injection H1 as <-.
      - now injection H1 as <-. }
    split; [|split]; [| |exact Hp'].
    + rewrite Hf. destruct source as [tmp|]; unfold sources; simpl.
      * unfold os_remove in H1. simpl in H1.
        destruct (files w !! tmp); [|discriminate]. now injection H1 as <-.
      * now injection H1 as <-.
    + rewrite Ht. destruct source as [tmp|]; unfold sources; simpl.
      * unfold os_remove in H1. simpl in H1.
        destruct (files w !! tmp); [|discriminate]. injection H1 as <-.
        simpl. now rewrite <- app_assoc.
      * now injection H1 as <-.
Qed.

Lemma pop_pending_renames_total stack w :
  NoDup (sources stack) ->
  (forall src, src ∈ sources stack -> is_Some (files w !! src)) ->
  exists w', pop_pending_renames stack w = (Ok tt, w').
Proof.
  revert w. induction stack as [|[[tmp|] dest] stack IH]; intros w Hnd Hex.
  - eexists. reflexivity.
  - unfold sources in Hnd, Hex. simpl in Hnd, Hex.
    apply NoDup_cons in Hnd as [Hnotin Hnd].
    assert (is_Some (files w !! tmp)) as [old Hold] by (apply Hex; left).
    simpl. unfold bind at 1, modify at 1. cbn beta iota zeta.
    unfold bind at 1, os_remove at 1. simpl. rewrite Hold.
    apply IH; [exact Hnd|]. intros src Hsrc. simpl.
    rewrite lookup_delete_ne by (intros ->; contradiction).
    apply Hex. now right.
  - simpl. unfold bind at 1, modify at 1. cbn beta iota zeta.
    unfold bind at 1, ret at 1. cbn beta iota zeta.
    apply IH; [exact Hnd|]. intros src Hsrc. apply Hex. exact Hsrc.
Qed.

Lemma foldl_delete_lookup (l : list string) (f : gmap string string) p :
  p ∈ l -> foldl (fun f p => delete p f) f l !! p = None.
Proof.
  revert f. induction l as [|q l IH]; intros f Hp; [inversion Hp|].
  simpl. destruct (decide (p ∈ l)) as [Hin|Hnotin]; [now apply IH|].
  apply elem_of_cons in Hp as [->|Hp]; [|contradiction].
  clear IH Hnotin. generalize (lookup_delete_eq f q). generalize (delete q f).
  induction l as [|q' l IH]; intros g Hg; simpl; [exact Hg|].
  apply IH. destruct (decide (q = q')) as [->|Hne].
  - apply lookup_delete_eq.
  - now rewrite lookup_delete_ne.
Qed.

Lemma sources_app l1 l2 : sources (l1 ++ l2) = sources l1 ++ sources l2.
Proof. unfold sources. apply omap_app. Qed.

Lemma sources_rev l : sources (rev l) = rev (sources l).
Proof.
  induction l as [|[[tmp|] dest] l IH]; simpl; [reflexivity| |].
  - rewrite sources_app, IH. reflexivity.
  - rewrite sources_app, IH. unfold sources at 2. simpl. now rewrite app_nil_r.
Qed.

Lemma elem_of_rev {A} (x : A) (l : list A) : x ∈ rev l <-> x ∈ l.
Proof. rewrite !list_elem_of_In. symmetry. apply in_rev. Qed.

Lemma NoDup_rev_iff {A} (l : list A) : NoDup l -> NoDup (rev l).
Proof. rewrite !NoDup_ListNoDup. apply List.NoDup_rev. Qed.

(** C6.  On a scoped exit of an FSWriter with an error, whatever the
    outcome, [next_serial], the changelog and the primary index are
    unchanged and no changelog entry is written.  When the exit returns,
    the trace shows the writes of the staged files and then the removal of
    every staged temp file, in the reverse order of the pending renames;
    every one of these temp files is gone and no rename is pending.  The
    exit does return when the staged temp files are distinct, the ones
    that were pending before exist, and no dirty file has an empty path. *)
Theorem rollback_leaves_committed_state (err : exn) (w : World) r w' :
  FSWriter_exit (Some err) w = (r, w') ->
  let items := map_to_list (dirty_files (conn (fswriter w))) in
  let pending := pending_renames (fswriter w) ++ map staged_rename items in
  (next_serial w' = next_serial w /\ changelog w' = changelog w
   /\ db_index w' = db_index w)
  /\ (exists evs, trace w' = trace w ++ evs
                  /\ Forall (fun e => is_changelog_write e = false) evs)
  /\ (r = Ok tt ->
      trace w' = trace w ++ flat_map staged_event items
                         ++ map EvRemove (sources (rev pending))
      /\ (forall src, src ∈ sources pending -> files w' !! src = None)
      /\ pending_renames (fswriter w') = [])
  /\ (NoDup (sources pending) ->
      (forall src, src ∈ sources (pending_renames (fswriter w)) ->
                   is_Some (files w !! src)) ->
      Forall (fun item => item.1 ≠ "") items -> r = Ok tt).
Proof.
  intros H items pending. unfold FSWriter_exit in H.
  assert (Hsteps : fs_steps (fun e => is_changelog_write e = false) w w').
  { apply bind_inv in H as [(? & w1 & H1 & H2)|(e & H1 & _)].
    - apply bind_inv in H2 as [(? & ? & [= <- <-] & H2)|(e & [=] & _)].
      apply stage_dirty_files_steps in H1.
      apply pop_pending_renames_steps in H2.
      eapply fs_steps_trans; eapply fs_steps_weaken; try eassumption.
      + intros ? (? & ? & ->); reflexivity.
      + intros ? (? & ->); reflexivity.
    - apply stage_dirty_files_steps in H1.
      eapply fs_steps_weaken; try eassumption.
      intros ? (? & ? & ->); reflexivity. }
  destruct Hsteps as [(S1 & S2 & S3 & _) Hevs].
  split; [auto|]. split; [exact Hevs|].
  apply bind_inv in H as [([] & w1 & H1 & H2)|(e & H1 & ->)].
  - rewrite stage_dirty_files_unfold in H1. fold items in H1.
    pose proof (stage_items_ok_inv _ _ _ H1) as Hall.
    rewrite (stage_items_ok _ _ Hall) in H1. injection H1 as <-.
    apply bind_inv in H2 as [(? & ? & [= <- <-] & H2)|(e & [=] & _)].
    simpl in H2. fold pending in H2.
    split.
    + intros ->. apply pop_pending_renames_ok in H2 as (Hf & Ht & Hp).
      split; [|split].
      * rewrite Ht. simpl. symmetry. apply app_assoc.
      * intros src Hsrc. rewrite Hf. apply foldl_delete_lookup.
        rewrite sources_rev. now apply elem_of_rev.
      * rewrite Hp. destruct (rev pending) eqn:E; [|reflexivity].
        simpl. fold pending.
        apply (f_equal (@rev _)) in E. rewrite rev_involutive in E. now rewrite E.
    + intros Hnd Hex _.
      edestruct (pop_pending_renames_total (rev pending))
        as (w2 & Hpop); [| |rewrite Hpop in H2; now injection H2 as <-].
      * rewrite sources_rev. now apply NoDup_rev_iff.
      * intros src Hsrc. rewrite sources_rev in Hsrc.
        apply (proj1 (elem_of_rev _ _)) in Hsrc.
        unfold pending in Hsrc. rewrite sources_app in Hsrc. simpl.
        apply elem_of_app in Hsrc as [Hsrc|Hsrc].
        -- apply staged_write_grows. auto.
        -- now apply staged_sources_exist.
  - split; [discriminate|]. intros _ _ Hall.
    rewrite stage_dirty_files_unfold in H1. fold items in H1.
    rewrite (stage_items_ok _ _ Hall) in H1. discriminate.
Qed.

(** ** Crash recovery *)

Lemma check_pending_renames_unfold base rels :
  check_pending_renames base rels = for_each rels (replay_rename base).
Proof. reflexivity. Qed.

Section Replay.

Variable base : string.
Variable rels : list string.
Hypothesis plan : rename_plan_ok base rels.

Lemma replay_rename_settled rel w :
  settled base (files w) rel -> replay_rename base rel w = (Ok tt, w).
Proof.
  intros [Hnone Hdest]. unfold replay_rename.
  destruct (endswith rel "-tmp").
  - unfold os_path_exists. run_m. rewrite Hnone.
    rewrite bool_decide_false by (intros [? ?]; discriminate).
    rewrite bool_decide_true by auto. reflexivity.
  - unfold try_except. rewrite (os_remove_missing _ _ Hnone). reflexivity.
Qed.

(** A successful round settles its entry and keeps the other entries of
    the plan settled. *)
Lemma replay_rename_ok rel w w' :
  rel ∈ rels ->
  replay_rename base rel w = (Ok tt, w') ->
  settled base (files w') rel
  /\ (forall rel', rel' ∈ rels -> settled base (files w) rel' ->
                   settled base (files w') rel').
Proof.
  intros Hrel. unfold replay_rename.
  pose proof plan as Hplan.
  unfold rename_plan_ok in Hplan. rewrite Forall_forall in Hplan.
  assert (Hpath : os_path_join base rel ∈ map (os_path_join base) rels)
    by (apply list_elem_of_fmap; eauto).
  destruct (endswith rel "-tmp") eqn:Htmp.
  - pose proof (Hplan rel Hrel Htmp) as Hfresh.
    assert (Hne : os_path_join base rel ≠ str_drop_end 4 (os_path_join base rel))
      by (intros E; apply Hfresh; now rewrite <- E).
    unfold os_path_exists. run_m.
    destruct (files w !! os_path_join base rel) as [content|] eqn:Hsrc.
    + rewrite bool_decide_true by eauto.
      destruct (rename_spec _ _ _ _ Hsrc Hne) as (evs & -> & _).
      intros [= <-]. simpl. split.
      * split; [|intros _; rewrite lookup_insert_eq; eauto].
        rewrite lookup_insert_ne by done. apply lookup_delete_eq.
      * intros rel' Hrel' [Hnone Hdest].
        assert (Hpath' : os_path_join base rel' ∈ map (os_path_join base) rels)
          by (apply list_elem_of_fmap; eauto).
        split.
        -- rewrite lookup_insert_ne by (intros E; apply Hfresh; now rewrite E).
           destruct (decide (os_path_join base rel' = os_path_join base rel))
             as [->|Hd]; [apply lookup_delete_eq|].
           now rewrite lookup_delete_ne.
        -- intros Htmp'. specialize (Hdest Htmp').
           destruct (decide (str_drop_end 4 (os_path_join base rel')
                             = str_drop_end 4 (os_path_join base rel))) as [->|Hd].
           ++ rewrite lookup_insert_eq. eauto.
           ++ rewrite lookup_insert_ne by done.
              rewrite lookup_delete_ne; [exact Hdest|].
              intros E. apply (Hplan rel' Hrel' Htmp'). now rewrite <- E.
    + rewrite bool_decide_false by (intros [? ?]; discriminate).
      destruct (bool_decide _) eqn:Hdest; [|discriminate].
      apply bool_decide_eq_true in Hdest.
      intros [= <-]. split; [split; auto | auto].
  - unfold try_except, os_remove.
    destruct (files w !! os_path_join base rel) as [content|] eqn:Hsrc.
    + intros [= <-]. simpl. split.
      * split; [apply lookup_delete_eq | congruence].
      * intros rel' Hrel' [Hnone Hdest]. split.
        -- destruct (decide (os_path_join base rel' = os_path_join base rel))
             as [->|Hd]; [apply lookup_delete_eq|].
           now rewrite lookup_delete_ne.
        -- intros Htmp'. rewrite lookup_delete_ne; [auto|].
           intros E. apply (Hplan rel' Hrel' Htmp'). now rewrite <- E.
    + simpl. intros [= <-]. split; [split; [exact Hsrc | congruence] | auto].
Qed.

Lemma replay_all_ok l w w' :
  (forall rel, rel ∈ l -> rel ∈ rels) ->
  for_each l (replay_rename base) w = (Ok tt, w') ->
  (forall rel, rel ∈ l -> settled base (files w') rel)
  /\ (forall rel, rel ∈ rels -> settled base (files w) rel ->
                  settled base (files w') rel).
Proof.
  revert w. induction l as [|rel l IH]; intros w Hsub H.
  - injection H as <-. split; [intros ? Hin; inversion Hin | auto].
  - simpl in H. apply bind_inv in H as [([] & w1 & H1 & H2)|(e & _ & [=])].
    apply replay_rename_ok in H1 as [Hrel Hkeep]; [|apply Hsub; left].
    apply IH in H2 as [Hl Hkeep']; [|intros; apply Hsub; now right].
    split.
    + intros rel' Hin. apply elem_of_cons in Hin as [->|Hin]; [|auto].
      apply Hkeep'; [apply Hsub; left | exact Hrel].
    + intros rel' Hin Hs. auto.
Qed.

Lemma replay_all_settled l w :
  (forall rel, rel ∈ l -> settled base (files w) rel) ->
  for_each l (replay_rename base) w = (Ok tt, w).
Proof.
  induction l as [|rel l IH]; intros Hall; [reflexivity|].
  simpl. unfold bind. rewrite replay_rename_settled by (apply Hall; left).
  apply IH. intros. apply Hall. now right.
Qed.

End Replay.

(** ** Transactions and their write sets *)

Lemma isinstance_not_none v t : isinstance v t = true -> is_none v = false.
Proof. destruct v, t; simpl; congruence. Qed.

Lemma set_add_lookup typedkey s rel :
  set_add typedkey s !! rel
  = match s !! rel with
    | Some k => Some k
    | None => if decide (rel = relpath typedkey) then Some typedkey else None
    end.
Proof.
  unfold set_add. destruct (s !! relpath typedkey) as [k0|] eqn:E.
  - destruct (s !! rel) eqn:E'; [reflexivity|].
    destruct (decide (rel = relpath typedkey)) as [->|]; congruence.
  - destruct (decide (rel = relpath typedkey)) as [->|Hne].
    + now rewrite lookup_insert_eq, E.
    + rewrite lookup_insert_ne by done. now destruct (s !! rel).
Qed.

Lemma run_op_holds tx o tx' ws :
  run_op tx o = Ok tx' -> holds_write_set tx ws ->
  holds_write_set tx' (ws_apply ws o) /\ op_typed o.
Proof.
  intros Hrun (Hw & Hwf & Hdom & Hval).
  destruct o as [k v|k|path content]; simpl in *.
  - unfold TypedKey_set, Transaction_set in Hrun. rewrite Hw in Hrun.
    destruct (isinstance v (type k)) eqn:Hty; simpl in Hrun; [|discriminate].
    destruct (if bool_decide (type k = TDict) then check_unicode_keys v else Ok tt);
      [|discriminate].
    injection Hrun as <-. unfold holds_write_set.
    cbn [write dirty cache ws_apply]. split; [|eauto using isinstance_not_none].
    split; [reflexivity|]. split; [|split].
    + intros rel k0. rewrite set_add_lookup.
      destruct (dirty tx !! rel) eqn:E; [intros [= <-]; eauto|].
      destruct (decide (rel = relpath k)); congruence.
    + intros rel. rewrite set_add_lookup.
      destruct (decide (rel = relpath k)) as [->|Hne].
      * rewrite lookup_insert_eq. destruct (dirty tx !! relpath k); split; congruence.
      * rewrite lookup_insert_ne by done. rewrite <- Hdom.
        destruct (dirty tx !! rel); split; congruence.
    + intros rel v0. destruct (decide (rel = relpath k)) as [->|Hne].
      * rewrite !lookup_insert_eq. now intros [= <-].
      * rewrite !lookup_insert_ne by done. auto.
  - unfold TypedKey_delete, Transaction_delete in Hrun. rewrite Hw in Hrun.
    injection Hrun as <-. unfold holds_write_set.
    cbn [write dirty cache ws_apply]. split; [|exact I].
    split; [reflexivity|]. split; [|split].
    + intros rel k0. rewrite set_add_lookup.
      destruct (dirty tx !! rel) eqn:E; [intros [= <-]; eauto|].
      destruct (decide (rel = relpath k)); congruence.
    + intros rel. rewrite set_add_lookup.
      destruct (decide (rel = relpath k)) as [->|Hne].
      * rewrite lookup_insert_eq. destruct (dirty tx !! relpath k); split; congruence.
      * rewrite lookup_insert_ne by done. rewrite <- Hdom.
        destruct (dirty tx !! rel); split; congruence.
    + intros rel v0. destruct (decide (rel = relpath k)) as [->|Hne].
      * rewrite lookup_insert_eq, lookup_delete_eq. now intros [= <-].
      * rewrite lookup_insert_ne, lookup_delete_ne by done. auto.
  - injection Hrun as <-. simpl. split; [|exact I]. repeat split; auto; apply Hdom.
Qed.

Lemma run_ops_holds ops tx tx' ws :
  run_ops tx ops = Ok tx' -> holds_write_set tx ws ->
  holds_write_set tx' (foldl ws_apply ws ops) /\ Forall op_typed ops.
Proof.
  revert tx ws. induction ops as [|o ops IH]; intros tx ws Hrun Hh.
  - injection Hrun as <-. split; [exact Hh | constructor].
  - simpl in Hrun. destruct (run_op tx o) as [tx1|e] eqn:Ho; [|discriminate].
    destruct (run_op_holds _ _ _ _ Ho Hh) as [Hh1 Hty].
    destruct (IH _ _ Hrun Hh1) as [Hh' Htys].
    split; [exact Hh' | now constructor].
Qed.

Lemma Transaction_init_write w tx w1 :
  Transaction_init None true w = (Ok tx, w1) ->
  holds_write_set tx ∅
  /\ at_serial tx = next_serial w - 1
  /\ next_serial w1 = next_serial w /\ db_index w1 = db_index w
  /\ changelog w1 = changelog w.
Proof.
  unfold Transaction_init, acquire_write_lock, get_current_serial. run_m. simpl.
  destruct (write_lock w); [discriminate|]. intros [= <- <-]. simpl.
  repeat split; intros; simpl in *; try rewrite lookup_empty in *; try done.
Qed.

(** The storage after the commit of a transaction that holds the write
    set [ws]. *)
Lemma commit_write_set tx ws w serial w' :
  holds_write_set tx ws -> has_changes tx ->
  Transaction_commit tx w = (Ok serial, w') ->
  serial = next_serial w
  /\ next_serial w' = next_serial w + 1
  /\ (forall rel,
        snd <$> (db_index w' !! rel)
        = match ws !! rel with
          | Some _ => Some (next_serial w)
          | None => snd <$> (db_index w !! rel)
          end)
  /\ exists e,
       changelog w' = <[next_serial w := e]> (changelog w)
       /\ forall rel,
            (fun c : change => (c.1.2, c.2)) <$> (e.1 !! rel)
            = (fun v => (back_serial_of w rel, v)) <$> (ws !! rel).
Proof.
  intros (Hw & Hwf & Hdom & Hval) Hch H.
  pose proof (Transaction_commit_next_serial _ _ _ _ Hw Hch H) as [-> Hnext].
  apply Transaction_commit_inv in H as (wc & wa & Hrun & Hexit & _ & ->);
    try assumption.
  split; [reflexivity|]. split; [exact Hnext|].
  destruct (record_dirty_frame tx (map_to_list (dirty tx))
              (emit (EvOpenWriter (next_serial w))
                 (set_fswriter (mkFSWriter (tx_conn tx) [] ∅) w)))
    as (wc' & Hrun' & Hst).
  rewrite Hrun in Hrun'. injection Hrun' as <-.
  destruct Hst as (Sn & Sl & _).
  apply record_dirty_spec in Hrun as [Hidx Hchs];
    [|apply NoDup_fst_map_to_list
     |intros rel k Hin; apply elem_of_map_to_list in Hin; eauto].
  rewrite list_to_map_to_list in Hidx, Hchs.
  apply FSWriter_exit_commit_ok in Hexit
    as (rels & pre & post & _ & Ei & El & _).
  simpl in *. split.
  - intros rel. rewrite Ei, Hidx.
    destruct (dirty tx !! rel) as [k|] eqn:Hd.
    + destruct (ws !! rel) eqn:Hws; [reflexivity|].
      apply Hdom in Hws. congruence.
    + apply Hdom in Hd. now rewrite Hd.
  - exists (changes (fswriter wc), rels). split; [rewrite El, Sn, Sl; reflexivity|].
    intros rel. simpl. rewrite Hchs, lookup_empty.
    destruct (dirty tx !! rel) as [k|] eqn:Hd.
    + destruct (ws !! rel) as [v|] eqn:Hws; [|apply Hdom in Hws; congruence].
      simpl. now rewrite (Hval _ _ Hws).
    + apply Hdom in Hd. now rewrite Hd.
Qed.

(** ** Deletion *)

Lemma get_value_at_deleted typedkey w n s fuel :
  snd <$> (db_index w !! relpath typedkey) = Some n ->
  (exists e, changelog w !! n = Some e
             /\ snd <$> (e.1 !! relpath typedkey) = Some PyNone) ->
  n <= s -> (0 < fuel)%nat ->
  get_value_at fuel typedkey s w = (Raise (KeyError (relpath typedkey)), w).
Proof.
  intros Hidx (e & Hlog & Hch) Hs Hfuel.
  unfold get_value_at, db_read_typedkey. run_m.
  destruct (db_index w !! relpath typedkey) as [[nm n']|]; [|discriminate].
  injection Hidx as ->. simpl.
  destruct fuel as [|fuel]; [lia|]. simpl.
  destruct (0 <=? n)%Z; [|reflexivity].
  unfold get_changes. run_m. rewrite Hlog.
  destruct (e.1 !! relpath typedkey) as [[[nm' back] val]|]; [|discriminate].
  injection Hch as ->. 
  destruct (s <? n)%Z eqn:E; [apply Z.ltb_lt in E; lia|]. reflexivity.
Qed.

(** C4.  In a write transaction, [set(k, v)] with [v] of the type of [k],
    then [delete(k)], then [commit]: the commit serial is the [next_serial]
    of before, [get_value_at k s] raises [KeyError] for every serial [s] at
    or after it, and [k.exists()] is false in every transaction begun on
    the committed state, at the current serial or at a serial at or after
    the commit serial. *)
Theorem delete_semantics (k : TypedKey) (v : pyval) (before : list op)
    (w w1 w2 : World) (tx tx' : Transaction) (serial : Z) :
  Transaction_init None true w = (Ok tx, w1) ->
  run_ops tx (before ++ [OpSet k v; OpDelete k]) = Ok tx' ->
  Transaction_commit tx' w1 = (Ok serial, w2) ->
  serial = next_serial w
  /\ (forall s fuel, serial <= s -> (0 < fuel)%nat ->
        get_value_at fuel k s w2 = (Raise (KeyError (relpath k)), w2))
  /\ (forall at_serial write later w3 fuel,
        Transaction_init at_serial write w2 = (Ok later, w3) ->
        match at_serial with Some s => serial <= s | None => True end ->
        (0 < fuel)%nat ->
        TypedKey_exists fuel k later w3 = (Ok false, w3)).
Proof.
  intros Hinit Hops Hcommit.
  apply Transaction_init_write in Hinit as (Hh & _ & Hn & Hi & Hl).
  apply run_ops_holds with (ws := ∅) in Hops as [Hh' _]; [|exact Hh].
  assert (Hws : foldl ws_apply ∅ (before ++ [OpSet k v; OpDelete k]) !! relpath k
                = Some PyNone).
  { rewrite foldl_app. simpl. apply lookup_insert_eq. }
  assert (Hch : has_changes tx').
  { left. intros E. destruct Hh' as (_ & _ & Hdom & _).
    assert (dirty tx' !! relpath k = None) as Hd by (rewrite E; apply lookup_empty).
    apply Hdom in Hd. congruence. }
  destruct (commit_write_set _ _ _ _ _ Hh' Hch Hcommit)
    as (-> & Hnext & Hidx & e & Hlog & He).
  assert (Hdel : forall w' s fuel,
            db_index w' = db_index w2 -> changelog w' = changelog w2 ->
            next_serial w <= s -> (0 < fuel)%nat ->
            get_value_at fuel k s w' = (Raise (KeyError (relpath k)), w')).
  { intros w' s fuel Ei El Hs Hfuel. rewrite <- Hn in Hs.
    apply get_value_at_deleted with (n := next_serial w1); try assumption.
    - rewrite Ei, Hidx, Hws. reflexivity.
    - exists e. rewrite El, Hlog, lookup_insert_eq. split; [reflexivity|].
      specialize (He (relpath k)). rewrite Hws in He.
      destruct (e.1 !! relpath k) as [[[nm b] val]|]; [|discriminate].
      simpl in *. congruence. }
  split; [exact Hn|]. split.
  - intros s fuel Hs Hfuel. rewrite Hn in Hs. now apply Hdel.
  - intros at_s wr later w3 fuel Hlater Hat Hfuel. rewrite Hn in Hat.
    unfold Transaction_init in Hlater.
    assert (Hl3 : cache later = ∅ /\ dirty later = ∅
                  /\ at_serial later = default (next_serial w2 - 1) at_s
                  /\ db_index w3 = db_index w2 /\ changelog w3 = changelog w2).
    { destruct wr.
      - apply bind_inv in Hlater as [([] & wl & H1 & H2)|(e0 & _ & [=])].
        apply bind_inv in H1 as [([] & wl' & H1 & H3)|(e0 & H1 & [=])].
        apply assert_steps in H1 as ->.
        unfold acquire_write_lock in H3.
        destruct (write_lock w2); [discriminate|]. injection H3 as <-.
        unfold get_current_serial in H2. run_m. 
        injection H2 as <- <-. repeat split.
      - injection Hlater as <- <-. repeat split. }
    destruct Hl3 as (Hc & Hd & Ha & Ei & El).
    unfold TypedKey_exists, Transaction_exists. rewrite Hc, Hd, !lookup_empty.
    rewrite !bool_decide_false by (intros [? ?]; discriminate).
    unfold try_except, bind.
    rewrite Hdel; [reflexivity|exact Ei|exact El| |exact Hfuel].
    rewrite Ha. destruct at_s as [s|]; simpl; lia.
Qed.

(** ** Time travel *)

Lemma last_write_app h t rel j :
  (j <= length h)%nat -> last_write (h ++ t) rel j = last_write h rel j.
Proof.
  induction j as [|j IH]; intros Hj; [reflexivity|]. simpl.
  rewrite lookup_app_l by lia. rewrite IH by lia. reflexivity.
Qed.

Lemma last_write_Some h rel j i v :
  last_write h rel j = Some (i, v) ->
  (i < j)%nat /\ exists ops, h !! i = Some ops /\ write_set ops !! rel = Some v.
Proof.
  induction j as [|j IH]; simpl; [discriminate|].
  destruct (h !! j) as [ops|] eqn:Hj.
  - destruct (write_set ops !! rel) as [v'|] eqn:Hv.
    + intros [= <- <-]. split; [lia|]. eauto.
    + intros H. apply IH in H as [? ?]. split; [lia | assumption].
  - intros H. apply IH in H as [? ?]. split; [lia | assumption].
Qed.

Lemma last_write_stable h rel j j' i v :
  last_write h rel j = Some (i, v) -> (i < j')%nat -> (j' <= j)%nat ->
  last_write h rel j' = Some (i, v).
Proof.
  induction j as [|j IH]; simpl; [discriminate|]. intros H Hi Hj.
  destruct (decide (j' = S j)) as [->|Hne]; [exact H|].
  destruct (h !! j) as [ops|] eqn:Hhj.
  - destruct (write_set ops !! rel) as [v'|] eqn:Hv.
    + injection H as <- <-. lia.
    + apply IH; [assumption | lia | lia].
  - apply IH; [assumption | lia | lia].
Qed.

Lemma last_write_None h rel j j' :
  last_write h rel j = None -> (j' <= j)%nat -> last_write h rel j' = None.
Proof.
  induction j as [|j IH]; simpl; intros H Hj.
  - now replace j' with O by lia.
  - destruct (decide (j' = S j)) as [->|Hne]; [exact H|].
    destruct (h !! j) as [ops|].
    + destruct (write_set ops !! rel); [discriminate|]. apply IH; [assumption|lia].
    + apply IH; [assumption|lia].
Qed.

Lemma last_write_beyond h rel j :
  (length h <= j)%nat -> last_write h rel j = last_write h rel (length h).
Proof.
  induction j as [|j IH]; intros Hj.
  - now replace (length h) with O by lia.
  - destruct (decide (length h = S j)) as [->|Hne]; [reflexivity|].
    simpl. rewrite lookup_ge_None_2 by lia. apply IH. lia.
Qed.

Lemma last_write_min h rel j :
  last_write h rel j = last_write h rel (min j (length h)).
Proof.
  destruct (le_lt_dec j (length h)).
  - now rewrite Nat.min_l by lia.
  - rewrite Nat.min_r by lia. apply last_write_beyond. lia.
Qed.

Lemma committed_storage_inv h w : committed h w -> storage_inv h w.
Proof.
  induction 1 as [w Hn Hi Hl
                 | h w ops tx tx' serial w1 w2 _ IH Hinit Hops Hch Hcommit
                 | h w w' _ IH En Ei El].
  - split; [simpl; lia|]. split; [|split].
    + intros rel. rewrite Hi, lookup_empty. reflexivity.
    + intros i ops Hi'. rewrite lookup_nil in Hi'. discriminate.
    + constructor.
  - destruct IH as (In & Ii & Il & It).
    apply Transaction_init_write in Hinit as (Hh & _ & Hn1 & Hi1 & Hl1).
    apply run_ops_holds with (ws := ∅) in Hops as [Hh' Hty]; [|exact Hh].
    destruct (commit_write_set _ _ _ _ _ Hh' Hch Hcommit)
      as (_ & Hnext & Hidx & e & Hlog & He).
    fold (write_set ops) in *.
    assert (Hlen : length (h ++ [ops]) = S (length h))
      by (rewrite length_app; simpl; lia).
    split; [rewrite Hnext, Hn1, In, Hlen; lia|]. split; [|split].
    + intros rel. rewrite Hidx, Hlen. simpl.
      rewrite lookup_app_r, Nat.sub_diag by lia. simpl.
      destruct (write_set ops !! rel) as [v|].
      * simpl. now rewrite Hn1, In.
      * rewrite Hi1, Ii, last_write_app by lia. reflexivity.
    + intros i ops' Hi'. destruct (decide (i = length h)) as [->|Hne].
      * rewrite lookup_app_r, Nat.sub_diag in Hi' by lia. injection Hi' as <-.
        exists e. split; [rewrite Hlog, Hn1, In; apply lookup_insert_eq|].
        intros rel. rewrite He, last_write_app by lia.
        unfold back_serial_of. rewrite Hi1.
        specialize (Ii rel). destruct (write_set ops !! rel); [|reflexivity].
        simpl. do 2 f_equal.
        destruct (db_index w !! rel) as [[nm n]|],
                 (last_write h rel (length h)) as [[i v']|];
          simpl in *; congruence.
      * assert (Hlt : (i < length h)%nat).
        { apply lookup_lt_Some in Hi'. rewrite Hlen in Hi'. lia. }
        rewrite lookup_app_l in Hi' by lia.
        destruct (Il _ _ Hi') as (e' & Hl' & He').
        exists e'. split.
        -- rewrite Hlog, lookup_insert_ne, Hl1 by (rewrite Hn1, In; lia). exact Hl'.
        -- intros rel. rewrite He', last_write_app by lia. reflexivity.
    + apply Forall_app. split; [exact It | repeat constructor; exact Hty].
  - destruct IH as (In & Ii & Il & It). unfold storage_inv.
    rewrite En, Ei, El. auto.
Qed.

Lemma overlay_step ws st0 st o rel :
  op_typed o -> overlay ws st0 rel = st !! rel ->
  overlay (ws_apply ws o) st0 rel = kv_apply st o !! rel.
Proof.
  intros Hty H. unfold overlay in *.
  destruct o as [k v|k|path content]; simpl in *; [| |exact H].
  - destruct (decide (rel = relpath k)) as [->|Hne].
    + rewrite !lookup_insert_eq. now rewrite Hty.
    + now rewrite !lookup_insert_ne by done.
  - destruct (decide (rel = relpath k)) as [->|Hne].
    + now rewrite lookup_insert_eq, lookup_delete_eq.
    + now rewrite lookup_insert_ne, lookup_delete_ne by done.
Qed.

Lemma overlay_ops ops ws st0 st rel :
  Forall op_typed ops -> overlay ws st0 rel = st !! rel ->
  overlay (foldl ws_apply ws ops) st0 rel = foldl kv_apply st ops !! rel.
Proof.
  revert ws st. induction ops as [|o ops IH]; intros ws st Hty H; [exact H|].
  apply Forall_cons in Hty as [Ho Hty]. simpl.
  apply IH; [exact Hty|]. now apply overlay_step.
Qed.

Lemma state_lookup h rel j :
  Forall (Forall op_typed) h ->
  foldl (foldl kv_apply) ∅ (take j h) !! rel = value_of (last_write h rel j).
Proof.
  intros Hty. induction j as [|j IH]; [simpl; apply lookup_empty|].
  simpl. destruct (h !! j) as [ops|] eqn:Hj.
  - rewrite (take_S_r _ _ _ Hj), foldl_app. simpl.
    rewrite <- (overlay_ops ops ∅ (foldl (foldl kv_apply) ∅ (take j h)));
      [| eapply Forall_lookup_1; eassumption | reflexivity].
    unfold overlay, write_set. destruct (foldl ws_apply ∅ ops !! rel); [reflexivity|].
    exact IH.
  - apply lookup_ge_None_1 in Hj.
    rewrite take_ge in * by lia. exact IH.
Qed.

(** The walk along the back serials, started at the last write before
    [j], ends at the last write at or before [s]. *)
Section Walk.

Variable h : list (list op).
Variable w : World.
Hypothesis inv : storage_inv h w.

Lemma get_value_at_loop_walk rel s :
  forall j fuel, (j < fuel)%nat ->
    get_value_at_loop fuel rel s (serial_of (last_write h rel j)) w
    = (answer rel (value_of (last_write h rel (min j (Z.to_nat (s + 1))))), w).
Proof.
  destruct inv as (_ & _ & Hlog & _).
  induction j as [j IH] using lt_wf_ind. intros fuel Hfuel.
  destruct (last_write h rel j) as [[i v]|] eqn:Hlw.
  - apply last_write_Some in Hlw as Hi. destruct Hi as (Hi & ops & Hops & Hv).
    destruct fuel as [|fuel]; [lia|]. simpl.
    destruct (0 <=? Z.of_nat i)%Z eqn:E0; [|apply Z.leb_gt in E0; lia].
    destruct (Hlog _ _ Hops) as (e & He & Hch).
    unfold get_changes. run_m. rewrite He.
    specialize (Hch rel). rewrite Hv in Hch.
    destruct (e.1 !! rel) as [[[nm back] val]|]; [|discriminate].
    simpl in Hch. injection Hch as -> ->.
    destruct (s <? Z.of_nat i)%Z eqn:Es.
    + apply Z.ltb_lt in Es. rewrite IH by lia.
      do 3 f_equal. f_equal. lia.
    + apply Z.ltb_ge in Es.
      rewrite (last_write_stable _ _ _ (min j (Z.to_nat (s + 1))) _ _ Hlw) by lia.
      simpl. destruct (is_none v); reflexivity.
  - rewrite (last_write_None _ _ _ (min j (Z.to_nat (s + 1))) Hlw) by lia.
    simpl. destruct fuel; reflexivity.
Qed.

End Walk.

(** C1.  For every committed history [h] and every serial [s >= 0],
    [get_value_at k s] returns the value [k] holds in the state immediately
    after serial [s], and raises [KeyError] when [k] holds none there (never
    set by [s], or deleted).  The second part is the step of the walk: at a
    serial greater than [s] the lookup goes on at the back serial of the
    entry, at a serial at most [s] it answers with the value of the entry. *)
Theorem time_travel (h : list (list op)) (w : World) (k : TypedKey) (s : Z)
    (fuel : nat) :
  committed h w -> 0 <= s -> (Z.to_nat (next_serial w) < fuel)%nat ->
  get_value_at fuel k s w
  = (match state_after h s !! relpath k with
     | Some v => Ok v
     | None => Raise (KeyError (relpath k))
     end, w)
  /\ (forall last_serial keyname back_serial val e f,
        0 <= last_serial -> changelog w !! last_serial = Some e ->
        e.1 !! relpath k = Some (keyname, back_serial, val) ->
        get_value_at_loop (S f) (relpath k) s last_serial w
        = if (s <? last_serial)%Z
          then get_value_at_loop f (relpath k) s back_serial w
          else if is_none val then (Raise (KeyError (relpath k)), w)
               else (Ok val, w)).
Proof.
  intros Hc Hs Hfuel. split.
  - apply committed_storage_inv in Hc as Hinv.
    destruct Hinv as (Hn & Hidx & Hlog & Hty).
    change (get_value_at fuel k s w
            = (answer (relpath k) (state_after h s !! relpath k), w)).
    unfold state_after. rewrite state_lookup by exact Hty.
    rewrite (last_write_min h _ (Z.to_nat (s + 1))).
    rewrite Nat.min_comm.
    rewrite <- (get_value_at_loop_walk h w (committed_storage_inv _ _ Hc)
                  (relpath k) s (length h) fuel) by lia.
    unfold get_value_at, db_read_typedkey. run_m.
    specialize (Hidx (relpath k)).
    destruct (db_index w !! relpath k) as [[nm n]|].
    + destruct (last_write h (relpath k) (length h)) as [[i v]|];
        simpl in Hidx; [|discriminate].
      injection Hidx as ->. reflexivity.
    + destruct (last_write h (relpath k) (length h)) as [[i v]|];
        simpl in Hidx; [discriminate|].
      simpl. destruct fuel; reflexivity.
  - intros last_serial keyname back_serial val e f Hl He Hch. simpl.
    destruct (0 <=? last_serial)%Z eqn:E; [|apply Z.leb_gt in E; lia].
    unfold get_changes. run_m. rewrite He, Hch.
    destruct (s <? last_serial)%Z; [reflexivity|].
    destruct (is_none val); reflexivity.
Qed.

(** ** Parametrized keys *)

#[local] Arguments String.append : simpl nomatch.

Lemma string_app_assoc (a b c : string) : (a +:+ b) +:+ c = a +:+ (b +:+ c).
Proof. induction a as [|x a IH]; simpl; [reflexivity | now f_equal]. Qed.

Lemma string_app_nil_r (a : string) : a +:+ "" = a.
Proof. induction a as [|x a IH]; simpl; [reflexivity | now f_equal]. Qed.

Lemma ident_char_facts c :
  is_ident_char c = true ->
  chr_eqb c "+" = false /\ chr_eqb c "}" = false /\ chr_eqb c "010" = false
  /\ chr_eqb c ">" = false /\ format_field_name_ok c = true.
Proof.
  destruct c as [[] [] [] [] [] [] [] []]; vm_compute; intros H;
    first [discriminate H | repeat split].
Qed.

Lemma ident_start_facts c :
  is_ident_start c = true ->
  is_ident_char c = true /\ is_digit c = false /\ chr_eqb c "{" = false.
Proof.
  destruct c as [[] [] [] [] [] [] [] []]; vm_compute; intros H;
    first [discriminate H | repeat split].
Qed.

Lemma identifier_chars n :
  is_identifier n = true -> str_forallb is_ident_char n = true /\ n ≠ "".
Proof.
  destruct n as [|c n]; simpl; [discriminate|].
  intros H. apply andb_prop in H as [Hc Hn]. split; [|discriminate].
  apply ident_start_facts in Hc as [-> _]. exact Hn.
Qed.

Lemma replace_plus_ident n rest :
  str_forallb is_ident_char n = true ->
  replace_plus (n +:+ rest) = n +:+ replace_plus rest.
Proof.
  induction n as [|c n IH]; simpl; [reflexivity|].
  intros H. apply andb_prop in H as [Hc Hn].
  apply ident_char_facts in Hc as (-> & _). now rewrite IH.
Qed.

Lemma replace_plus_render ts :
  Forall token_ok ts -> replace_plus (render ts) = render_escaped ts.
Proof.
  induction 1 as [|[c|n] ts Hok _ IH]; simpl; [reflexivity| |].
  - rewrite IH. reflexivity.
  - apply identifier_chars in Hok as [Hn _].
    rewrite replace_plus_ident by exact Hn. simpl. now rewrite IH.
Qed.

Lemma braces_sub_field n acc rest :
  str_forallb is_ident_char n = true -> acc +:+ n ≠ "" ->
  rex_braces_sub_from (Some acc) (n +:+ String "}" rest)
  = repl (acc +:+ n) +:+ rex_braces_sub_from None rest.
Proof.
  revert acc. induction n as [|c n IH]; intros acc Hn Hne; simpl.
  - rewrite string_app_nil_r in *.
    destruct (String.eqb_spec acc ""); [contradiction|]. reflexivity.
  - simpl in Hn. apply andb_prop in Hn as [Hc Hn].
    apply ident_char_facts in Hc as (_ & -> & -> & _). simpl.
    rewrite IH; [|exact Hn|].
    + now rewrite string_app_assoc.
    + intros E. apply (f_equal String.length) in E.
      rewrite !append_length in E. simpl in E. lia.
Qed.

Lemma plain_char_facts c :
  plain_char c = true ->
  chr_eqb c "{" = false /\ chr_eqb c "}" = false /\ chr_eqb c "\" = false
  /\ chr_eqb c "(" = false /\ chr_eqb c "^" = false /\ chr_eqb c "$" = false
  /\ (chr_eqb c "+" = false -> rx_special c = false).
Proof.
  destruct c as [[] [] [] [] [] [] [] []]; vm_compute; intros H;
    first [discriminate H | repeat split; congruence].
Qed.

Lemma braces_sub_render ts :
  Forall token_ok ts -> rex_braces_sub (render_escaped ts) = render_rex ts.
Proof.
  unfold rex_braces_sub.
  induction 1 as [|[c|n] ts Hok _ IH]; simpl; [reflexivity| |].
  - apply plain_char_facts in Hok as (Hc & _).
    destruct (chr_eqb c "+") eqn:Hplus; simpl.
    + now rewrite IH.
    + now rewrite Hc, IH.
  - apply identifier_chars in Hok as [Hn Hne].
    rewrite braces_sub_field; [|exact Hn|exact Hne]. simpl. now rewrite IH.
Qed.

Lemma re_parse_name n acc rest :
  str_forallb is_ident_char n = true ->
  re_parse (PName acc) (n +:+ String ">" rest)
  = re_parse (PClass (acc +:+ n) "[^\/]+)") rest.
Proof.
  revert acc. induction n as [|c n IH]; intros acc Hn; simpl.
  - now rewrite string_app_nil_r.
  - simpl in Hn. apply andb_prop in Hn as [Hc Hn].
    apply ident_char_facts in Hc as (_ & _ & _ & -> & _).
    rewrite IH by exact Hn. now rewrite string_app_assoc.
Qed.

Lemma re_parse_render ts tail :
  Forall token_ok ts ->
  re_parse PTop (render_rex ts +:+ tail)
  = (fun rx => map token_item ts ++ rx) <$> re_parse PTop tail.
Proof.
  induction 1 as [|[c|n] ts Hok _ IH]; simpl.
  - now destruct (re_parse PTop tail).
  - apply plain_char_facts in Hok as (_ & _ & Hb & Hp & Hc & Hd & Hs).
    destruct (chr_eqb c "+") eqn:Hplus; simpl.
    + rewrite IH. apply Ascii.eqb_eq in Hplus as ->. simpl.
      now destruct (re_parse PTop tail).
    + rewrite Hb, Hp, Hc, Hd, (Hs eq_refl), IH.
      destruct (chr_eqb c "."); now destruct (re_parse PTop tail).
  - apply identifier_chars in Hok as [Hn _].
    unfold repl. rewrite !string_app_assoc. simpl.
    rewrite re_parse_name by exact Hn. simpl. rewrite IH.
    now destruct (re_parse PTop tail).
Qed.

Lemma group_names_items ts : group_names (map token_item ts) = fields ts.
Proof.
  unfold group_names, fields. induction ts as [|[c|n] ts IH]; simpl.
  - reflexivity.
  - destruct (chr_eqb c "."); exact IH.
  - f_equal. exact IH.
Qed.

Lemma group_names_anchored rx : group_names (rx ++ [RxEol]) = group_names rx.
Proof. unfold group_names. rewrite omap_app. simpl. apply app_nil_r. Qed.

Lemma fields_identifiers ts :
  Forall token_ok ts -> forallb is_identifier (fields ts) = true.
Proof.
  unfold fields. induction 1 as [|[c|n] ts Hok _ IH]; simpl; auto.
  now rewrite Hok.
Qed.

Lemma PTypedKey_init_pattern ts ty nm :
  pattern_ok ts ->
  PTypedKey_init (render ts) ty nm
  = Ok (mkPTypedKey (render ts) ty nm
          (RxBol :: map token_item ts ++ [RxEol])).
Proof.
  intros (Hok & Hnd & _). unfold PTypedKey_init, re_compile.
  rewrite replace_plus_render, braces_sub_render by exact Hok.
  simpl. rewrite re_parse_render by exact Hok. simpl.
  rewrite group_names_anchored, group_names_items.
  rewrite fields_identifiers by exact Hok.
  rewrite bool_decide_true by exact Hnd. reflexivity.
Qed.

Lemma py_format_open kw c r :
  chr_eqb c "{" = false ->
  py_format_from kw None (String "{" (String c r))
  = py_format_from kw (Some EmptyString) (String c r).
Proof.
  destruct c as [[] [] [] [] [] [] [] []]; intros H;
    first [discriminate H | reflexivity].
Qed.

Lemma py_format_name kw n acc rest :
  str_forallb is_ident_char n = true ->
  py_format_from kw (Some acc) (n +:+ String "}" rest)
  = py_format_from kw (Some (acc +:+ n)) (String "}" rest).
Proof.
  revert acc. induction n as [|c n IH]; intros acc Hn.
  - now rewrite string_app_nil_r.
  - simpl in Hn. apply andb_prop in Hn as [Hc Hn].
    apply ident_char_facts in Hc as (_ & Hclose & _ & _ & Hok).
    change (String c n +:+ String "}" rest) with (String c (n +:+ String "}" rest)).
    cbn [py_format_from]. rewrite Hclose, Hok, IH by exact Hn.
    now rewrite string_app_assoc.
Qed.

Lemma py_format_render kw ts :
  Forall token_ok ts ->
  (forall n, n ∈ fields ts -> is_Some (kw !! n)) ->
  py_format (render ts) kw = Ok (substitute kw ts).
Proof.
  unfold py_format. induction 1 as [|[c|n] ts Hok _ IH]; intros Hkw.
  - reflexivity.
  - simpl. apply plain_char_facts in Hok as (-> & -> & _).
    rewrite IH; [reflexivity|]. exact Hkw.
  - pose proof Hok as Hid. apply identifier_chars in Hid as [Hn Hne].
    destruct n as [|c n]; [contradiction|].
    cbn [render]. change (String c n +:+ ?r) with (String c (n +:+ r)).
    simpl in Hok. apply andb_prop in Hok as [Hc _].
    apply ident_start_facts in Hc as (_ & Hdigit & Hopen).
    rewrite py_format_open by exact Hopen.
    change (String c (n +:+ ?r)) with (String c n +:+ r).
    rewrite py_format_name by exact Hn.
    cbn [py_format_from append]. cbn [chr_eqb Ascii.eqb Bool.eqb andb].
    cbn [String.eqb str_forallb]. rewrite Hdigit. cbn [andb orb].
    destruct (Hkw (String c n)) as [v Hv]; [unfold fields; simpl; left|].
    rewrite Hv. rewrite IH.
    + cbn [substitute]. rewrite Hv. reflexivity.
    + intros n' Hn'. apply Hkw. unfold fields. simpl. now right.
Qed.

Lemma greedy_takes {R} (k : string -> string -> option R) v taken s' res :
  no_slash v = true ->
  (s' = EmptyString \/ exists r, s' = String "/" r) ->
  taken +:+ v ≠ "" ->
  k (taken +:+ v) s' = Some res ->
  greedy_not_slash k taken (v +:+ s') = Some res.
Proof.
  revert taken. induction v as [|c v IH]; intros taken Hv Hs Hne Hk.
  - rewrite string_app_nil_r in *. simpl.
    destruct Hs as [->|(r & ->)]; simpl;
      destruct (String.eqb_spec taken ""); try contradiction; exact Hk.
  - simpl in Hv. apply andb_prop in Hv as [Hc Hv].
    apply negb_true_iff in Hc. simpl. rewrite Hc.
    rewrite (IH (taken +:+ String c "")); [reflexivity|exact Hv|exact Hs| |].
    + intros E. apply (f_equal String.length) in E.
      rewrite !append_length in E. simpl in E. lia.
    + rewrite string_app_assoc. exact Hk.
Qed.

Lemma re_match_render m ts b :
  Forall token_ok ts -> fields_delimited ts ->
  (forall n, n ∈ fields ts ->
     exists v, m !! n = Some v /\ v ≠ "" /\ no_slash v = true) ->
  re_match_from (map token_item ts ++ [RxEol]) b (substitute m ts)
  = Some (groups m ts).
Proof.
  intros Hok. revert b. induction Hok as [|[c|n] ts Hok _ IH]; intros b Hdel Hm.
  - reflexivity.
  - simpl in Hdel. simpl.
    destruct (chr_eqb c ".") eqn:Hdot; simpl.
    + apply Ascii.eqb_eq in Hdot as ->. simpl. apply IH; assumption.
    + unfold chr_eqb. rewrite Ascii.eqb_refl. apply IH; assumption.
  - simpl in Hdel. destruct Hdel as [Hnext Hdel].
    destruct (Hm n) as (v & Hv & Hne & Hslash); [unfold fields; simpl; left|].
    simpl. rewrite Hv. simpl.
    apply greedy_takes; [exact Hslash| |simpl; exact Hne|].
    + destruct ts as [|[c|n'] ts]; [left; reflexivity| |contradiction].
      subst c. right. simpl. eauto.
    + simpl. rewrite IH; [reflexivity|exact Hdel|].
      intros n' Hn'. apply Hm. unfold fields. simpl. now right.
Qed.

Lemma groups_lookup m ts x :
  groups m ts !! x
  = if decide (x ∈ fields ts) then Some (default EmptyString (m !! x)) else None.
Proof.
  induction ts as [|[c|n] ts IH]; simpl.
  - rewrite lookup_empty.
    destruct (decide (x ∈ fields [])) as [H|]; [inversion H|reflexivity].
  - exact IH.
  - unfold fields. simpl. fold (fields ts).
    destruct (decide (x = n)) as [->|Hne].
    + rewrite lookup_insert_eq. rewrite decide_True by left. reflexivity.
    + rewrite lookup_insert_ne by done. rewrite IH.
      destruct (decide (x ∈ fields ts)) as [Hin|Hnin].
      * rewrite decide_True by now right. reflexivity.
      * rewrite decide_False; [reflexivity|].
        intros Hin. apply elem_of_cons in Hin as [?|?]; contradiction.
Qed.

Lemma find_no_slash (m : gmap string string) :
  (forall n v, m !! n = Some v -> contains_slash v = false) ->
  List.find (fun item : string * string => contains_slash item.2) (map_to_list m)
  = None.
Proof.
  intros Hm.
  assert (H : forall item, item ∈ map_to_list m -> contains_slash item.2 = false).
  { intros [n v] Hin. apply elem_of_map_to_list in Hin. eauto. }
  induction (map_to_list m) as [|item l IH]; [reflexivity|].
  simpl. rewrite (H item) by left. apply IH. intros. apply H. now right.
Qed.


(** ** Concrete runs *)

Lemma committed_world_set : committed [[OpSet key_alice val_alice]] world_set.
Proof.
  eapply (committed_commit [] world0);
    [ apply committed_nil; reflexivity
    | vm_compute; reflexivity
    | vm_compute; reflexivity
    | left; intros E; apply (f_equal (fun d => d !! "users/alice")) in E;
      vm_compute in E; discriminate E
    | vm_compute; reflexivity ].
Defined.

Lemma committed_world_deleted :
  committed [[OpSet key_alice val_alice]; [OpDelete key_alice]] world_deleted.
Proof.
  eapply (committed_commit [[OpSet key_alice val_alice]] world_set);
    [ exact committed_world_set
    | vm_compute; reflexivity
    | vm_compute; reflexivity
    | left; intros E; apply (f_equal (fun d => d !! "users/alice")) in E;
      vm_compute in E; discriminate E
    | vm_compute; reflexivity ].
Defined.

Lemma time_travel_witness :
  committed [[OpSet key_alice val_alice]; [OpDelete key_alice]] world_deleted
  /\ get_value_at 3 key_alice 0 world_deleted = (Ok val_alice, world_deleted)
  /\ get_value_at 3 key_alice 1 world_deleted
     = (Raise (KeyError "users/alice"), world_deleted).
Proof.
  split; [exact committed_world_deleted|]. split.
  - apply (time_travel _ world_deleted key_alice 0 3 committed_world_deleted);
      [lia | vm_compute; lia].
  - apply (time_travel _ world_deleted key_alice 1 3 committed_world_deleted);
      [lia | vm_compute; lia].
Defined.



Lemma has_changes_tx_alice_set : has_changes tx_alice_set.
Proof.
  left. intros E. apply (f_equal (fun d => d !! "users/alice")) in E.
  vm_compute in E. discriminate E.
Defined.

Lemma after_commits_world_set : after_commits 1 world0 world_set.
Proof.
  apply (after_commits_S 0 world0 (set_write_lock true world0) tx_alice_set 0
           world_set).
  - apply (after_commits_frame 0 world0 world0); [apply after_commits_0|reflexivity].
  - reflexivity.
  - exact has_changes_tx_alice_set.
  - vm_compute. reflexivity.
Defined.

Lemma serial_counts_commits_witness :
  after_commits 1 world0 world_set
  /\ next_serial world_set - 1 = (next_serial world0 - 1) + 1.
Proof.
  split; [exact after_commits_world_set|].
  exact (proj1 (serial_counts_commits 1 world0 world_set after_commits_world_set)).
Defined.

(** C3, counterexample: the commit of a write transaction with nothing
    dirty succeeds and leaves the serial where it was. *)
Lemma empty_write_commit_keeps_serial :
  write empty_write_tx = true
  /\ Transaction_commit empty_write_tx (set_write_lock true world0)
     = (Ok (-1), world0)
  /\ next_serial world0 - 1 ≠ (next_serial (set_write_lock true world0) - 1) + 1.
Proof. split; [reflexivity|]. split; [vm_compute; reflexivity | vm_compute; discriminate]. Qed.

Lemma delete_semantics_witness :
  Transaction_init None true world_set
  = (Ok (mkTransaction true 0 ∅ ∅ (mkConnection ∅) None),
     set_write_lock true world_set)
  /\ get_value_at 1 key_alice 1 world_set_deleted
     = (Raise (KeyError "users/alice"), world_set_deleted)
  /\ TypedKey_exists 1 key_alice
       (mkTransaction false 1 ∅ ∅ (mkConnection ∅) None) world_set_deleted
     = (Ok false, world_set_deleted).
Proof.
  assert (Hinit : Transaction_init None true world_set
                  = (Ok (mkTransaction true 0 ∅ ∅ (mkConnection ∅) None),
                     set_write_lock true world_set))
    by (vm_compute; reflexivity).
  assert (Hops : run_ops (mkTransaction true 0 ∅ ∅ (mkConnection ∅) None)
                   ([] ++ [OpSet key_alice val_alice; OpDelete key_alice])
                 = Ok (mkTransaction true 0 ∅ {[ "users/alice" := key_alice ]}
                         (mkConnection ∅) None))
    by (vm_compute; reflexivity).
  assert (Hcommit : Transaction_commit
                      (mkTransaction true 0 ∅ {[ "users/alice" := key_alice ]}
                         (mkConnection ∅) None)
                      (set_write_lock true world_set)
                    = (Ok 1, world_set_deleted))
    by (vm_compute; reflexivity).
  destruct (delete_semantics key_alice val_alice [] world_set _ world_set_deleted
              _ _ 1 Hinit Hops Hcommit) as (_ & Hget & Hexists).
  split; [exact Hinit|]. split.
  - apply Hget; lia.
  - apply (Hexists None false _ world_set_deleted 1%nat);
      [vm_compute; reflexivity | exact I | lia].
Defined.

Lemma exit_world_staged :
  FSWriter_exit None world_staged = (Ok tt, world_exit_ok).
Proof. vm_compute. reflexivity. Defined.

Lemma changelog_written_before_file_moves_witness :
  FSWriter_exit None world_staged = (Ok tt, world_exit_ok)
  /\ exists e pre post,
       trace world_exit_ok
       = trace world_staged ++ pre ++ EvChangelog (next_serial world_staged) e :: post
       /\ changelog world_exit_ok !! next_serial world_staged = Some e
       /\ Forall is_staging_write pre
       /\ Forall (fun ev => is_file_move ev = false) pre
       /\ Forall (fun ev => is_changelog_write ev = false) pre
       /\ Forall (fun ev => is_changelog_write ev = false) post.
Proof.
  split; [exact exit_world_staged|].
  exact (changelog_written_before_file_moves _ _ exit_world_staged).
Defined.

Lemma rollback_world_staged :
  FSWriter_exit (Some TypeError) world_staged = (Ok tt, world_exit_err).
Proof. vm_compute. reflexivity. Defined.

Lemma rollback_leaves_committed_state_witness :
  FSWriter_exit (Some TypeError) world_staged = (Ok tt, world_exit_err)
  /\ next_serial world_exit_err = next_serial world_staged
  /\ changelog world_exit_err = changelog world_staged
  /\ trace world_exit_err
     = [EvWrite "/srv/pkgs/a.tar-tmp" "DATA"; EvRemove "/srv/pkgs/a.tar-tmp"]
  /\ files world_exit_err !! "/srv/pkgs/a.tar-tmp" = None.
Proof.
  destruct (rollback_leaves_committed_state TypeError world_staged (Ok tt)
              world_exit_err rollback_world_staged)
    as ((Hn & Hl & _) & _ & Hok & _).
  destruct (Hok eq_refl) as (Ht & Hf & _).
  split; [exact rollback_world_staged|]. split; [exact Hn|]. split; [exact Hl|].
  split; [exact Ht|]. apply Hf. vm_compute. left.
Defined.

Lemma empty_commit_is_noop_witness :
  write empty_write_tx = true /\ dirty empty_write_tx = ∅
  /\ dirty_files (tx_conn empty_write_tx) = ∅
  /\ Transaction_commit empty_write_tx (set_write_lock true world0)
     = (Ok (-1), world0).
Proof.
  destruct (empty_commit_is_noop empty_write_tx (set_write_lock true world0)
              eq_refl eq_refl eq_refl) as (w' & Hcommit & -> & _).
  split; [reflexivity|]. split; [reflexivity|]. split; [reflexivity|].
  exact Hcommit.
Defined.

Lemma event_serial_roundtrip_witness :
  (exists w', write_event_serial notifier 1 world0 = (Ok tt, w')
              /\ files w' !! "/srv/.event_serial" = Some "2"
              /\ read_event_serial notifier w' = (Ok 1, w'))
  /\ read_event_serial notifier world0 = (Ok (-1), world0).
Proof.
  destruct (event_serial_roundtrip notifier world0) as [Hwrite Hmissing].
  split; [apply (Hwrite 1); lia | apply Hmissing; reflexivity].
Defined.

Lemma plan_world_crashed : rename_plan_ok "/srv" ["f-tmp"; "old"].
Proof.
  unfold rename_plan_ok. repeat constructor.
  - intros _ Hin. vm_compute in Hin.
    repeat (apply elem_of_cons in Hin as [Hin|Hin]; [discriminate Hin|]).
    inversion Hin.
  - intros H. vm_compute in H. discriminate H.
Defined.

Lemma recovery_world_crashed :
  check_pending_renames "/srv" ["f-tmp"; "old"] world_crashed
  = (Ok tt, world_recovered).
Proof. vm_compute. reflexivity. Defined.

(** C9.  The code does not keep the property on the plan that
    [make_rel_renames] writes for a commit of the two files [a] and
    [a-tmp].  The first replay succeeds and leaves both files.  The second
    replay takes the committed file [a-tmp] for a pending temp file:
    it renames it over [a], whose content is lost, and then fails the
    assertion of [check_pending_renames] on the entry [a-tmp-tmp]. *)
Lemma recovery_twice_differs :
  make_rel_renames "/srv"
    [(Some "/srv/a-tmp", "/srv/a"); (Some "/srv/a-tmp-tmp", "/srv/a-tmp")] world0
  = (Ok ["a-tmp"; "a-tmp-tmp"], world0)
  /\ check_pending_renames "/srv" ["a-tmp"; "a-tmp-tmp"] world_crashed_tmp
     = (Ok tt, world_replayed_once)
  /\ check_pending_renames "/srv" ["a-tmp"; "a-tmp-tmp"] world_replayed_once
     = (Raise AssertionError, world_replayed_twice)
  /\ files world_replayed_once = {[ "/srv/a" := "y"; "/srv/a-tmp" := "x" ]}
  /\ files world_replayed_twice = {[ "/srv/a" := "x" ]}
  /\ files world_replayed_twice ≠ files world_replayed_once.
Proof.
  split; [vm_compute; reflexivity|].
  split; [vm_compute; reflexivity|]. split; [vm_compute; reflexivity|].
  split; [vm_compute; reflexivity|]. split; [vm_compute; reflexivity|].
  intros E. apply (f_equal (fun f => f !! "/srv/a-tmp")) in E.
  vm_compute in E. discriminate E.
Qed.

Lemma set_type_error_before_readonly_witness :
  write read_tx = false
  /\ isinstance (PyInt 1) (type key_alice) = false
  /\ TypedKey_set key_alice (PyInt 1) read_tx = Raise TypeError
  /\ TypedKey_set key_alice val_alice read_tx = Raise ReadOnly.
Proof.
  destruct (set_type_error_before_readonly key_alice (PyInt 1) read_tx eq_refl)
    as [Htype _].
  destruct (set_type_error_before_readonly key_alice val_alice read_tx eq_refl)
    as [_ Hread].
  split; [reflexivity|]. split; [reflexivity|].
  split; [apply Htype; reflexivity | apply Hread; reflexivity].
Defined.


(** ** Integers in files *)

Lemma write_int_to_file_spec (val : Z) (path : string) (w : World) :
  exists w',
    write_int_to_file val path w = (Ok tt, w')
    /\ files w' !! path = Some (py_str_of_int val)
    /\ files w' !! (path +:+ "-tmp") = None
    /\ (forall p, p ≠ path -> p ≠ path +:+ "-tmp" -> files w' !! p = files w !! p)
    /\ same_storage w w'.
Proof.
  unfold write_int_to_file, bind.
  rewrite get_write_file_ensure_dir_spec.
  edestruct (rename_spec (path +:+ "-tmp") path) as (evs & -> & _);
    [ | apply append_tmp_neq | ].
  - cbn [files fs_update]. apply lookup_insert_eq.
  - eexists. split; [reflexivity|]. cbn [files fs_update].
    split; [|split; [|split]].
    + apply lookup_insert_eq.
    + rewrite lookup_insert_ne by apply not_eq_sym, append_tmp_neq.
      apply lookup_delete_eq.
    + intros p Hp Htmp.
      rewrite lookup_insert_ne, lookup_delete_ne, lookup_insert_ne by done.
      reflexivity.
    + repeat split.
Qed.

(** X1.  When [write_int_to_file] has returned, [read_int_from_file] reads
    the integer back from the same path, whatever the default; the temp
    file is gone, no other file has changed and the storage is
    untouched. *)
Theorem int_file_round_trip (val default : Z) (path : string) (w w' : World) :
  write_int_to_file val path w = (Ok tt, w') ->
  read_int_from_file path default w' = (Ok val, w')
  /\ files w' !! (path +:+ "-tmp") = None
  /\ (forall p, p ≠ path -> p ≠ path +:+ "-tmp" -> files w' !! p = files w !! p)
  /\ same_storage w w'.
Proof.
  intros Hrun.
  destruct (write_int_to_file_spec val path w) as (w2 & Hw & Hf & Htmp & Hother & Hs).
  rewrite Hw in Hrun. injection Hrun as <-.
  split; [now apply read_int_from_file_present | auto].
Qed.

Lemma rstrip_blank (data : string) :
  str_forallb is_space data = true -> rstrip data = "".
Proof.
  induction data as [|c r IH]; simpl; [reflexivity|].
  intros H. apply andb_prop in H as [Hc Hr]. now rewrite (IH Hr), Hc.
Qed.

(** X2.  [read_int_from_file] on a file that holds nothing but whitespace raises
    [ValueError]; the default is for a missing file only. *)
Theorem read_int_from_file_blank (path data : string) (default : Z) (w : World) :
  files w !! path = Some data -> str_forallb is_space data = true ->
  read_int_from_file path default w = (Raise (ValueError data), w).
Proof.
  intros Hf Hblank.
  unfold read_int_from_file, try_except, bind, read_file. rewrite Hf.
  unfold py_int_of_bytes. rewrite (rstrip_blank _ Hblank). reflexivity.
Qed.

(** ** rename *)


Lemma rename_missing (source dest : string) (w : World) :
  files w !! source = None ->
  exists w',
    rename source dest w = (Raise OSError, w')
    /\ files w' = (if win32 w then delete dest (files w) else files w)
    /\ same_storage w w'.
Proof.
  intros Hsrc. unfold rename, try_except, os_rename at 1. rewrite Hsrc.
  cbn [is_OSError]. unfold os_path_exists_dir, os_makedirs, os_path_exists.
  run_m. cbn [negb]. run_m.
  destruct (win32 w) eqn:Hwin; cbn [andb].
  - destruct (files w !! dest) as [old|] eqn:Hdest.
    + rewrite bool_decide_true by eauto.
      rewrite (os_remove_present _ _ _ Hdest).
      unfold os_rename. cbn [files fs_update].
      destruct (decide (source = dest)) as [->|Hne]; [congruence|].
      rewrite lookup_delete_ne, Hsrc by done.
      eexists. split; [reflexivity|]. split; [reflexivity | repeat split].
    + rewrite bool_decide_false by (intros [? ?]; discriminate).
      unfold os_rename. rewrite Hsrc.
      eexists. split; [reflexivity|].
      split; [now rewrite delete_id | repeat split].
  - unfold os_rename. rewrite Hsrc.
    eexists. split; [reflexivity|]. split; [reflexivity | repeat split].
Qed.


(** ** Paths under the base directory *)

Lemma substring_skip (a b : string) (n : nat) :
  substring (String.length a) n (a +:+ b) = substring 0 n b.
Proof. induction a as [|c a IH]; simpl; [reflexivity | exact IH]. Qed.

Lemma substring_all (b : string) : substring 0 (String.length b) b = b.
Proof. induction b as [|c b IH]; simpl; [reflexivity | now rewrite IH]. Qed.

Lemma substring_prefix (a b : string) : substring 0 (String.length a) (a +:+ b) = a.
Proof.
  induction a as [|c a IH]; simpl; [now destruct b | now rewrite IH].
Qed.

Lemma str_from_app (a b : string) : str_from (String.length a) (a +:+ b) = b.
Proof.
  unfold str_from. rewrite append_length, substring_skip.
  replace (String.length a + String.length b - String.length a)%nat
    with (String.length b) by lia.
  apply substring_all.
Qed.

Lemma str_drop_end_app (a b : string) : str_drop_end (String.length b) (a +:+ b) = a.
Proof.
  unfold str_drop_end. rewrite append_length.
  replace (String.length a + String.length b - String.length b)%nat
    with (String.length a) by lia.
  apply substring_prefix.
Qed.

Lemma str_drop_end_4 (a : string) : str_drop_end 4 (a +:+ "-tmp") = a.
Proof. exact (str_drop_end_app a "-tmp"). Qed.

Lemma endswith_app (a b : string) : endswith (a +:+ b) b = true.
Proof.
  unfold endswith. rewrite append_length.
  replace (String.length a + String.length b - String.length b)%nat
    with (String.length a) by lia.
  rewrite str_from_app, String.eqb_refl, andb_true_r.
  apply Nat.leb_le. lia.
Qed.

Lemma substring_split (s : string) (n : nat) :
  (n <= String.length s)%nat ->
  s = substring 0 n s +:+ substring n (String.length s - n) s.
Proof.
  revert n. induction s as [|c s IH]; intros [|n] Hn; simpl in *;
    try reflexivity; try lia.
  - now rewrite substring_all.
  - f_equal. apply IH. lia.
Qed.

Lemma endswith_inv (s suffix : string) :
  endswith s suffix = true -> exists a, s = a +:+ suffix.
Proof.
  unfold endswith. intros H. apply andb_prop in H as [Hlen Heq].
  apply Nat.leb_le in Hlen. apply String.eqb_eq in Heq.
  exists (substring 0 (String.length s - String.length suffix) s).
  rewrite <- Heq at 2. unfold str_from. apply substring_split. lia.
Qed.

Lemma prefix_app (a b : string) : String.prefix a (a +:+ b) = true.
Proof.
  induction a as [|c a IH]; simpl; [now destruct b|].
  destruct (ascii_dec c c); [exact IH | contradiction].
Qed.

(** Two ways to cut the same string. *)
Lemma app_eq_app (a b c d : string) :
  a +:+ b = c +:+ d ->
  (exists e, a = c +:+ e /\ d = e +:+ b) \/ (exists e, c = a +:+ e /\ b = e +:+ d).
Proof.
  revert c. induction a as [|x a IH]; intros c H.
  - right. exists c. split; [reflexivity | exact H].
  - destruct c as [|y c].
    + left. exists (String x a). split; [reflexivity | symmetry; exact H].
    + simpl in H. injection H as -> H.
      destruct (IH _ H) as [(e & -> & ->)|(e & -> & ->)]; [left | right];
        exists e; split; reflexivity.
Qed.

Lemma under_tmp (base rel : string) :
  under base rel +:+ "-tmp" = under base (rel +:+ "-tmp").
Proof. unfold under. now rewrite !string_app_assoc. Qed.

Lemma under_not_tmp (base rel q : string) :
  endswith rel "-tmp" = false -> under base rel ≠ q +:+ "-tmp".
Proof.
  intros Hrel E. unfold under in E.
  apply app_eq_app in E as [(e & _ & E)|(e & _ & E)].
  - destruct e as [|c1 [|c2 [|c3 [|c4 [|c5 e]]]]]; simpl in E; discriminate E.
  - destruct e as [|c e]; simpl in E; [discriminate E|].
    injection E as _ ->. now rewrite endswith_app in Hrel.
Qed.

Lemma str_from_under (base rel : string) :
  str_from (String.length base + 1) (under base rel) = rel.
Proof.
  unfold under. rewrite <- string_app_assoc.
  replace (String.length base + 1)%nat with (String.length (base +:+ "/"))
    by (rewrite append_length; reflexivity).
  apply str_from_app.
Qed.

Lemma os_path_join_under (base rel : string) :
  base ≠ "" -> endswith base "/" = false -> startswith rel "/" = false ->
  os_path_join base rel = under base rel.
Proof.
  intros Hbase Hend Hrel. unfold os_path_join. rewrite Hrel, Hend.
  destruct (String.eqb_spec base ""); [contradiction|]. reflexivity.
Qed.

Lemma startswith_tmp (rel : string) :
  startswith rel "/" = false -> startswith (rel +:+ "-tmp") "/" = false.
Proof.
  unfold startswith. destruct rel as [|c rel]; [reflexivity|].
  change (String c rel +:+ "-tmp") with (String c (rel +:+ "-tmp")).
  cbn [String.prefix]. destruct (ascii_dec "/" c); [|reflexivity].
  destruct rel; discriminate.
Qed.

Lemma make_rel_renames_under (base : string) (pending : list (option string * string))
    (w : World) :
  Forall (pending_under base) pending ->
  make_rel_renames base pending w
  = (Ok (map (fun entry => str_from (String.length base + 1) (pending_path entry))
           pending), w).
Proof.
  induction 1 as [|[source dest] pending (rel & Hdest & Hrel & Hsrc) _ IH];
    [reflexivity|].
  simpl in Hdest, Hsrc. subst dest.
  destruct Hsrc as [->| ->]; simpl.
  - unfold startswith, under. rewrite prefix_app. simpl.
    unfold bind at 1. simpl. unfold bind at 1. rewrite IH. reflexivity.
  - rewrite String.eqb_refl. simpl.
    unfold bind at 1. simpl. unfold bind at 1. rewrite IH. reflexivity.
Qed.

(** X5.  The relative names [make_rel_renames] writes to the changelog are
    resolved by [os.path.join] to the paths that were pending. *)
Theorem rel_renames_resolve (base : string) (pending : list (option string * string))
    (w : World) :
  base ≠ "" -> endswith base "/" = false ->
  Forall (pending_under base) pending ->
  exists rels,
    make_rel_renames base pending w = (Ok rels, w)
    /\ map (os_path_join base) rels = map pending_path pending
    /\ Forall2 (fun rel entry =>
                  is_Some entry.1 -> endswith rel "-tmp" = true
                                     /\ str_drop_end 4 (os_path_join base rel) = entry.2)
               rels pending.
Proof.
  intros Hbase Hend Hall. rewrite (make_rel_renames_under _ _ _ Hall).
  eexists. split; [reflexivity|]. clear w.
  induction Hall as [|[source dest] pending (rel & Hdest & Hrel & Hsrc) _ [IH1 IH2]];
    [split; [reflexivity | constructor]|].
  simpl in Hdest, Hsrc. subst dest.
  assert (E : os_path_join base
                (str_from (String.length base + 1)
                   (pending_path (source, under base rel)))
              = pending_path (source, under base rel)).
  { destruct Hsrc as [->| ->]; unfold pending_path; simpl.
    - rewrite str_from_under. now apply os_path_join_under.
    - rewrite under_tmp, str_from_under.
      apply os_path_join_under; auto using startswith_tmp. }
  split.
  - simpl. now rewrite E, IH1.
  - constructor; [|exact IH2]. rewrite E. simpl.
    intros [src Hs]. destruct Hsrc as [->| ->]; [discriminate Hs|].
    unfold pending_path. simpl. split.
    + rewrite under_tmp, str_from_under. apply endswith_app.
    + apply str_drop_end_4.
Qed.

(** ** A commit installs the staged files *)

Lemma commit_renames_from_tmp base rel rest fc fd :
  endswith rel "-tmp" = true ->
  commit_renames_from base (rel :: rest) fc fd
  = (rename (os_path_join base rel) (str_drop_end 4 (os_path_join base rel)) ;;;
     commit_renames_from base rest (fc ++ [str_drop_end 4 rel]) fd).
Proof. intros H. cbn [commit_renames_from]. now rewrite H. Qed.

Lemma commit_renames_from_del base rel rest fc fd :
  endswith rel "-tmp" = false ->
  commit_renames_from base (rel :: rest) fc fd
  = (try_except (os_remove (os_path_join base rel)) is_OSError (ret tt) ;;;
     commit_renames_from base rest fc (fd ++ [rel])).
Proof. intros H. cbn [commit_renames_from]. now rewrite H. Qed.

Lemma remove_ignoring_spec path w :
  exists evs,
    try_except (os_remove path) is_OSError (ret tt) w
    = (Ok tt, fs_update (delete path (files w)) evs w).
Proof.
  unfold try_except. destruct (files w !! path) as [old|] eqn:E.
  - rewrite (os_remove_present _ _ _ E). eauto.
  - rewrite (os_remove_missing _ _ E). cbn [is_OSError]. exists [].
    rewrite delete_id by exact E. now rewrite fs_update_id.
Qed.

Section Install.

Variable base : string.
Hypothesis base_not_empty : base ≠ "".
Hypothesis base_no_slash : endswith base "/" = false.

Lemma rel_of_written rel content :
  rel_of base (under base rel, Some content) = rel +:+ "-tmp".
Proof.
  unfold rel_of, staged_rename, pending_path. simpl.
  now rewrite under_tmp, str_from_under.
Qed.

Lemma rel_of_deleted rel : rel_of base (under base rel, None) = rel.
Proof.
  unfold rel_of, staged_rename, pending_path. simpl. apply str_from_under.
Qed.

Lemma commit_items_ok items : forall fc fd w,
  Forall (fun item : string * option string => dirty_path_ok base item.1) items ->
  NoDup items.*1 ->
  (forall p c, (p, Some c) ∈ items -> files w !! (p +:+ "-tmp") = Some c) ->
  exists out evs,
    commit_renames_from base (map (rel_of base) items) fc fd w
    = (Ok out,
       fs_update (foldl (fun f item => install_item item f) (files w) items) evs w).
Proof.
  induction items as [|[p oc] items IH]; intros fc fd w Hok Hnd Hstaged.
  - exists (fc, fd), []. simpl. now rewrite fs_update_id.
  - apply Forall_cons in Hok as [(rel & Hp & Hrel & Htmp) Hok].
    simpl in Hp. subst p. simpl in Hnd.
    apply NoDup_cons in Hnd as [Hnotin Hnd].
    destruct oc as [c|]; cbn [map].
    + rewrite rel_of_written.
      rewrite commit_renames_from_tmp by apply endswith_app.
      rewrite os_path_join_under by auto using startswith_tmp.
      rewrite <- under_tmp.
      rewrite str_drop_end_4.
      destruct (rename_spec (under base rel +:+ "-tmp") (under base rel) c w)
        as (evs & Hren & _);
        [apply Hstaged; left | apply append_tmp_neq |].
      unfold bind at 1. rewrite Hren.
      match goal with |- context [commit_renames_from _ _ ?fc1 ?fd1 ?w1] =>
        destruct (IH fc1 fd1 w1 Hok Hnd) as (out & evs' & Hrun) end.
      * intros p c' Hin. cbn [files fs_update].
        rewrite lookup_insert_ne
          by (apply (under_not_tmp base rel p Htmp)).
        rewrite lookup_delete_ne; [apply Hstaged; now right|].
        intros E. apply append_tmp_inj in E as <-.
        apply Hnotin. apply list_elem_of_fmap. now exists (under base rel, Some c').
      * exists out, (evs ++ evs'). rewrite Hrun, fs_update_fs_update. reflexivity.
    + rewrite rel_of_deleted.
      rewrite commit_renames_from_del by exact Htmp.
      rewrite os_path_join_under by auto.
      destruct (remove_ignoring_spec (under base rel) w) as (evs & Hrem).
      unfold bind at 1. rewrite Hrem.
      match goal with |- context [commit_renames_from _ _ ?fc1 ?fd1 ?w1] =>
        destruct (IH fc1 fd1 w1 Hok Hnd) as (out & evs' & Hrun) end.
      * intros p c' Hin. cbn [files fs_update].
        rewrite lookup_delete_ne
          by (apply (under_not_tmp base rel p Htmp)).
        apply Hstaged. now right.
      * exists out, (evs ++ evs'). rewrite Hrun, fs_update_fs_update. reflexivity.
Qed.

Lemma tmps_elem (items : list (string * option string)) (q : string) :
  q ∈ sources (map staged_rename items)
  <-> exists p c, (p, Some c) ∈ items /\ q = p +:+ "-tmp".
Proof.
  induction items as [|[p' [c'|]] items IH]; unfold sources; simpl.
  - split; [inversion 1 | intros (? & ? & H & _); inversion H].
  - rewrite elem_of_cons. fold (sources (map staged_rename items)). rewrite IH.
    split.
    + intros [->|(p & c & Hin & ->)]; [exists p', c'; split; [left|reflexivity]|].
      exists p, c. split; [now right | reflexivity].
    + intros (p & c & Hin & ->). apply elem_of_cons in Hin as [[= -> ->]|Hin];
        [now left | right; eauto].
  - fold (sources (map staged_rename items)). rewrite IH. split.
    + intros (p & c & Hin & ->). exists p, c. split; [now right | reflexivity].
    + intros (p & c & Hin & ->). apply elem_of_cons in Hin as [[=]|Hin]; eauto.
Qed.

Lemma install_lookup items : forall f q,
  Forall (fun item : string * option string => dirty_path_ok base item.1) items ->
  NoDup items.*1 ->
  foldl (fun f item => install_item item f) f items !! q
  = match (list_to_map items : gmap string (option string)) !! q with
    | Some (Some c) => Some c
    | Some None => None
    | None => if decide (q ∈ sources (map staged_rename items)) then None
              else f !! q
    end.
Proof.
  induction items as [|[p oc] items IH]; intros f q Hok Hnd.
  - destruct (decide (q ∈ sources (map staged_rename []))) as [H|_];
      [inversion H|].
    simpl. now rewrite lookup_empty.
  - apply Forall_cons in Hok as [(rel & Hp & Hrel & Htmp) Hok].
    simpl in Hp. subst p. simpl in Hnd.
    apply NoDup_cons in Hnd as [Hnotin Hnd].
    cbn [foldl]. rewrite (IH _ _ Hok Hnd). cbn [list_to_map].
    assert (Hnone : (list_to_map items : gmap string (option string))
                      !! under base rel = None)
      by now apply not_elem_of_list_to_map_1.
    assert (Hpt : forall l, under base rel ∉ sources (map staged_rename l)).
    { intros l Hin. apply tmps_elem in Hin as (p & c & _ & E).
      exact (under_not_tmp _ _ _ Htmp E). }
    destruct (decide (q = under base rel)) as [->|Hq].
    + simpl. rewrite lookup_insert_eq, Hnone.
      rewrite decide_False by apply Hpt.
      destruct oc as [c|]; unfold install_item; simpl.
      * apply lookup_insert_eq.
      * apply lookup_delete_eq.
    + simpl. rewrite lookup_insert_ne by done.
      destruct (list_to_map items !! q) as [[c|]|]; try reflexivity.
      destruct oc as [c|]; unfold install_item, sources; simpl;
        fold (sources (map staged_rename items)).
      * destruct (decide (q ∈ sources (map staged_rename items))) as [Hin|Hnin].
        -- rewrite decide_True by now right. reflexivity.
        -- rewrite lookup_insert_ne by done.
           destruct (decide (q = under base rel +:+ "-tmp")) as [->|Hne].
           ++ rewrite decide_True by left. apply lookup_delete_eq.
           ++ rewrite decide_False
                by (intros H; apply elem_of_cons in H as [?|?]; contradiction).
              now rewrite lookup_delete_ne.
      * destruct (decide (q ∈ sources (map staged_rename items))); [reflexivity|].
        now rewrite lookup_delete_ne.
Qed.

Lemma staged_content items : forall f p c,
  NoDup items.*1 -> (p, Some c) ∈ items ->
  foldl (fun f item => staged_write item f) f items !! (p +:+ "-tmp") = Some c.
Proof.
  induction items as [|[p' oc] items IH]; intros f p c Hnd Hin; [inversion Hin|].
  simpl in Hnd. apply NoDup_cons in Hnd as [Hnotin Hnd].
  apply elem_of_cons in Hin as [[= <- <-]|Hin]; cbn [foldl].
  - unfold staged_write at 2. simpl.
    assert (Hno : p +:+ "-tmp" ∉ sources (map staged_rename items)).
    { intros H. apply tmps_elem in H as (p2 & c2 & Hin & E).
      apply append_tmp_inj in E as <-. apply Hnotin.
      apply list_elem_of_fmap. now exists (p, Some c2). }
    clear IH Hnd Hnotin. revert Hno.
    generalize (lookup_insert_eq f (p +:+ "-tmp") c).
    generalize (<[p +:+ "-tmp" := c]> f).
    induction items as [|[p2 [c2|]] items IH]; intros g Hg Hno; [exact Hg| |].
    + cbn [foldl]. apply IH.
      * unfold staged_write. simpl. rewrite lookup_insert_ne; [exact Hg|].
        intros E. apply Hno. rewrite <- E. unfold sources. simpl. left.
      * intros H. apply Hno. unfold sources. simpl. now right.
    + cbn [foldl]. apply IH; [exact Hg|]. exact Hno.
  - now apply IH.
Qed.

Lemma staged_other (items : list (string * option string)) : forall f q,
  q ∉ sources (map staged_rename items) ->
  foldl (fun f item => staged_write item f) f items !! q = f !! q.
Proof.
  induction items as [|[p [c|]] items IH]; intros f q Hq; [reflexivity| |].
  - cbn [foldl]. rewrite IH by (intros H; apply Hq; unfold sources; simpl; now right).
    unfold staged_write. simpl. apply lookup_insert_ne.
    intros E. apply Hq. rewrite <- E. unfold sources. simpl. left.
  - cbn [foldl]. now rewrite IH.
Qed.

End Install.

Lemma staged_renames_under base (items : list (string * option string)) :
  Forall (fun item : string * option string => dirty_path_ok base item.1) items ->
  Forall (pending_under base) (map staged_rename items).
Proof.
  induction 1 as [|[p oc] items (rel & Hp & Hrel & _) _ IH]; [constructor|].
  simpl in Hp. subst p. constructor; [|exact IH].
  exists rel. destruct oc; unfold staged_rename; simpl; auto.
Qed.

Lemma dirty_path_not_empty base path :
  base ≠ "" -> dirty_path_ok base path -> path ≠ "".
Proof.
  intros Hbase (rel & -> & _). unfold under.
  destruct base; [contradiction | discriminate].
Qed.

(** The scoped exit without error on the files of the embedding, where
    every directory that is needed exists. *)
Lemma FSWriter_exit_installs (w : World) :
  basedir w ≠ "" -> endswith (basedir w) "/" = false ->
  pending_renames (fswriter w) = [] ->
  (forall path c, dirty_files (conn (fswriter w)) !! path = Some c ->
                  dirty_path_ok (basedir w) path) ->
  exists w',
    FSWriter_exit None w = (Ok tt, w')
    /\ (forall path content,
          dirty_files (conn (fswriter w)) !! path = Some (Some content) ->
          files w' !! path = Some content /\ files w' !! (path +:+ "-tmp") = None)
    /\ (forall path,
          dirty_files (conn (fswriter w)) !! path = Some None ->
          files w' !! path = None)
    /\ (forall q,
          dirty_files (conn (fswriter w)) !! q = None ->
          (forall path content,
             dirty_files (conn (fswriter w)) !! path = Some (Some content) ->
             q ≠ path +:+ "-tmp") ->
          files w' !! q = files w !! q).
Proof.
  intros Hbase Hend Hpend Hdirty.
  set (D := dirty_files (conn (fswriter w))) in *.
  set (items := map_to_list D).
  assert (Hok : Forall (fun item : string * option string =>
                          dirty_path_ok (basedir w) item.1) items).
  { apply Forall_forall. intros [p c] Hin. apply elem_of_map_to_list in Hin.
    simpl. eauto. }
  assert (Hnd : NoDup items.*1) by apply NoDup_fst_map_to_list.
  assert (Hne : Forall (fun item : string * option string => item.1 ≠ "") items).
  { eapply Forall_impl; [exact Hok|]. intros item.
    now apply dirty_path_not_empty. }
  set (F0 := foldl (fun f item => staged_write item f) (files w) items).
  destruct (commit_items_ok (basedir w) Hbase Hend items [] []
              (emit (EvChangelog (next_serial w)
                       (changes (fswriter w), map (rel_of (basedir w)) items))
                 (set_changelog
                    (<[next_serial w :=
                         (changes (fswriter w), map (rel_of (basedir w)) items)]>
                       (changelog w))
                    (staged F0 (flat_map staged_event items)
                       (map staged_rename items) w)))
              Hok Hnd)
    as (out & evs & Hrun).
  { intros p c Hin. cbn [files emit set_changelog staged].
    now apply staged_content. }
  cbn [files emit set_changelog staged] in Hrun.
  assert (Hexit : exists w',
             FSWriter_exit None w = (Ok tt, w')
             /\ files w' = foldl (fun f item => install_item item f) F0 items).
  { unfold FSWriter_exit. unfold bind at 1.
    rewrite stage_dirty_files_unfold. fold D items.
    change (for_each items _ w) with (for_each items stage_item w).
    rewrite (stage_items_ok _ _ Hne). fold F0.
    unfold commit_to_filesystem. run_m. cbn [basedir fswriter staged pending_renames].
    rewrite Hpend. cbn [app].
    rewrite (make_rel_renames_under _ _ _ (staged_renames_under _ _ Hok)).
    rewrite map_map. fold (rel_of (basedir w)).
    unfold write_changelog_entry, commit_renames. run_m.
    cbn [next_serial changes staged].
    match goal with |- context [commit_renames_from ?b ?l [] [] ?w1] =>
      match type of Hrun with commit_renames_from _ _ _ _ ?w2 = _ =>
        change w1 with w2 end end.
    rewrite Hrun. unfold cache_commit_changes, _notify_on_commit. run_m.
    eexists. split; [reflexivity|]. reflexivity. }
  destruct Hexit as (w' & Hexit & Hfiles).
  exists w'. split; [exact Hexit|].
  assert (Hlook : forall q,
             files w' !! q
             = match D !! q with
               | Some (Some c) => Some c
               | Some None => None
               | None => if decide (q ∈ sources (map staged_rename items)) then None
                         else F0 !! q
               end).
  { intros q. rewrite Hfiles, (install_lookup (basedir w) items F0 q Hok Hnd).
    unfold items. now rewrite list_to_map_to_list. }
  split; [|split].
  - intros path content Hpath. split.
    + now rewrite Hlook, Hpath.
    + rewrite Hlook.
      destruct (Hdirty _ _ Hpath) as (rel & -> & _ & Htmp).
      assert (Hnone : D !! (under (basedir w) rel +:+ "-tmp") = None).
      { destruct (D !! (under (basedir w) rel +:+ "-tmp")) as [c|] eqn:E;
          [|reflexivity].
        destruct (Hdirty _ _ E) as (rel2 & E2 & _ & Htmp2).
        symmetry in E2. now apply under_not_tmp in E2. }
      rewrite Hnone. rewrite decide_True; [reflexivity|].
      apply tmps_elem. exists (under (basedir w) rel), content.
      split; [now apply elem_of_map_to_list | reflexivity].
  - intros path Hpath. now rewrite Hlook, Hpath.
  - intros q Hq Hnot. rewrite Hlook, Hq.
    assert (Hnin : q ∉ sources (map staged_rename items)).
    { intros H. apply tmps_elem in H as (p & c & Hin & ->).
      apply elem_of_map_to_list in Hin. exact (Hnot p c Hin eq_refl). }
    rewrite decide_False by exact Hnin.
    now apply staged_other.
Qed.

(** X6.  On a fresh writer whose dirty files are files of the base directory
    with names that do not end in [-tmp]: when the scoped exit without
    error has returned, every dirty file with content holds this content
    and its temp file is gone, every dirty file marked for deletion is
    gone, and no other file has changed. *)
Theorem commit_installs_files (w w' : World) :
  basedir w ≠ "" -> endswith (basedir w) "/" = false ->
  pending_renames (fswriter w) = [] ->
  (forall path c, dirty_files (conn (fswriter w)) !! path = Some c ->
                  dirty_path_ok (basedir w) path) ->
  FSWriter_exit None w = (Ok tt, w') ->
  (forall path content,
     dirty_files (conn (fswriter w)) !! path = Some (Some content) ->
     files w' !! path = Some content /\ files w' !! (path +:+ "-tmp") = None)
  /\ (forall path,
        dirty_files (conn (fswriter w)) !! path = Some None ->
        files w' !! path = None)
  /\ (forall q,
        dirty_files (conn (fswriter w)) !! q = None ->
        (forall path content,
           dirty_files (conn (fswriter w)) !! path = Some (Some content) ->
           q ≠ path +:+ "-tmp") ->
        files w' !! q = files w !! q).
Proof.
  intros Hbase Hend Hpend Hdirty Hrun.
  destruct (FSWriter_exit_installs w Hbase Hend Hpend Hdirty) as (w2 & Hexit & Hprops).
  rewrite Hexit in Hrun. injection Hrun as <-. exact Hprops.
Qed.

(** ** Recovery after a crash in the middle of a commit *)

Lemma rename_ok_source source dest w w' :
  rename source dest w = (Ok tt, w') -> is_Some (files w !! source).
Proof.
  intros H. destruct (files w !! source) as [c|] eqn:E; [eauto|].
  destruct (rename_missing source dest w E) as (w1 & Hr & _).
  rewrite Hr in H. discriminate H.
Qed.

Lemma for_each_app {A} (l1 l2 : list A) (body : A -> M unit) (w : World) :
  for_each (l1 ++ l2) body w = (for_each l1 body ;;; for_each l2 body) w.
Proof.
  revert w. induction l1 as [|x l1 IH]; intros w; [reflexivity|].
  simpl. unfold bind. destruct (body x w) as [[[]|e] w1]; [|reflexivity].
  rewrite IH. reflexivity.
Qed.

(** A commit that succeeds does what the replay does. *)
Lemma commit_as_replay base rels : forall fc fd w out w',
  commit_renames_from base rels fc fd w = (Ok out, w') ->
  for_each rels (replay_rename base) w = (Ok tt, w').
Proof.
  induction rels as [|rel rels IH]; intros fc fd w out w' H.
  - now injection H as _ <-.
  - cbn [for_each]. unfold replay_rename at 1.
    destruct (endswith rel "-tmp") eqn:Htmp.
    + rewrite commit_renames_from_tmp in H by exact Htmp.
      apply bind_inv in H as [([] & w1 & H1 & H2)|(e & _ & [=])].
      unfold bind at 1. unfold bind at 1, os_path_exists, gets.
      rewrite bool_decide_true by (eapply rename_ok_source; eassumption).
      rewrite H1. eapply IH; eassumption.
    + rewrite commit_renames_from_del in H by exact Htmp.
      apply bind_inv in H as [([] & w1 & H1 & H2)|(e & _ & [=])].
      unfold bind at 1. rewrite H1. eapply IH; eassumption.
Qed.

Lemma commit_renames_from_prefix base l1 l2 : forall fc fd w out w',
  commit_renames_from base (l1 ++ l2) fc fd w = (Ok out, w') ->
  exists out1 w1,
    commit_renames_from base l1 fc fd w = (Ok out1, w1)
    /\ commit_renames_from base l2 out1.1 out1.2 w1 = (Ok out, w').
Proof.
  induction l1 as [|rel l1 IH]; intros fc fd w out w' H.
  - exists (fc, fd), w. split; [reflexivity | exact H].
  - rewrite <- app_comm_cons in H. destruct (endswith rel "-tmp") eqn:Htmp.
    + rewrite commit_renames_from_tmp in H by exact Htmp.
      apply bind_inv in H as [([] & w1 & H1 & H2)|(e & _ & [=])].
      apply IH in H2 as (out1 & w2 & H2 & H3).
      exists out1, w2. split; [|exact H3].
      rewrite commit_renames_from_tmp by exact Htmp.
      unfold bind. now rewrite H1.
    + rewrite commit_renames_from_del in H by exact Htmp.
      apply bind_inv in H as [([] & w1 & H1 & H2)|(e & _ & [=])].
      apply IH in H2 as (out1 & w2 & H2 & H3).
      exists out1, w2. split; [|exact H3].
      rewrite commit_renames_from_del by exact Htmp.
      unfold bind. now rewrite H1.
Qed.

(** X9.  Whatever the number [k] of the renames of a plan that a commit has
    carried out before a crash, [check_pending_renames] brings the files to
    the state the complete commit leaves. *)
Theorem recovery_completes_commit (base : string) (rels : list string) (k : nat)
    (w : World) (out : list string * list string) (w_full : World) :
  rename_plan_ok base rels ->
  commit_renames base rels w = (Ok out, w_full) ->
  exists out_k w_k,
    commit_renames base (take k rels) w = (Ok out_k, w_k)
    /\ check_pending_renames base rels w_k = (Ok tt, w_full).
Proof.
  intros Hplan Hfull. unfold commit_renames in *.
  rewrite <- (take_drop k rels) in Hfull.
  apply commit_renames_from_prefix in Hfull as (out_k & w_k & Hk & Hrest).
  exists out_k, w_k. split; [exact Hk|].
  apply commit_as_replay in Hk, Hrest.
  rewrite check_pending_renames_unfold.
  rewrite <- (take_drop k rels) at 1. rewrite for_each_app. unfold bind.
  rewrite (replay_all_settled base (take k rels) w_k); [exact Hrest|].
  apply (replay_all_ok base rels Hplan (take k rels) w w_k); [|exact Hk].
  intros rel Hin. rewrite <- (take_drop k rels). apply elem_of_app. now left.
Qed.

Lemma replay_rename_raise base rels rel e w w' :
  rename_plan_ok base rels -> rel ∈ rels ->
  replay_rename base rel w = (Raise e, w') -> w' = w.
Proof.
  intros Hplan Hrel. unfold replay_rename.
  unfold rename_plan_ok in Hplan. rewrite Forall_forall in Hplan.
  destruct (endswith rel "-tmp") eqn:Htmp.
  - unfold os_path_exists. run_m.
    destruct (files w !! os_path_join base rel) as [content|] eqn:Hsrc.
    + rewrite bool_decide_true by eauto.
      destruct (rename_spec (os_path_join base rel)
                  (str_drop_end 4 (os_path_join base rel)) content w Hsrc)
        as (evs & -> & _); [|discriminate].
      intros E. apply (Hplan rel Hrel Htmp). rewrite <- E.
      apply list_elem_of_fmap; eauto.
    + rewrite bool_decide_false by (intros [? ?]; discriminate).
      destruct (bool_decide _); [discriminate|].
      intros [= _ <-]. reflexivity.
  - destruct (remove_ignoring_spec (os_path_join base rel) w) as (evs & ->).
    discriminate.
Qed.

Lemma replay_again base rels l :
  rename_plan_ok base rels ->
  forall done w r w1,
    (forall rel, rel ∈ l -> rel ∈ rels) ->
    (forall rel, rel ∈ done -> rel ∈ rels) ->
    (forall rel, rel ∈ done -> settled base (files w) rel) ->
    for_each l (replay_rename base) w = (r, w1) ->
    for_each (done ++ l) (replay_rename base) w1 = (r, w1).
Proof.
  intros Hplan. induction l as [|rel l IH]; intros done w r w1 Hl Hdone Hset H.
  - injection H as <- <-. rewrite app_nil_r. now apply replay_all_settled.
  - cbn [for_each] in H. unfold bind in H.
    destruct (replay_rename base rel w) as [[[]|e] w2] eqn:E.
    + apply (replay_rename_ok base rels Hplan) in E as [Hrel Hkeep];
        [|apply Hl; left].
      change (rel :: l) with ([rel] ++ l)%list. rewrite app_assoc.
      apply (IH (done ++ [rel])%list w2); [intros; apply Hl; now right | | | exact H].
      * intros rel' Hin. apply elem_of_app in Hin as [Hin|Hin]; [auto|].
        apply list_elem_of_singleton in Hin as ->. apply Hl. left.
      * intros rel' Hin. apply elem_of_app in Hin as [Hin|Hin]; [auto|].
        now apply list_elem_of_singleton in Hin as ->.
    + injection H as <- <-.
      apply (replay_rename_raise base rels) in E as Hsame; [|exact Hplan|apply Hl; left].
      subst w2.
      rewrite for_each_app. unfold bind.
      rewrite (replay_all_settled base done w Hset).
      cbn [for_each]. unfold bind. now rewrite E.
Qed.

(** X30.  For a rename plan in which no path is the destination of one of
    its renames, [check_pending_renames] is repeatable: applied again to
    the state it has left, it has the same outcome, its success or the
    exception it raised, and changes nothing. *)
Theorem replay_is_repeatable (base : string) (rels : list string) (r : result unit)
    (w w1 : World) :
  rename_plan_ok base rels ->
  check_pending_renames base rels w = (r, w1) ->
  check_pending_renames base rels w1 = (r, w1).
Proof.
  intros Hplan H. rewrite check_pending_renames_unfold in *.
  apply (replay_again base rels rels Hplan [] w r w1); auto;
    intros rel Hin; inversion Hin.
Qed.

(** What a successful [__exit__] of a commit runs. *)
Lemma FSWriter_exit_commit_inv w w' :
  FSWriter_exit None w = (Ok tt, w') ->
  exists ws rels out wr,
    stage_dirty_files w = (Ok tt, ws)
    /\ commit_renames (basedir w) rels
         (emit (EvChangelog (next_serial w) (changes (fswriter w), rels))
            (set_changelog
               (<[next_serial w := (changes (fswriter w), rels)]> (changelog w)) ws))
       = (Ok out, wr)
    /\ files w' = files wr /\ basedir w' = basedir w
    /\ next_serial w' = next_serial w + 1
    /\ changelog w'
       = <[next_serial w := (changes (fswriter w), rels)]> (changelog w).
Proof.
  unfold FSWriter_exit. intros H.
  apply bind_inv in H as [([] & ws & Hstage & H)|(e & _ & [=])].
  pose proof (stage_dirty_files_steps _ _ _ Hstage) as [S _].
  destruct S as (S1 & S2 & S3 & S4 & S5 & S6 & S7).
  apply bind_inv in H as [(res & w2 & Hcommit & H)|(e & _ & [=])].
  injection H as <-.
  unfold commit_to_filesystem in Hcommit.
  apply bind_inv in Hcommit as [(base & w1 & [= <- <-] & H)|(e & [=] & _)].
  apply bind_inv in H as [(self & w1 & [= <- <-] & H)|(e & [=] & _)].
  apply bind_inv in H as [(rels & w1 & Hrel & H)|(e & _ & [=])].
  pose proof (make_rel_renames_pure _ _ _ _ _ Hrel) as ->.
  apply bind_inv in H as [(serial & w1 & [= <- <-] & H)|(e & [=] & _)].
  apply bind_inv in H as [(? & w1 & [= <- <-] & H)|(e & [=] & _)].
  apply bind_inv in H as [(out & wr & Hren & H)|(e & _ & [=])].
  injection H as _ <-.
  exists ws, rels, out, wr. split; [exact Hstage|].
  rewrite S1, S3, S4, S6 in Hren. split; [exact Hren|].
  apply commit_renames_from_steps in Hren as [S _].
  destruct S as (T1 & T2 & T3 & T4 & T5 & T6 & T7).
  cbn [next_serial changelog basedir files emit set_changelog
         set_next_serial set_last_commit_timestamp] in *.
  repeat split; solve [assumption | congruence].
Qed.

(** X10.  After a commit that succeeded, the crash recovery of the next start
    finds nothing to do. *)
Theorem crash_recovery_after_commit (w w' : World) :
  FSWriter_exit None w = (Ok tt, w') ->
  (forall e, changelog w' !! next_serial w = Some e ->
             rename_plan_ok (basedir w) e.2) ->
  crash_recovery w' = (Ok tt, w').
Proof.
  intros Hexit Hplan.
  apply FSWriter_exit_commit_inv in Hexit
    as (ws & rels & out & wr & _ & Hren & Hf & Hb & Hn & Hl).
  unfold crash_recovery. run_m. destruct (0 <? next_serial w')%Z; [|reflexivity].
  replace (next_serial w' - 1) with (next_serial w) by lia.
  rewrite Hl, lookup_insert_eq. cbn [snd].
  assert (Hp : rename_plan_ok (basedir w) rels).
  { apply (Hplan (changes (fswriter w), rels)). rewrite Hl. apply lookup_insert_eq. }
  rewrite Hb, check_pending_renames_unfold.
  apply (replay_all_settled (basedir w) rels w').
  rewrite Hf. apply commit_as_replay in Hren.
  eapply (replay_all_ok (basedir w) rels Hp rels); [auto | exact Hren].
Qed.

(** ** A commit that fails *)

Lemma FSWriter_exit_fail w e w' :
  FSWriter_exit None w = (Raise e, w') ->
  next_serial w' = next_serial w /\ db_index w' = db_index w
  /\ (forall s, s ≠ next_serial w -> changelog w' !! s = changelog w !! s).
Proof.
  unfold FSWriter_exit. intros H.
  apply bind_inv in H as [([] & ws & Hstage & H)|(e' & Hstage & _)].
  - apply stage_dirty_files_steps in Hstage as [(S1 & S2 & S3 & S4) _].
    apply bind_inv in H as [(res & w2 & Hcommit & H)|(e' & Hcommit & _)].
    { revert H. run_m. discriminate. }
    unfold commit_to_filesystem in Hcommit.
    apply bind_inv in Hcommit as [(base & w1 & [= <- <-] & H)|(? & [=] & _)].
    apply bind_inv in H as [(self & w1 & [= <- <-] & H)|(? & [=] & _)].
    apply bind_inv in H as [(rels & w1 & Hrel & H)|(? & Hrel & _)].
    + pose proof (make_rel_renames_pure _ _ _ _ _ Hrel) as ->.
      apply bind_inv in H as [(serial & w1 & [= <- <-] & H)|(? & [=] & _)].
      apply bind_inv in H as [(? & w1 & [= <- <-] & H)|(? & [=] & _)].
      apply bind_inv in H as [(out & wr & Hren & H)|(? & Hren & _)].
      { revert H. run_m. discriminate. }
      apply commit_renames_from_steps in Hren as [(T1 & T2 & T3 & _) _].
      cbn [next_serial changelog db_index emit set_changelog] in *.
      split; [congruence|]. split; [congruence|].
      intros s Hs. rewrite T3, lookup_insert_ne, S3 by congruence. reflexivity.
    + apply make_rel_renames_pure in Hrel as ->.
      split; [congruence|]. split; [congruence|]. intros. now rewrite S3.
  - apply stage_dirty_files_steps in Hstage as [(S1 & S2 & S3 & S4) _].
    split; [congruence|]. split; [congruence|]. intros. now rewrite S3.
Qed.

(** X12.  A commit that raises has not advanced the serial and has released the
    write lock; the changelog differs from the one before at most in the
    entry of the serial the commit was to get. *)
Theorem failed_commit_keeps_serial (tx : Transaction) (w : World) (e : exn)
    (w' : World) :
  Transaction_commit tx w = (Raise e, w') ->
  next_serial w' = next_serial w /\ write_lock w' = false
  /\ (forall s, s ≠ next_serial w -> changelog w' !! s = changelog w !! s).
Proof.
  unfold Transaction_commit.
  destruct (write tx) eqn:Hw; cbn [negb];
    [|rewrite Transaction_close_spec; discriminate].
  destruct (bool_decide (dirty tx = ∅) && bool_decide (dirty_files (tx_conn tx) = ∅));
    [rewrite Transaction_close_spec; discriminate|].
  unfold try_finally, with_write_transaction, write_transaction. run_m.
  match goal with |- context [for_each ?l ?b ?w1] =>
    change (for_each l b w1) with (record_dirty tx l w1);
    destruct (record_dirty_frame tx l w1) as (wc & Hrun & Hst) end.
  rewrite Hrun. run_m.
  destruct (FSWriter_exit None wc) as [[[]|e1] wa] eqn:Hexit; run_m;
    rewrite Transaction_close_spec, Hw; run_m; [discriminate|].
  intros [= <- <-].
  apply FSWriter_exit_fail in Hexit as (Hn & _ & Hl).
  destruct Hst as (Sn & Sl & _).
  cbn [next_serial changelog write_lock set_write_lock emit set_fswriter] in *.
  split; [congruence|]. split; [reflexivity|].
  intros s Hs. rewrite Hl by congruence. now rewrite Sl.
Qed.

(** ** Only temp files before the changelog entry *)

Lemma keeps_files_refl w : keeps_files w w.
Proof. intros q _. reflexivity. Qed.

Lemma keeps_files_trans w1 w2 w3 :
  keeps_files w1 w2 -> keeps_files w2 w3 -> keeps_files w1 w3.
Proof. intros H1 H2 q Hq. now rewrite (H2 q Hq), (H1 q Hq). Qed.

Lemma record_rename_file_files source dest w r w' :
  record_rename_file source dest w = (r, w') -> files w' = files w.
Proof.
  unfold record_rename_file. intros H.
  apply bind_inv in H as [(a & w1 & H1 & H2)|(e & H1 & _)];
    apply assert_steps in H1 as ->; [|reflexivity].
  now injection H2 as _ <-.
Qed.

Lemma stage_dirty_files_keeps w r w' :
  stage_dirty_files w = (r, w') -> keeps_files w w'.
Proof.
  unfold stage_dirty_files. intros H.
  apply bind_inv in H as [(self & w1 & [= <- <-] & H)|(e & [=] & _)].
  revert H. apply (for_each_steps keeps_files);
    [apply keeps_files_refl | apply keeps_files_trans |].
  intros [path [content|]] v ? ? H; cbn [fst snd] in H.
  - apply bind_inv in H as [(a & w1 & H1 & H2)|(e & [=] & _)].
    rewrite get_write_file_ensure_dir_spec in H1. injection H1 as <- <-.
    apply record_rename_file_files in H2. intros q Hq. rewrite H2.
    cbn [files fs_update]. apply lookup_insert_ne. apply not_eq_sym, Hq.
  - apply record_rename_file_files in H. intros q _. now rewrite H.
Qed.

Lemma pop_pending_renames_files stack : forall w r w',
  pop_pending_renames stack w = (r, w') ->
  forall q, q ∉ sources stack -> files w' !! q = files w !! q.
Proof.
  induction stack as [|[source dest] stack IH]; intros w r w' H q Hq.
  - now injection H as _ <-.
  - cbn [pop_pending_renames] in H.
    unfold bind at 1, modify at 1 in H. cbn beta iota zeta in H.
    apply bind_inv in H as [([] & w1 & H1 & H2)|(e & H1 & _)].
    + rewrite (IH _ _ _ H2 q).
      * destruct source as [tmp|]; [|now injection H1 as <-].
        unfold os_remove in H1. cbn [files set_fswriter] in H1.
        destruct (files w !! tmp); [|discriminate]. injection H1 as <-.
        cbn [files emit set_files set_fswriter]. apply lookup_delete_ne.
        intros ->. apply Hq. unfold sources. simpl. left.
      * intros Hin. apply Hq. unfold sources. destruct source; simpl;
          [now right | exact Hin].
    + destruct source as [tmp|]; [|discriminate].
      unfold os_remove in H1. cbn [files set_fswriter] in H1.
      destruct (files w !! tmp); [discriminate H1|]. now injection H1 as _ <-.
Qed.

(** X8.  Until the changelog entry of a commit is written, and in a rollback,
    only temp files are touched: the staging of the dirty files changes no
    file that is not a temp file, and the scoped exit of a fresh writer
    with an error leaves every such file as it was. *)
Theorem only_temp_files_before_commit (w : World) :
  (forall r w', stage_dirty_files w = (r, w') -> keeps_files w w')
  /\ (forall err r w',
        pending_renames (fswriter w) = [] ->
        FSWriter_exit (Some err) w = (r, w') -> keeps_files w w').
Proof.
  split; [intros r w'; apply stage_dirty_files_keeps|].
  intros err r w' Hpend H. unfold FSWriter_exit in H.
  apply bind_inv in H as [([] & w1 & H1 & H2)|(e & H1 & _)];
    [|eapply stage_dirty_files_keeps; eassumption].
  pose proof (stage_dirty_files_keeps _ _ _ H1) as Hstage.
  rewrite stage_dirty_files_unfold in H1.
  pose proof (stage_items_ok_inv _ _ _ H1) as Hall.
  rewrite (stage_items_ok _ _ Hall) in H1. injection H1 as <-.
  apply bind_inv in H2 as [(? & ? & [= <- <-] & H2)|(e & [=] & _)].
  cbn [fswriter staged pending_renames] in H2. rewrite Hpend in H2.
  eapply keeps_files_trans; [exact Hstage|].
  intros q Hq. eapply pop_pending_renames_files; [exact H2|].
  rewrite sources_rev. intros Hin. apply (proj1 (elem_of_rev _ _)) in Hin.
  cbn [app] in Hin. apply tmps_elem in Hin as (p & c & _ & E). exact (Hq p E).
Qed.

Lemma serial_blind_ret {A} n (a : A) : serial_blind n (ret a).
Proof. intros w. reflexivity. Qed.

Lemma serial_blind_bind {A B} n (m : M A) (k : A -> M B) :
  serial_blind n m -> (forall a, serial_blind n (k a)) -> serial_blind n (bind m k).
Proof.
  intros Hm Hk w. unfold bind. rewrite Hm.
  destruct (m w) as [[a|e] w1]; [apply Hk | reflexivity].
Qed.

Lemma serial_blind_try_except {A} n (body handler : M A) sel :
  serial_blind n body -> serial_blind n handler ->
  serial_blind n (try_except body sel handler).
Proof.
  intros Hb Hh w. unfold try_except. rewrite Hb.
  destruct (body w) as [[a|e] w1]; [reflexivity|].
  destruct (sel e); [apply Hh | reflexivity].
Qed.

Lemma serial_blind_for_each {A} n (l : list A) (body : A -> M unit) :
  (forall x, serial_blind n (body x)) -> serial_blind n (for_each l body).
Proof.
  intros Hbody. induction l as [|x l IH]; [apply serial_blind_ret|].
  cbn [for_each]. apply serial_blind_bind; [apply Hbody | intros _; exact IH].
Qed.

Lemma serial_blind_os_rename n source dest : serial_blind n (os_rename source dest).
Proof.
  intros w. unfold os_rename. cbn [files win32 set_next_serial].
  destruct (files w !! source); [|reflexivity].
  destruct (win32 w && _); reflexivity.
Qed.

Lemma serial_blind_os_remove n path : serial_blind n (os_remove path).
Proof.
  intros w. unfold os_remove. cbn [files set_next_serial].
  destruct (files w !! path); reflexivity.
Qed.

Lemma serial_blind_os_path_exists n path : serial_blind n (os_path_exists path).
Proof. intros w. reflexivity. Qed.

Lemma serial_blind_rename n source dest : serial_blind n (rename source dest).
Proof.
  unfold rename. apply serial_blind_try_except; [apply serial_blind_os_rename|].
  apply serial_blind_bind; [apply serial_blind_ret|]. intros dir_exists.
  apply serial_blind_bind; [destruct dir_exists; apply serial_blind_ret|].
  intros _. apply serial_blind_bind; [intros w; reflexivity|]. intros on_win.
  apply serial_blind_bind; [apply serial_blind_os_path_exists|]. intros dest_exists.
  apply serial_blind_bind; [|intros _; apply serial_blind_os_rename].
  destruct (on_win && dest_exists);
    [apply serial_blind_os_remove | apply serial_blind_ret].
Qed.

Lemma check_pending_renames_serial n base rels w :
  for_each rels (replay_rename base) (set_next_serial n w)
  = (let (r, w') := for_each rels (replay_rename base) w in
     (r, set_next_serial n w')).
Proof.
  revert w. apply serial_blind_for_each. intros rel. unfold replay_rename.
  destruct (endswith rel "-tmp").
  - apply serial_blind_bind; [apply serial_blind_os_path_exists|].
    intros tmp_exists. destruct tmp_exists; [apply serial_blind_rename|].
    apply serial_blind_bind; [apply serial_blind_os_path_exists|].
    intros []; intros w; reflexivity.
  - apply serial_blind_try_except;
      [apply serial_blind_os_remove | apply serial_blind_ret].
Qed.

(** X11.  A crash after the changelog entry.  For a commit that would succeed,
    with a rename plan in which no path is the destination of one of its
    renames: whatever the number [k] of renames carried out before the
    crash, the crash recovery of the next start, with [next_serial] set
    after the serial of the entry, leaves the files the complete commit
    leaves. *)
Theorem restart_completes_commit (w w' : World) (k : nat) :
  FSWriter_exit None w = (Ok tt, w') ->
  (forall e, changelog w' !! next_serial w = Some e ->
             rename_plan_ok (basedir w) e.2) ->
  0 <= next_serial w ->
  exists ws rels out_k w_k w'',
    stage_dirty_files w = (Ok tt, ws)
    /\ changelog w' !! next_serial w = Some (changes (fswriter w), rels)
    /\ commit_renames (basedir w) (take k rels)
         (emit (EvChangelog (next_serial w) (changes (fswriter w), rels))
            (set_changelog
               (<[next_serial w := (changes (fswriter w), rels)]> (changelog w)) ws))
       = (Ok out_k, w_k)
    /\ crash_recovery (set_next_serial (next_serial w + 1) w_k) = (Ok tt, w'')
    /\ files w'' = files w' /\ changelog w'' = changelog w'
    /\ next_serial w'' = next_serial w'.
Proof.
  intros Hexit Hplan Hpos.
  apply FSWriter_exit_commit_inv in Hexit
    as (ws & rels & out & wr & Hstage & Hren & Hf & Hb & Hn & Hl).
  assert (Hp : rename_plan_ok (basedir w) rels).
  { apply (Hplan (changes (fswriter w), rels)). rewrite Hl. apply lookup_insert_eq. }
  pose proof (stage_dirty_files_steps _ _ _ Hstage) as [(S1 & S2 & S3 & S4 & _) _].
  unfold commit_renames in Hren.
  match type of Hren with commit_renames_from _ _ _ _ ?wc0 = _ =>
    set (wc := wc0) in * end.
  assert (Hren' : commit_renames_from (basedir w) (take k rels ++ drop k rels)
                    [] [] wc = (Ok out, wr)) by (now rewrite take_drop).
  apply commit_renames_from_prefix in Hren' as (out_k & w_k & Hk & Hrest).
  subst wc.
  pose proof (commit_renames_from_steps _ _ _ _ _ _ _ Hk) as [(T1 & T2 & T3 & T4 & _) _].
  pose proof (commit_as_replay _ _ _ _ _ _ _ Hk) as Hk'.
  pose proof (commit_as_replay _ _ _ _ _ _ _ Hrest) as Hrest'.
  pose proof (commit_renames_from_steps _ _ _ _ _ _ _ Hrest) as [(U1 & U2 & U3 & U4 & _) _].
  cbn [next_serial changelog basedir db_index emit set_changelog] in *.
  set (w0 := set_next_serial (next_serial w + 1) w_k).
  assert (Hsettled : forall rel, rel ∈ take k rels ->
                                 settled (basedir w) (files w0) rel).
  { assert (Hsub : forall rel, rel ∈ take k rels -> rel ∈ rels).
    { intros rel Hin. rewrite <- (take_drop k rels). apply elem_of_app. now left. }
    pose proof (replay_all_ok (basedir w) rels Hp (take k rels) _ _ Hsub Hk')
      as [Hset _].
    intros rel Hin. change (files w0) with (files w_k). now apply Hset. }
  assert (Hfirst : for_each (take k rels) (replay_rename (basedir w)) w0 = (Ok tt, w0))
    by now apply replay_all_settled.
  exists ws, rels, out_k, w_k, (set_next_serial (next_serial w + 1) wr).
  split; [exact Hstage|]. split; [rewrite Hl; apply lookup_insert_eq|].
  split; [exact Hk|]. split.
  - unfold crash_recovery. run_m. cbn [next_serial set_next_serial].
    destruct (0 <? next_serial w + 1)%Z eqn:E; [|apply Z.ltb_ge in E; lia].
    replace (next_serial w + 1 - 1) with (next_serial w) by lia.
    cbn [changelog basedir set_next_serial]. rewrite T3, lookup_insert_eq, T4, S4.
    cbn [snd]. rewrite check_pending_renames_unfold.
    rewrite <- (take_drop k rels) at 1. rewrite for_each_app. unfold bind.
    fold w0. rewrite Hfirst. unfold w0.
    rewrite (check_pending_renames_serial (next_serial w + 1) (basedir w)
               (drop k rels) w_k).
    rewrite Hrest'. reflexivity.
  - cbn [files changelog next_serial set_next_serial].
    split; [now rewrite Hf|]. split; [|lia].
    rewrite Hl, U3, T3. reflexivity.
Qed.

(** ** The write lock *)

Lemma Transaction_commit_releases tx w r w' :
  write tx = true -> Transaction_commit tx w = (r, w') -> write_lock w' = false.
Proof.
  intros Hw. unfold Transaction_commit. rewrite Hw. cbn [negb].
  destruct (bool_decide (dirty tx = ∅) && bool_decide (dirty_files (tx_conn tx) = ∅)).
  - rewrite Transaction_close_spec, Hw. now intros [= _ <-].
  - unfold try_finally.
    destruct (with_write_transaction _ _ w) as [r0 w0].
    unfold bind. rewrite Transaction_close_spec, Hw. unfold ret.
    now intros [= _ <-].
Qed.

(** X13.  At most one write transaction.  While a write transaction is open the
    write lock is held: a second write transaction does not begin (it
    waits), a read transaction does.  Every outcome of the commit or of the
    rollback of a write transaction leaves the lock free, and the next
    write transaction begins. *)
Theorem single_writer (w w1 : World) (tx : Transaction) :
  Transaction_init None true w = (Ok tx, w1) ->
  write_lock w1 = true
  /\ Transaction_init None true w1 = (Raise WouldBlock, w1)
  /\ (forall at_serial0, exists rtx, Transaction_init at_serial0 false w1 = (Ok rtx, w1))
  /\ (forall tx' r w2,
        write tx' = true ->
        Transaction_commit tx' w1 = (r, w2) \/ Transaction_rollback tx' w1 = (r, w2) ->
        write_lock w2 = false
        /\ exists tx2, Transaction_init None true w2 = (Ok tx2, set_write_lock true w2)).
Proof.
  intros Hinit.
  assert (Hlock : write_lock w1 = true).
  { revert Hinit. unfold Transaction_init, acquire_write_lock, get_current_serial.
    run_m. simpl. destruct (write_lock w); [discriminate|]. now intros [= _ <-]. }
  assert (Hbegin : forall w2, write_lock w2 = false ->
            exists tx2, Transaction_init None true w2 = (Ok tx2, set_write_lock true w2)).
  { intros w2 H2. unfold Transaction_init, acquire_write_lock, get_current_serial.
    run_m. simpl. rewrite H2. eexists. reflexivity. }
  split; [exact Hlock|]. split; [|split].
  - unfold Transaction_init, acquire_write_lock, get_current_serial.
    run_m. simpl. now rewrite Hlock.
  - intros at_serial0. unfold Transaction_init, get_current_serial. run_m.
    eexists. reflexivity.
  - intros tx' r w2 Hw [Hc|Hr].
    + apply Transaction_commit_releases in Hc; [|exact Hw]. auto.
    + unfold Transaction_rollback in Hr. rewrite Transaction_close_spec, Hw in Hr.
      injection Hr as _ <-. split; [reflexivity|]. now apply Hbegin.
Qed.

(** ** A dirty file whose name ends in -tmp *)


(** ** The view of a transaction *)

Lemma get_value_at_committed (h : list (list op)) (w : World) (k : TypedKey)
    (s : Z) (fuel : nat) :
  committed h w -> (Z.to_nat (next_serial w) < fuel)%nat ->
  get_value_at fuel k s w = (answer (relpath k) (state_after h s !! relpath k), w).
Proof.
  intros Hc Hfuel. apply committed_storage_inv in Hc as Hinv.
  destruct Hinv as (Hn & Hidx & Hlog & Hty).
  unfold state_after. rewrite state_lookup by exact Hty.
  rewrite (last_write_min h _ (Z.to_nat (s + 1))).
  rewrite Nat.min_comm.
  rewrite <- (get_value_at_loop_walk h w (committed_storage_inv _ _ Hc)
                (relpath k) s (length h) fuel) by lia.
  unfold get_value_at, db_read_typedkey. run_m.
  specialize (Hidx (relpath k)).
  destruct (db_index w !! relpath k) as [[nm n]|].
  - destruct (last_write h (relpath k) (length h)) as [[i v]|];
      simpl in Hidx; [|discriminate].
    injection Hidx as ->. reflexivity.
  - destruct (last_write h (relpath k) (length h)) as [[i v]|];
      simpl in Hidx; [discriminate|].
    simpl. destruct fuel; reflexivity.
Qed.

Lemma state_after_app (h later : list (list op)) (s : Z) :
  s < Z.of_nat (length h) -> state_after (h ++ later) s = state_after h s.
Proof.
  intros Hs. unfold state_after. rewrite take_app_le by lia. reflexivity.
Qed.

(** What the storage part of [get] and [exists] finds for the value [o]
    of the snapshot. *)
Lemma storage_read (fuel : nat) (k : TypedKey) (s : Z) (w : World) (o : option pyval) :
  get_value_at fuel k s w = (answer (relpath k) o, w) ->
  try_except (val <- get_value_at fuel k s ;; ret (Some val)) is_KeyError (ret None) w
  = (Ok o, w)
  /\ try_except (get_value_at fuel k s ;;; ret true) is_KeyError (ret false) w
     = (Ok (bool_decide (is_Some o)), w).
Proof.
  intros H. unfold try_except, bind. rewrite H.
  destruct o as [v|]; simpl; split; reflexivity.
Qed.

Lemma run_op_cache_written tx o tx' :
  run_op tx o = Ok tx' -> cache_written tx -> cache_written tx'.
Proof.
  intros Hrun Hc. destruct o as [k v|k|path content]; simpl in Hrun.
  - unfold TypedKey_set, Transaction_set in Hrun.
    destruct (isinstance v (type k)) eqn:Hty; simpl in Hrun; [|discriminate].
    destruct (negb (write tx)); [discriminate|].
    destruct (if bool_decide (type k = TDict) then check_unicode_keys v else Ok tt);
      [|discriminate].
    injection Hrun as <-. intros rel v0. cbn [cache dirty].
    rewrite set_add_lookup.
    destruct (decide (rel = relpath k)) as [->|Hne].
    + rewrite lookup_insert_eq. intros [= <-].
      split; [destruct (dirty tx !! relpath k); eauto|].
      eauto using isinstance_not_none.
    + rewrite lookup_insert_ne by done. intros Hv.
      destruct (Hc _ _ Hv) as [[k0 Hd] Hn]. rewrite Hd. eauto.
  - unfold TypedKey_delete, Transaction_delete in Hrun.
    destruct (negb (write tx)); [discriminate|].
    injection Hrun as <-. intros rel v0. cbn [cache dirty].
    rewrite set_add_lookup.
    destruct (decide (rel = relpath k)) as [->|Hne].
    + now rewrite lookup_delete_eq.
    + rewrite lookup_delete_ne by done. intros Hv.
      destruct (Hc _ _ Hv) as [[k0 Hd] Hn]. rewrite Hd. eauto.
  - injection Hrun as <-. exact Hc.
Qed.

Lemma run_ops_cache_written ops : forall tx tx',
  run_ops tx ops = Ok tx' -> cache_written tx -> cache_written tx'.
Proof.
  induction ops as [|o ops IH]; intros tx tx' Hrun Hc.
  - now injection Hrun as <-.
  - simpl in Hrun. destruct (run_op tx o) as [tx1|e] eqn:Ho; [|discriminate].
    eauto using run_op_cache_written.
Qed.

Lemma run_ops_at_serial ops : forall tx tx',
  run_ops tx ops = Ok tx' -> at_serial tx' = at_serial tx.
Proof.
  induction ops as [|o ops IH]; intros tx tx' Hrun.
  - now injection Hrun as <-.
  - simpl in Hrun. destruct (run_op tx o) as [tx1|e] eqn:Ho; [|discriminate].
    rewrite (IH _ _ Hrun). clear IH Hrun.
    destruct o as [k v|k|path content]; simpl in Ho.
    + unfold TypedKey_set, Transaction_set in Ho.
      destruct (negb (isinstance v (type k))); [discriminate|].
      destruct (negb (write tx)); [discriminate|].
      destruct (if bool_decide (type k = TDict) then check_unicode_keys v else Ok tt);
        [|discriminate].
      now injection Ho as <-.
    + unfold TypedKey_delete, Transaction_delete in Ho.
      destruct (negb (write tx)); [discriminate|]. now injection Ho as <-.
    + now injection Ho as <-.
Qed.

(** X14.  Read your writes.  In a write transaction begun on a committed
    history, after any sequence of [set] and [delete], [get] of a key
    returns the value these operations leave on top of the state at the
    snapshot, or the empty instance of the type of the key when they leave
    none, and [exists] tells which of the two it is. *)
Theorem read_your_writes (h : list (list op)) (w w1 : World) (tx tx' : Transaction)
    (ops : list op) (k : TypedKey) (readonly : bool) (fuel : nat) :
  committed h w ->
  Transaction_init None true w = (Ok tx, w1) ->
  run_ops tx ops = Ok tx' ->
  (Z.to_nat (next_serial w) < fuel)%nat ->
  let view := foldl kv_apply (state_after h (next_serial w - 1)) ops in
  (exists tx'',
     Transaction_get fuel tx' k readonly w1
     = (Ok (default (type_call (type k)) (view !! relpath k), tx''), w1))
  /\ Transaction_exists fuel tx' k w1
     = (Ok (bool_decide (is_Some (view !! relpath k))), w1).
Proof.
  intros Hc Hinit Hops Hfuel view.
  pose proof (Transaction_init_write _ _ _ Hinit) as (Hh & Hat & Hn1 & Hi1 & Hl1).
  assert (Hc1 : committed h w1) by (eapply committed_frame; eassumption).
  assert (Hcw : cache_written tx).
  { revert Hinit. unfold Transaction_init, acquire_write_lock, get_current_serial.
    run_m. simpl. destruct (write_lock w); [discriminate|].
    intros [= <- <-] rel v. cbn [cache]. now rewrite lookup_empty. }
  pose proof (run_ops_cache_written _ _ _ Hops Hcw) as Hcw'.
  pose proof (run_ops_at_serial _ _ _ Hops) as Hat'.
  destruct (run_ops_holds _ _ _ _ Hops Hh) as [(Hw & Hwf & Hdom & Hval) Hty].
  fold (write_set ops) in *.
  assert (Hview : view !! relpath k
                  = overlay (write_set ops) (state_after h (next_serial w - 1))
                      (relpath k)).
  { unfold view, write_set. symmetry. now apply overlay_ops. }
  assert (Hread := get_value_at_committed h w1 k (at_serial tx') fuel Hc1).
  rewrite Hn1 in Hread. specialize (Hread Hfuel).
  rewrite Hat', Hat in Hread.
  apply storage_read in Hread as [Hget Hex].
  unfold Transaction_get, Transaction_exists. rewrite Hview. unfold overlay.
  destruct (cache tx' !! relpath k) as [v|] eqn:Hcache.
  - destruct (Hcw' _ _ Hcache) as [[k0 Hd] Hnone].
    destruct (write_set ops !! relpath k) as [v'|] eqn:Hws;
      [|apply Hdom in Hws; congruence].
    specialize (Hval _ _ Hws). rewrite Hcache in Hval. simpl in Hval. subst v'.
    rewrite Hnone. simpl. split; [eauto | reflexivity].
  - rewrite (bool_decide_false (is_Some None)) by (intros [? ?]; discriminate).
    destruct (dirty tx' !! relpath k) as [k0|] eqn:Hd.
    + destruct (write_set ops !! relpath k) as [v'|] eqn:Hws;
        [|apply Hdom in Hws; congruence].
      specialize (Hval _ _ Hws). rewrite Hcache in Hval. simpl in Hval. subst v'.
      rewrite bool_decide_true by eauto. simpl. unfold bind, ret.
      split; [eauto | reflexivity].
    + apply Hdom in Hd. rewrite Hd.
      rewrite bool_decide_false by (intros [? ?]; discriminate).
      rewrite Hat', Hat. unfold bind at 1. rewrite Hget, Hex.
      split; [|reflexivity].
      destruct (state_after h (next_serial w - 1) !! relpath k); simpl; eauto.
Qed.

Lemma Transaction_get_snapshot (h later : list (list op)) (tx : Transaction)
    (w2 : World) (k : TypedKey) (readonly : bool) (fuel : nat) :
  reads_snapshot h tx -> committed (h ++ later) w2 ->
  (Z.to_nat (next_serial w2) < fuel)%nat ->
  (exists tx',
     Transaction_get fuel tx k readonly w2
     = (Ok (default (type_call (type k))
              (state_after h (at_serial tx) !! relpath k), tx'), w2)
     /\ reads_snapshot h tx')
  /\ Transaction_exists fuel tx k w2
     = (Ok (bool_decide (is_Some (state_after h (at_serial tx) !! relpath k))), w2).
Proof.
  intros (Hd & Hat & Hcache) Hc Hfuel.
  pose proof (get_value_at_committed _ _ k (at_serial tx) fuel Hc Hfuel) as Hread.
  rewrite state_after_app in Hread by exact Hat.
  apply storage_read in Hread as [Hget Hex].
  unfold Transaction_get, Transaction_exists.
  destruct (cache tx !! relpath k) as [v|] eqn:Hv.
  - rewrite (Hcache _ _ Hv). simpl.
    split; [exists tx; split; [reflexivity | repeat split; assumption]|].
    reflexivity.
  - rewrite (bool_decide_false (is_Some None)) by (intros [? ?]; discriminate).
    rewrite Hd, lookup_empty.
    rewrite (bool_decide_false (is_Some None)) by (intros [? ?]; discriminate).
    unfold bind at 1. rewrite Hget, Hex. split; [|reflexivity].
    destruct (state_after h (at_serial tx) !! relpath k) as [v|] eqn:Hs; simpl.
    + eexists. split; [reflexivity|]. repeat split; cbn [dirty at_serial cache];
        try assumption.
      intros rel v0. destruct (decide (rel = relpath k)) as [->|Hne].
      * rewrite lookup_insert_eq. now intros [= <-].
      * rewrite lookup_insert_ne by done. apply Hcache.
    + exists tx. split; [reflexivity | repeat split; assumption].
Qed.

(** X15.  Snapshot isolation.  A read transaction begun on a committed history
    [h], at the current serial or at an earlier one, reads the state of [h]
    at its snapshot, whatever has been committed since: in every storage
    that holds [h] followed by later commits, [get] returns the value of
    the snapshot (the empty instance of the type when there is none),
    [exists] tells whether there is one, and this stays so after every
    [get]. *)
Theorem snapshot_isolation (h : list (list op)) (w w1 : World)
    (at_serial0 : option Z) (tx0 : Transaction) :
  committed h w ->
  Transaction_init at_serial0 false w = (Ok tx0, w1) ->
  match at_serial0 with Some s => s < next_serial w | None => True end ->
  reads_snapshot h tx0
  /\ forall (tx : Transaction) (later : list (list op)) (w2 : World) (k : TypedKey)
            (readonly : bool) (fuel : nat),
       reads_snapshot h tx -> committed (h ++ later) w2 ->
       (Z.to_nat (next_serial w2) < fuel)%nat ->
       (exists tx',
          Transaction_get fuel tx k readonly w2
          = (Ok (default (type_call (type k))
                   (state_after h (at_serial tx) !! relpath k), tx'), w2)
          /\ reads_snapshot h tx')
       /\ Transaction_exists fuel tx k w2
          = (Ok (bool_decide (is_Some (state_after h (at_serial tx) !! relpath k))),
             w2).
Proof.
  intros Hc Hinit Hat. split.
  - apply committed_storage_inv in Hc as (Hn & _).
    revert Hinit. unfold Transaction_init, get_current_serial. run_m.
    intros [= <- <-]. repeat split; cbn [dirty at_serial cache].
    + destruct at_serial0 as [s|]; simpl; lia.
    + intros rel v. now rewrite lookup_empty.
  - intros tx later w2 k readonly fuel Hs Hc2 Hfuel.
    exact (Transaction_get_snapshot h later tx w2 k readonly fuel Hs Hc2 Hfuel).
Qed.

Lemma Transaction_get_frame fuel tx k readonly w v tx1 w' :
  Transaction_get fuel tx k readonly w = (Ok (v, tx1), w') ->
  write tx1 = write tx /\ dirty tx1 = dirty tx.
Proof.
  unfold Transaction_get.
  destruct (cache tx !! relpath k); [now intros [= _ <- _]|].
  intros H. apply bind_inv in H as [(found & w1 & _ & H)|(e & _ & [=])].
  destruct found; now injection H as _ <- _.
Qed.

(** X16.  [with key.update() as val: body]: when the body raises, the key is
    not marked dirty; when it returns, the key is dirty and holds the value
    of the body, which [get] returns from then on. *)
Theorem update_sets_on_success (fuel : nat) (k : TypedKey)
    (body : pyval -> result pyval) (tx tx1 : Transaction) (v : pyval)
    (w w' : World) :
  write tx = true ->
  Transaction_get fuel tx k false w = (Ok (v, tx1), w') ->
  (forall e, body v = Raise e ->
     TypedKey_update fuel k body tx w = (Ok (tx1, Some e), w')
     /\ dirty tx1 = dirty tx)
  /\ (forall v', body v = Ok v' ->
        isinstance v' (type k) = true -> unicode_keys_ok v' = true ->
        exists tx2,
          TypedKey_update fuel k body tx w = (Ok (tx2, None), w')
          /\ TypedKey_is_dirty k tx2 = true
          /\ forall fuel' readonly w'',
               Transaction_get fuel' tx2 k readonly w'' = (Ok (v', tx2), w'')).
Proof.
  intros Hw Hget.
  assert (Htx1 : write tx1 = true /\ dirty tx1 = dirty tx).
  { destruct (Transaction_get_frame _ _ _ _ _ _ _ _ Hget) as (E1 & E2).
    split; congruence. }
  destruct Htx1 as [Hw1 Hd1].
  split.
  - intros e Hbody. unfold TypedKey_update, bind. rewrite Hget. simpl.
    now rewrite Hbody.
  - intros v' Hbody Hty Huni. unfold TypedKey_update, bind. rewrite Hget. simpl.
    rewrite Hbody. unfold TypedKey_set, Transaction_set. rewrite Hty, Hw1. simpl.
    assert ((if bool_decide (type k = TDict) then check_unicode_keys v' else Ok tt)
            = Ok tt) as ->.
    { destruct (bool_decide (type k = TDict)) eqn:Hdict; [|reflexivity].
      apply bool_decide_eq_true in Hdict. rewrite Hdict in Hty.
      destruct v'; try discriminate Hty. unfold check_unicode_keys.
      now rewrite Huni. }
    eexists. split; [reflexivity|]. split.
    + unfold TypedKey_is_dirty, Transaction_is_dirty. cbn [dirty].
      apply bool_decide_eq_true. rewrite set_add_lookup.
      destruct (dirty tx1 !! relpath k); [eauto|].
      rewrite decide_True by reflexivity. eauto.
    + intros fuel' readonly w''. unfold Transaction_get. cbn [cache].
      now rewrite lookup_insert_eq.
Qed.

(** ** What a parametrized key extracts and builds *)


Lemma app_not_empty (a : string) (c : ascii) : a +:+ String c "" ≠ "".
Proof. destruct a; discriminate. Qed.






(** The round trip of a pattern whose fields are delimited. *)
Lemma params_round_trip (ts : list token) (ty : pytype) (nm : string)
    (m : gmap string string) :
  pattern_ok ts -> legal_params ts m ->
  let key := mkPTypedKey (render ts) ty nm (RxBol :: map token_item ts ++ [RxEol]) in
  PTypedKey_init (render ts) ty nm = Ok key
  /\ PTypedKey_call key m = Ok (mkTypedKey (substitute m ts) ty nm m)
  /\ extract_params key (substitute m ts) = m.
Proof.
  intros Hpat [Hdom' Hval] key. subst key.
  assert (Hdom : forall n, n ∈ fields ts <-> is_Some (m !! n)).
  { intros n. rewrite <- elem_of_dom, Hdom', elem_of_list_to_set. reflexivity. }
  split; [exact (PTypedKey_init_pattern ts ty nm Hpat)|].
  destruct Hpat as (Hok & Hnd & Hdel).
  unfold PTypedKey_call. cbn [pattern p_type p_name].
  rewrite find_no_slash by (intros n v Hv; now apply (Hval n v)).
  rewrite py_format_render; [|exact Hok|intros n Hn; now apply Hdom].
  split; [reflexivity|].
  unfold extract_params, re_match. cbn [rex_reverse relpath].
  cbn [re_match_from].
  change (RxBol :: map token_item ts ++ [RxEol])
    with ([RxBol] ++ (map token_item ts ++ [RxEol])).
  rewrite re_match_render; [|exact Hok|exact Hdel|].
  - apply map_eq. intros x. rewrite groups_lookup.
    destruct (decide (x ∈ fields ts)) as [Hin|Hnin].
    + apply Hdom in Hin as [v Hv]. now rewrite Hv.
    + destruct (m !! x) eqn:Hx; [|reflexivity].
      exfalso. apply Hnin, Hdom. eauto.
  - intros n Hn. apply Hdom in Hn as [v Hv]. exists v.
    destruct (Hval n v Hv) as [Hne Hs]. split; [exact Hv|]. split; [exact Hne|].
    unfold contains_slash in Hs. now apply negb_false_iff in Hs.
Qed.

(** X19.  For a pattern whose fields are delimited, two parameter maps that give
    keys with the same relpath (keys that compare equal) are the same
    map. *)
Theorem call_injective (ts : list token) (ty : pytype) (nm : string)
    (key : PTypedKey) (m1 m2 : gmap string string) (k1 k2 : TypedKey) :
  pattern_ok ts -> legal_params ts m1 -> legal_params ts m2 ->
  PTypedKey_init (render ts) ty nm = Ok key ->
  PTypedKey_call key m1 = Ok k1 -> PTypedKey_call key m2 = Ok k2 ->
  relpath k1 = relpath k2 -> m1 = m2.
Proof.
  intros Hpat H1 H2 Hinit Hk1 Hk2 Hrel.
  destruct (params_round_trip ts ty nm m1 Hpat H1) as (Hi1 & Hc1 & He1).
  destruct (params_round_trip ts ty nm m2 Hpat H2) as (_ & Hc2 & He2).
  rewrite Hi1 in Hinit. injection Hinit as <-.
  rewrite Hc1 in Hk1. injection Hk1 as <-.
  rewrite Hc2 in Hk2. injection Hk2 as <-.
  cbn [relpath] in Hrel. rewrite <- He1, <- He2, Hrel. reflexivity.
Qed.

Lemma contains_brace_render (ts : list token) :
  fields ts ≠ [] -> contains_brace (render ts) = true.
Proof.
  unfold contains_brace. intros Hf. apply negb_true_iff.
  induction ts as [|[c|n] ts IH]; [contradiction| |].
  - simpl. rewrite IH by exact Hf. apply andb_false_r.
  - reflexivity.
Qed.



(** X21.  A pattern that names the same field twice is refused when the key is
    declared: [PTypedKey.__init__] raises [re.error], and so does
    [add_key], which leaves the registry as it was. *)
Theorem duplicate_field_rejected (ts : list token) (ty : pytype) (nm : string)
    (keys : gmap string Key) :
  Forall token_ok ts -> ~ NoDup (fields ts) ->
  PTypedKey_init (render ts) ty nm = Raise ReError
  /\ add_key nm (render ts) ty keys = (Raise ReError, keys).
Proof.
  intros Hok Hdup.
  assert (Hinit : PTypedKey_init (render ts) ty nm = Raise ReError).
  { unfold PTypedKey_init, re_compile.
    rewrite replace_plus_render, braces_sub_render by exact Hok.
    simpl. rewrite re_parse_render by exact Hok. simpl.
    rewrite group_names_anchored, group_names_items.
    rewrite fields_identifiers by exact Hok.
    rewrite bool_decide_false by exact Hdup. reflexivity. }
  split; [exact Hinit|].
  unfold add_key. rewrite contains_brace_render, Hinit; [reflexivity|].
  intros E. apply Hdup. rewrite E. constructor.
Qed.

(** ** The notifier *)

Lemma for_each_total {A} (l : list A) (body : A -> M unit) :
  (forall x w, x ∈ l -> exists w', body x w = (Ok tt, w')) ->
  forall w, exists w', for_each l body w = (Ok tt, w').
Proof.
  induction l as [|x l IH]; intros Hbody w; [eexists; reflexivity|].
  simpl. unfold bind. destruct (Hbody x w) as (w1 & ->); [left|].
  apply IH. intros y w2 Hy. apply Hbody. now right.
Qed.

Lemma handlers_elem (handlers : gmap string (list Subscriber)) keyname sub :
  sub ∈ default [] (handlers !! keyname) ->
  exists subs, handlers !! keyname = Some subs /\ sub ∈ subs.
Proof.
  destruct (handlers !! keyname) as [subs|]; simpl; [eauto | inversion 1].
Qed.

Lemma execute_hooks_total keys handlers serial w :
  changes_derivable keys w serial -> subscribers_raise_exceptions handlers ->
  exists w', _execute_hooks keys handlers serial false w = (Ok tt, w').
Proof.
  intros (e & He & Hkeys) Hsubs. unfold _execute_hooks, bind at 1, get_changes.
  rewrite He. apply for_each_total. intros [rel c] w1 Hin.
  apply elem_of_map_to_list in Hin. specialize (Hkeys _ _ Hin). cbn [fst snd].
  destruct (derive_key keys rel c.1.1) as [key|]; [|discriminate].
  apply for_each_total. intros sub w2 Hsub.
  apply handlers_elem in Hsub as (subs & Hh & Hsub).
  specialize (Hsubs _ _ _ (mkKeyChangeEvent key c.2 serial c.1.2) w2 Hh Hsub).
  unfold try_except.
  destruct (sub (mkKeyChangeEvent key c.2 serial c.1.2) w2) as [[[]|ex] w3];
    [eauto|].
  simpl in Hsubs. rewrite Hsubs. simpl. eauto.
Qed.

Lemma for_each_steps_in {A} (R : World -> World -> Prop) (l : list A) body :
  (forall w, R w w) ->
  (forall w1 w2 w3, R w1 w2 -> R w2 w3 -> R w1 w3) ->
  (forall x w r w', x ∈ l -> body x w = (r, w') -> R w w') ->
  forall w r w', for_each l body w = (r, w') -> R w w'.
Proof.
  intros Hrefl Htrans. induction l as [|x l IH]; intros Hbody w r w' H.
  - injection H as <- <-. apply Hrefl.
  - simpl in H. apply bind_inv in H as [([] & w1 & H1 & H2)|(e & H1 & _)].
    + eapply Htrans; [eapply Hbody; [left | exact H1]|].
      eapply IH; [|exact H2]. intros y ? ? ? Hy. apply Hbody. now right.
    + eapply Hbody; [left | exact H1].
Qed.

Lemma execute_hooks_keeps keys handlers serial raising w r w' :
  subscribers_keep_storage handlers ->
  _execute_hooks keys handlers serial raising w = (r, w') ->
  next_serial w' = next_serial w /\ changelog w' = changelog w.
Proof.
  intros Hkeep. unfold _execute_hooks.
  set (R := fun w w' : World =>
              next_serial w' = next_serial w /\ changelog w' = changelog w).
  assert (Hrefl : forall w, R w w) by (split; reflexivity).
  assert (Htrans : forall w1 w2 w3, R w1 w2 -> R w2 w3 -> R w1 w3)
    by (unfold R; intuition congruence).
  revert w r w'. apply (bind_steps R); [exact Htrans | |].
  { unfold get_changes. intros w r w'.
    destruct (changelog w !! serial); intros [= <- <-]; apply Hrefl. }
  intros changes. apply (for_each_steps R); [exact Hrefl | exact Htrans |].
  intros [rel c] w r w'. cbn [fst snd].
  destruct (derive_key keys rel c.1.1) as [key|ex];
    [|intros [= <- <-]; apply Hrefl].
  apply (for_each_steps_in R); [exact Hrefl | exact Htrans |].
  intros sub w1 r1 w1' Hsub. apply handlers_elem in Hsub as (subs & Hh & Hsub).
  unfold try_except.
  destruct (sub (mkKeyChangeEvent key c.2 serial c.1.2) w1) as [[[]|ex] w2] eqn:Hrun;
    pose proof (Hkeep _ _ _ _ _ _ _ Hh Hsub Hrun) as HR.
  - intros [= <- <-]. exact HR.
  - destruct (is_Exception ex && negb raising); intros [= <- <-]; exact HR.
Qed.

Lemma write_event_serial_spec (self : TxNotificationThread) (n : Z) (w : World) :
  exists w',
    write_event_serial self n w = (Ok tt, w')
    /\ read_event_serial self w' = (Ok n, w')
    /\ next_serial w' = next_serial w /\ changelog w' = changelog w.
Proof.
  unfold write_event_serial, read_event_serial.
  destruct (write_int_to_file_spec (n + 1) (event_serial_path self) w)
    as (w' & Hw & Hf & _ & _ & (Hn & _ & Hl & _)).
  exists w'. split; [exact Hw|]. split; [|auto].
  unfold bind. rewrite (read_int_from_file_present _ _ _ _ Hf).
  unfold ret. do 2 f_equal. lia.
Qed.

Lemma thread_run_loop_catches_up self keys handlers : forall fuel event_serial w,
  subscribers_raise_exceptions handlers -> subscribers_keep_storage handlers ->
  history_derivable keys w event_serial ->
  (Z.to_nat (next_serial w - 1 - event_serial) <= fuel)%nat ->
  exists w',
    thread_run_loop fuel self keys handlers event_serial w
    = (Ok (Z.max event_serial (next_serial w - 1)), w')
    /\ next_serial w' = next_serial w /\ changelog w' = changelog w
    /\ (event_serial < next_serial w - 1 ->
        read_event_serial self w' = (Ok (next_serial w - 1), w')).
Proof.
  induction fuel as [|fuel IH]; intros event_serial w Hexc Hkeep Hder Hfuel.
  - exists w. simpl. unfold bind, get_current_serial, gets.
    destruct (event_serial <? next_serial w - 1)%Z eqn:E;
      [apply Z.ltb_lt in E; lia|].
    apply Z.ltb_ge in E. rewrite Z.max_l by lia.
    split; [reflexivity|]. split; [reflexivity|]. split; [reflexivity | lia].
  - cbn [thread_run_loop]. unfold bind at 1, get_current_serial, gets.
    destruct (event_serial <? next_serial w - 1)%Z eqn:E.
    + apply Z.ltb_lt in E.
      destruct (execute_hooks_total keys handlers (event_serial + 1) w)
        as (w1 & Hhooks); [apply Hder; lia | exact Hexc |].
      destruct (execute_hooks_keeps _ _ _ _ _ _ _ Hkeep Hhooks) as [Hn1 Hl1].
      destruct (write_event_serial_spec self (event_serial + 1) w1)
        as (w2 & Hwrite & Hread & Hn2 & Hl2).
      unfold bind at 1. rewrite Hhooks. unfold bind at 1. rewrite Hwrite.
      destruct (IH (event_serial + 1) w2 Hexc Hkeep) as (w' & Hrun & Hn & Hl & Hcur).
      { intros serial Hs. destruct (Hder serial) as (e & He & Hk); [lia|].
        exists e. split; [|exact Hk]. now rewrite Hl2, Hl1. }
      { rewrite Hn2, Hn1. lia. }
      assert (En : next_serial w2 = next_serial w) by congruence.
      rewrite En in Hrun, Hn, Hcur. exists w'. rewrite Hrun.
      split; [f_equal; f_equal; lia|]. split; [exact Hn|].
      split; [congruence|]. intros _.
      destruct (Z.lt_ge_cases (event_serial + 1) (next_serial w - 1)) as [Hlt|Hge];
        [now apply Hcur|].
      assert (Hw' : w' = w2).
      { revert Hrun. destruct fuel; cbn [thread_run_loop];
          unfold bind, get_current_serial, gets; rewrite En;
          (destruct (event_serial + 1 <? next_serial w - 1)%Z eqn:E2;
           [apply Z.ltb_lt in E2; lia|]); now intros [= _ <-]. }
      subst w'. replace (next_serial w - 1) with (event_serial + 1) by lia.
      exact Hread.
    + apply Z.ltb_ge in E. exists w. rewrite Z.max_l by lia.
      split; [reflexivity|]. split; [reflexivity|]. split; [reflexivity | lia].
Qed.

(** X23.  The notifier catches up.  When every subscriber returns or raises an
    exception and none of them commits, and every change recorded since
    the event serial has a key, [thread_run] comes to its wait with the
    event serial at the current serial (or where it was, when it was ahead);
    when it had to catch up, the event serial it has written is read back
    as the current serial. *)
Theorem notifier_catches_up (self : TxNotificationThread) (keys : gmap string Key)
    (handlers : gmap string (list Subscriber)) (fuel : nat) (event_serial : Z)
    (w : World) :
  read_event_serial self w = (Ok event_serial, w) ->
  subscribers_raise_exceptions handlers -> subscribers_keep_storage handlers ->
  history_derivable keys w event_serial ->
  (Z.to_nat (next_serial w - 1 - event_serial) <= fuel)%nat ->
  exists w',
    thread_run fuel self keys handlers w
    = (Ok (Z.max event_serial (next_serial w - 1)), w')
    /\ next_serial w' = next_serial w /\ changelog w' = changelog w
    /\ (event_serial < next_serial w - 1 ->
        read_event_serial self w' = (Ok (next_serial w - 1), w')).
Proof.
  intros Hread Hexc Hkeep Hder Hfuel. unfold thread_run, bind. rewrite Hread.
  now apply thread_run_loop_catches_up.
Qed.

(** X22.  With [raising] false, the hooks of a serial return whatever the
    subscribers raise: when every change of the entry has a key and every
    subscriber returns or raises an exception, [_execute_hooks] returns. *)
Theorem hooks_swallow_exceptions (keys : gmap string Key)
    (handlers : gmap string (list Subscriber)) (serial : Z) (w : World) :
  changes_derivable keys w serial -> subscribers_raise_exceptions handlers ->
  exists w', _execute_hooks keys handlers serial false w = (Ok tt, w').
Proof. apply execute_hooks_total. Qed.

(** X24.  In order, each serial once.  When no subscriber commits, the loop of
    [thread_run] does what a loop over the serials from the one after the
    event serial to the current serial does, in this order: the hooks of
    the serial are run, then the event serial is written; an exception that
    comes out of the hooks ends both at the same place. *)
Theorem notifier_in_order (self : TxNotificationThread) (keys : gmap string Key)
    (handlers : gmap string (list Subscriber)) (fuel : nat) (event_serial : Z)
    (w : World) :
  subscribers_keep_storage handlers ->
  (Z.to_nat (next_serial w - 1 - event_serial) <= fuel)%nat ->
  thread_run_loop fuel self keys handlers event_serial w
  = (for_each (seqZ (event_serial + 1) (next_serial w - 1 - event_serial))
       (notify_serial self keys handlers) ;;;
     ret (Z.max event_serial (next_serial w - 1))) w.
Proof.
  intros Hkeep. revert event_serial w.
  induction fuel as [|fuel IH]; intros event_serial w Hfuel.
  - simpl. unfold bind at 1, get_current_serial, gets.
    destruct (event_serial <? next_serial w - 1)%Z eqn:E;
      [apply Z.ltb_lt in E; lia|].
    apply Z.ltb_ge in E. rewrite seqZ_nil by lia. rewrite Z.max_l by lia.
    reflexivity.
  - cbn [thread_run_loop]. unfold bind at 1, get_current_serial, gets.
    destruct (event_serial <? next_serial w - 1)%Z eqn:E.
    + apply Z.ltb_lt in E. rewrite seqZ_cons by lia. cbn [for_each].
      unfold notify_serial at 1. unfold bind.
      destruct (_execute_hooks keys handlers (event_serial + 1) false w)
        as [[[]|e] w1] eqn:Hhooks; [|reflexivity].
      destruct (execute_hooks_keeps _ _ _ _ _ _ _ Hkeep Hhooks) as [Hn1 _].
      destruct (write_event_serial_spec self (event_serial + 1) w1)
        as (w2 & Hwrite & _ & Hn2 & _).
      rewrite Hwrite.
      assert (En : next_serial w2 = next_serial w) by congruence.
      rewrite IH by (rewrite En; lia). unfold bind. rewrite En.
      replace (Z.succ (event_serial + 1)) with (event_serial + 1 + 1) by lia.
      replace (Z.pred (next_serial w - 1 - event_serial))
        with (next_serial w - 1 - (event_serial + 1)) by lia.
      replace (Z.max (event_serial + 1) (next_serial w - 1))
        with (Z.max event_serial (next_serial w - 1)) by lia.
      reflexivity.
    + apply Z.ltb_ge in E. rewrite seqZ_nil by lia. rewrite Z.max_l by lia.
      reflexivity.
Qed.

(** ** Replication: import_changes *)

Lemma import_change_spec keys (subs : gmap string ImportSubscriber)
    (item : string * change) typedkey w :
  derive_key keys item.1 item.2.1.1 = Ok (Some typedkey) ->
  subs !! name typedkey = None ->
  import_change keys subs item w = record_set typedkey item.2.2 w.
Proof.
  intros Hk Hsub. unfold import_change. rewrite Hk. cbn beta iota.
  unfold bind. rewrite record_set_spec. unfold ImportSubscriber in *.
  rewrite Hsub. reflexivity.
Qed.

Lemma import_loop_spec keys subs (items : list (string * change)) : forall w,
  NoDup items.*1 ->
  (forall rel c, (rel, c) ∈ items ->
     exists typedkey,
       derive_key keys rel c.1.1 = Ok (Some typedkey)
       /\ relpath typedkey = rel /\ subs !! name typedkey = None) ->
  exists w',
    for_each items (import_change keys subs) w = (Ok tt, w')
    /\ index_steps w w'
    /\ forall rel,
         match (list_to_map items : gmap string change) !! rel with
         | Some c =>
             exists typedkey,
               derive_key keys rel c.1.1 = Ok (Some typedkey)
               /\ db_index w' !! rel = Some (name typedkey, next_serial w)
               /\ changes (fswriter w') !! rel
                  = Some (name typedkey, back_serial_of w rel, c.2)
         | None =>
             db_index w' !! rel = db_index w !! rel
             /\ changes (fswriter w') !! rel = changes (fswriter w) !! rel
         end.
Proof.
  induction items as [|[rel0 c0] items IH]; intros w Hnd Hready.
  - exists w. split; [reflexivity|]. split; [repeat split|].
    intros rel. simpl. rewrite lookup_empty. auto.
  - simpl in Hnd. apply NoDup_cons in Hnd as [Hnotin Hnd].
    destruct (Hready rel0 c0) as (k0 & Hk0 & Hrel0 & Hsub0); [left|].
    cbn [for_each]. unfold bind at 1.
    rewrite (import_change_spec keys subs (rel0, c0) k0 w Hk0 Hsub0).
    rewrite record_set_spec, Hrel0. cbn [fst snd].
    match goal with |- context [for_each items _ ?w1] =>
      destruct (IH w1 Hnd) as (w' & Hrun & Hst & Hmap) end.
    { intros rel c Hin. apply Hready. now right. }
    exists w'. split; [exact Hrun|]. split.
    { unfold index_steps in *. simpl in Hst. intuition congruence. }
    intros rel. specialize (Hmap rel). rewrite list_to_map_cons.
    destruct (decide (rel = rel0)) as [->|Hne].
    + rewrite lookup_insert_eq.
      rewrite (not_elem_of_list_to_map_1 _ _ Hnotin) in Hmap.
      destruct Hmap as [Hi Hc]. exists k0. split; [exact Hk0|].
      split; (etransitivity; [eassumption|]);
        cbn [db_index fswriter changes set_fswriter set_db_index];
        apply lookup_insert_eq.
    + rewrite lookup_insert_ne by done.
      destruct (list_to_map items !! rel) as [c|].
      * destruct Hmap as (k & Hk & Hi & Hc). exists k. split; [exact Hk|].
        split; [exact Hi|]. etransitivity; [exact Hc|]. unfold back_serial_of.
        cbn [db_index set_fswriter set_db_index].
        now rewrite lookup_insert_ne by done.
      * destruct Hmap as [Hi Hc].
        split; (etransitivity; [eassumption|]);
          cbn [db_index fswriter changes set_fswriter set_db_index];
          now apply lookup_insert_ne.
Qed.

(** The scoped exit of a writer that has no file to commit. *)
Lemma FSWriter_exit_no_files w :
  dirty_files (conn (fswriter w)) = ∅ -> pending_renames (fswriter w) = [] ->
  exists w',
    FSWriter_exit None w = (Ok tt, w')
    /\ next_serial w' = next_serial w + 1 /\ db_index w' = db_index w
    /\ changelog w' = <[next_serial w := (changes (fswriter w), [])]> (changelog w)
    /\ files w' = files w /\ write_lock w' = write_lock w.
Proof.
  intros Hd Hp. unfold FSWriter_exit, stage_dirty_files. run_m.
  rewrite Hd, map_to_list_empty. cbn [for_each]. run_m.
  unfold commit_to_filesystem. run_m. rewrite Hp. cbn [make_rel_renames]. run_m.
  unfold write_changelog_entry, commit_renames. run_m.
  cbn [commit_renames_from]. run_m.
  unfold cache_commit_changes, _notify_on_commit. run_m.
  eexists. split; [reflexivity|]. repeat split.
Qed.

Lemma get_value_at_head typedkey w serial keyname back val s fuel :
  db_index w !! relpath typedkey = Some (keyname, serial) ->
  (exists e, changelog w !! serial = Some e
             /\ e.1 !! relpath typedkey = Some (keyname, back, val)) ->
  0 <= serial <= s -> (0 < fuel)%nat ->
  get_value_at fuel typedkey s w
  = (if is_none val then Raise (KeyError (relpath typedkey)) else Ok val, w).
Proof.
  intros Hidx (e & Hlog & Hch) Hs Hfuel.
  unfold get_value_at, db_read_typedkey. run_m. rewrite Hidx. cbn [snd].
  destruct fuel as [|fuel]; [lia|]. cbn [get_value_at_loop].
  destruct (0 <=? serial)%Z eqn:E0; [|apply Z.leb_gt in E0; lia].
  unfold get_changes. run_m. rewrite Hlog, Hch.
  destruct (s <? serial)%Z eqn:E; [apply Z.ltb_lt in E; lia|].
  destruct (is_none val); reflexivity.
Qed.

(** X25.  [import_changes] for a serial that is not the next one raises
    [AssertionError] and imports nothing: the serial, the changelog, the
    index and the files are as before, and the write lock is free again. *)
Theorem import_rejects_wrong_serial (keys : gmap string Key)
    (import_subscriber : gmap string ImportSubscriber) (serial : Z)
    (changes : gmap string change) (w : World) :
  write_lock w = false -> next_serial w ≠ serial ->
  exists w',
    import_changes keys import_subscriber serial changes w
    = (Raise AssertionError, w')
    /\ next_serial w' = next_serial w /\ changelog w' = changelog w
    /\ db_index w' = db_index w /\ files w' = files w
    /\ write_lock w' = false.
Proof.
  intros Hlock Hserial.
  unfold import_changes, with_write_lock, acquire_write_lock. unfold bind at 1.
  rewrite Hlock. unfold try_finally, with_write_transaction, write_transaction.
  run_m. unfold get_next_serial. run_m. cbn [next_serial emit set_fswriter set_write_lock].
  destruct (next_serial w =? serial)%Z eqn:E; [apply Z.eqb_eq in E; contradiction|].
  cbn [assert]. run_m.
  unfold FSWriter_exit, stage_dirty_files. run_m.
  cbn [fswriter conn dirty_files emit set_fswriter set_write_lock].
  rewrite map_to_list_empty. cbn [for_each]. run_m.
  cbn [fswriter pending_renames emit set_fswriter set_write_lock rev
         pop_pending_renames]. run_m.
  eexists. split; [reflexivity|]. repeat split.
Qed.

(** X26.  A replica reads what it has imported.  When the write lock is free,
    the serial is the next one, and every change has a key under its name
    and no import subscriber, [import_changes] commits the changes at this
    serial; from then on [get_value_at] of the key of a change, at any
    serial from this one on, returns the value of the change, and raises
    [KeyError] when the change is a deletion. *)
Theorem import_then_read (keys : gmap string Key)
    (import_subscriber : gmap string ImportSubscriber) (serial : Z)
    (changes : gmap string change) (w : World) :
  write_lock w = false -> next_serial w = serial -> 0 <= serial ->
  import_ready keys import_subscriber changes ->
  exists w',
    import_changes keys import_subscriber serial changes w = (Ok tt, w')
    /\ next_serial w' = serial + 1 /\ write_lock w' = false
    /\ forall rel c typedkey s fuel,
         changes !! rel = Some c ->
         derive_key keys rel c.1.1 = Ok (Some typedkey) ->
         serial <= s -> (0 < fuel)%nat ->
         get_value_at fuel typedkey s w'
         = (if is_none c.2 then Raise (KeyError rel) else Ok c.2, w').
Proof.
  intros Hlock Hserial Hpos Hready.
  unfold import_changes, with_write_lock, acquire_write_lock. unfold bind at 1.
  rewrite Hlock. unfold try_finally, with_write_transaction, write_transaction.
  run_m. unfold get_next_serial. run_m.
  cbn [next_serial emit set_fswriter set_write_lock].
  rewrite Hserial, Z.eqb_refl. cbn [assert]. run_m.
  match goal with |- context [for_each ?l ?b ?w1] =>
    destruct (import_loop_spec keys import_subscriber (map_to_list changes) w1)
      as (wc & Hrun & Hst & Hmap);
      [ apply NoDup_fst_map_to_list
      | intros rel c Hin; apply elem_of_map_to_list in Hin; now apply Hready
      | assert (Hrun' : for_each l b w1 = (Ok tt, wc)) by exact Hrun;
        rewrite Hrun' ]
  end.
  destruct Hst as (Sn & Sl & Sf & St & Sb & Sp & Sc & Sw).
  cbn [next_serial changelog files trace basedir fswriter pending_renames conn
         write_lock emit set_fswriter set_write_lock] in *.
  destruct (FSWriter_exit_no_files wc) as (wa & Hexit & En & Ei & El & Ef & Ew).
  { now rewrite Sc. }
  { exact Sp. }
  rewrite Hexit. run_m. eexists. split; [reflexivity|].
  cbn [next_serial write_lock set_write_lock].
  split; [lia|]. split; [reflexivity|].
  intros rel c typedkey s fuel Hc Hk Hs Hfuel.
  specialize (Hmap rel). rewrite list_to_map_to_list, Hc in Hmap.
  destruct Hmap as (k & Hk' & Hidx & Hch).
  rewrite Hk in Hk'. injection Hk' as <-.
  destruct (Hready _ _ Hc) as (k' & Hk'' & Hrel & _).
  rewrite Hk in Hk''. injection Hk'' as <-. subst rel.
  destruct c as [[keyname back] val]. cbn [fst snd] in *.
  match goal with |- get_value_at _ _ _ ?w2 = _ =>
    rewrite (get_value_at_head typedkey w2 serial (name typedkey)
               (back_serial_of w (relpath typedkey)) val s fuel) end;
    [reflexivity | | | lia | exact Hfuel].
  - cbn [db_index set_write_lock]. rewrite Ei, Hidx, Hserial. reflexivity.
  - cbn [changelog set_write_lock]. rewrite El, Sn, Hserial.
    eexists. split; [apply lookup_insert_eq|]. cbn [fst]. rewrite Hch.
    unfold back_serial_of. reflexivity.
Qed.

(** ** The transaction of the thread *)

(** X27.  The context manager of a transaction.  When the body raises an
    exception with its transaction still open, the transaction is rolled
    back: the exception comes out, no transaction is bound to the thread any
    more, the write lock of a write transaction is released and nothing else
    has changed since the body ended.  When the body returns, the
    transaction is committed as [Transaction.commit] does it; after a commit
    that succeeds no transaction is bound, after a commit that raises the
    closed transaction is still bound to the thread. *)
Theorem transaction_context {A} (readonly for_write : bool) (at_serial0 : option Z)
    (body : Transaction -> K A) (w w1 w2 : World) (tx tx2 : Transaction)
    (r : result A) :
  begin_transaction_in_thread readonly for_write at_serial0 NoTx w
  = (Ok tx, OpenTx tx, w1) ->
  body tx (OpenTx tx) w1 = (r, OpenTx tx2, w2) ->
  match r with
  | Raise e =>
      is_Exception e = true ->
      transaction readonly for_write at_serial0 body NoTx w
      = (Raise e, NoTx, if write tx2 then set_write_lock false w2 else w2)
  | Ok a =>
      match Transaction_commit tx2 w2 with
      | (Ok serial, w3) =>
          transaction readonly for_write at_serial0 body NoTx w = (Ok a, NoTx, w3)
      | (Raise e, w3) =>
          transaction readonly for_write at_serial0 body NoTx w
          = (Raise e, ClosedTx tx2, w3)
      end
  end.
Proof.
  intros Hbegin Hbody. destruct r as [a|e].
  - destruct (Transaction_commit tx2 w2) as [[serial|e] w3] eqn:Hcommit;
      unfold transaction, kbind; rewrite Hbegin, Hbody;
      unfold commit_transaction_in_thread, kbind, tx_commit;
      rewrite Hcommit; reflexivity.
  - intros He. unfold transaction, kbind. rewrite Hbegin, Hbody, He.
    unfold rollback_transaction_in_thread, kbind, tx_rollback.
    unfold Transaction_rollback. rewrite Transaction_close_spec. reflexivity.
Qed.

(** X28.  No nested transactions, and no write transaction in a read-only
    KeyFS: [with keyfs.transaction(...)] raises [AssertionError] while a
    transaction is bound to the thread, and [ReadOnly] for a write
    transaction in a read-only KeyFS; the body is not run, the write lock is
    not taken and the transaction of the thread stays as it is. *)
Theorem no_nested_transaction {A} (readonly for_write : bool) (at_serial0 : option Z)
    (body : Transaction -> K A) (t : threadlocal) (w : World) :
  (readonly = true -> for_write = true ->
   transaction readonly for_write at_serial0 body t w = (Raise ReadOnly, t, w))
  /\ (for_write && readonly = false -> t ≠ NoTx ->
      transaction readonly for_write at_serial0 body t w
      = (Raise AssertionError, t, w)).
Proof.
  unfold transaction, kbind, begin_transaction_in_thread. split.
  - intros -> ->. reflexivity.
  - intros -> Ht. destruct t; [contradiction | reflexivity | reflexivity].
Qed.

(** X29.  [restart_as_write_transaction].  From an open read transaction, with
    the write lock free: the thread holds a fresh write transaction at the
    current serial, with nothing cached and nothing dirty, and the write
    lock is taken; nothing else has changed.  In a read-only KeyFS it raises
    [ReadOnly] and the read transaction stays. *)
Theorem restart_as_write (readonly : bool) (tx : Transaction) (w : World) :
  write tx = false ->
  (readonly = true ->
   restart_as_write_transaction readonly (OpenTx tx) w
   = (Raise ReadOnly, OpenTx tx, w))
  /\ (readonly = false -> write_lock w = false ->
      restart_as_write_transaction readonly (OpenTx tx) w
      = (Ok tt,
         OpenTx (mkTransaction true (next_serial w - 1) ∅ ∅ (mkConnection ∅) None),
         set_write_lock true w)).
Proof.
  intros Hw. unfold restart_as_write_transaction. split.
  - now intros ->.
  - intros -> Hlock. unfold tx_restart, kbind, tx_commit, Transaction_commit.
    rewrite Hw. cbn [negb]. rewrite Transaction_close_spec, Hw.
    unfold Transaction_init, acquire_write_lock, get_current_serial. run_m.
    simpl. rewrite Hlock. reflexivity.
Qed.

(** ** More concrete runs *)

Lemma read_int_from_file_blank_witness :
  files world_blank_cursor !! "/srv/.event_serial" = Some " "
  /\ read_int_from_file "/srv/.event_serial" 0 world_blank_cursor
     = (Raise (ValueError " "), world_blank_cursor).
Proof.
  split; [reflexivity|].
  apply (read_int_from_file_blank "/srv/.event_serial" " " 0 world_blank_cursor);
    reflexivity.
Defined.

Lemma int_file_round_trip_witness :
  write_int_to_file 42 "/srv/serial" world0 = (Ok tt, world_int_written)
  /\ read_int_from_file "/srv/serial" 0 world_int_written = (Ok 42, world_int_written).
Proof.
  assert (Hrun : write_int_to_file 42 "/srv/serial" world0 = (Ok tt, world_int_written))
    by (vm_compute; reflexivity).
  split; [exact Hrun|].
  exact (proj1 (int_file_round_trip 42 0 "/srv/serial" world0 world_int_written Hrun)).
Defined.



Lemma rel_renames_resolve_witness :
  exists rels,
    make_rel_renames "/srv"
      [(Some "/srv/pkgs/a.tar-tmp", "/srv/pkgs/a.tar"); (None, "/srv/old")] world0
    = (Ok rels, world0)
    /\ map (os_path_join "/srv") rels = ["/srv/pkgs/a.tar-tmp"; "/srv/old"].
Proof.
  destruct (rel_renames_resolve "/srv"
              [(Some "/srv/pkgs/a.tar-tmp", "/srv/pkgs/a.tar"); (None, "/srv/old")]
              world0) as (rels & Hrun & Hjoin & _).
  - discriminate.
  - reflexivity.
  - repeat constructor.
    + exists "pkgs/a.tar". repeat split. now right.
    + exists "old". repeat split. now left.
  - exists rels. split; [exact Hrun | exact Hjoin].
Defined.

Lemma commit_installs_files_witness :
  FSWriter_exit None world_staged = (Ok tt, world_installed)
  /\ files world_installed !! "/srv/pkgs/a.tar" = Some "DATA"
  /\ files world_installed !! "/srv/pkgs/a.tar-tmp" = None.
Proof.
  assert (Hexit : FSWriter_exit None world_staged = (Ok tt, world_installed))
    by (vm_compute; reflexivity).
  split; [exact Hexit|].
  destruct (commit_installs_files world_staged world_installed) as (Hwritten & _).
  - discriminate.
  - reflexivity.
  - reflexivity.
  - intros path c Hpath. exists "pkgs/a.tar".
    change (dirty_files (conn (fswriter world_staged)))
      with ({[ "/srv/pkgs/a.tar" := Some "DATA" ]} : gmap string (option string))
      in Hpath.
    apply lookup_singleton_Some in Hpath as [<- _]. repeat split.
  - exact Hexit.
  - apply (Hwritten "/srv/pkgs/a.tar" "DATA"). reflexivity.
Defined.

Lemma commit_world_crashed :
  commit_renames "/srv" ["f-tmp"; "old"] world_crashed
  = (Ok (["f"], ["old"]), world_committed).
Proof. vm_compute. reflexivity. Defined.

Lemma recovery_completes_commit_witness :
  rename_plan_ok "/srv" ["f-tmp"; "old"]
  /\ commit_renames "/srv" ["f-tmp"; "old"] world_crashed
     = (Ok (["f"], ["old"]), world_committed)
  /\ exists out_k w_k,
       commit_renames "/srv" (take 1 ["f-tmp"; "old"]) world_crashed
       = (Ok out_k, w_k)
       /\ check_pending_renames "/srv" ["f-tmp"; "old"] w_k
          = (Ok tt, world_committed).
Proof.
  split; [exact plan_world_crashed|]. split; [exact commit_world_crashed|].
  exact (recovery_completes_commit "/srv" ["f-tmp"; "old"] 1 world_crashed _ _
           plan_world_crashed commit_world_crashed).
Defined.

Lemma crash_recovery_after_commit_witness :
  FSWriter_exit None world_staged = (Ok tt, world_exit_ok)
  /\ crash_recovery world_exit_ok = (Ok tt, world_exit_ok).
Proof.
  split; [exact exit_world_staged|].
  apply (crash_recovery_after_commit world_staged world_exit_ok exit_world_staged).
  intros e He. vm_compute in He. injection He as <-.
  unfold rename_plan_ok. repeat constructor.
  intros _ Hin. vm_compute in Hin.
  repeat (apply elem_of_cons in Hin as [Hin|Hin]; [discriminate Hin|]).
  inversion Hin.
Defined.

Lemma commit_tx_outside :
  Transaction_commit tx_outside (set_write_lock true world0)
  = (Raise AssertionError, world_failed_commit).
Proof. vm_compute. reflexivity. Defined.

Lemma failed_commit_keeps_serial_witness :
  Transaction_commit tx_outside (set_write_lock true world0)
  = (Raise AssertionError, world_failed_commit)
  /\ next_serial world_failed_commit = 0
  /\ write_lock world_failed_commit = false.
Proof.
  split; [exact commit_tx_outside|].
  destruct (failed_commit_keeps_serial _ _ _ _ commit_tx_outside) as (Hn & Hl & _).
  split; [exact Hn | exact Hl].
Defined.

Lemma read_your_writes_witness :
  committed [[OpSet key_alice val_alice]] world_set
  /\ (exists tx'',
        Transaction_get 2 (mkTransaction true 0 ∅ {[ "users/alice" := key_alice ]}
                             (mkConnection ∅) None)
          key_alice true (set_write_lock true world_set)
        = (Ok (PyDict [], tx''), set_write_lock true world_set))
  /\ Transaction_exists 2 (mkTransaction true 0 ∅ {[ "users/alice" := key_alice ]}
                             (mkConnection ∅) None)
       key_alice (set_write_lock true world_set)
     = (Ok false, set_write_lock true world_set).
Proof.
  assert (Hinit : Transaction_init None true world_set
                  = (Ok (mkTransaction true 0 ∅ ∅ (mkConnection ∅) None),
                     set_write_lock true world_set))
    by (vm_compute; reflexivity).
  assert (Hops : run_ops (mkTransaction true 0 ∅ ∅ (mkConnection ∅) None)
                   [OpDelete key_alice]
                 = Ok (mkTransaction true 0 ∅ {[ "users/alice" := key_alice ]}
                         (mkConnection ∅) None))
    by (vm_compute; reflexivity).
  split; [exact committed_world_set|].
  exact (read_your_writes _ world_set _ _ _ [OpDelete key_alice] key_alice true 2
           committed_world_set Hinit Hops ltac:(vm_compute; lia)).
Defined.

Lemma snapshot_isolation_witness :
  committed [[OpSet key_alice val_alice]] world_set
  /\ committed ([[OpSet key_alice val_alice]] ++ [[OpDelete key_alice]]) world_deleted
  /\ (exists tx',
        Transaction_get 3 (mkTransaction false 0 ∅ ∅ (mkConnection ∅) None)
          key_alice true world_deleted
        = (Ok (val_alice, tx'), world_deleted))
  /\ Transaction_exists 3 (mkTransaction false 0 ∅ ∅ (mkConnection ∅) None)
       key_alice world_deleted
     = (Ok true, world_deleted).
Proof.
  assert (Hinit : Transaction_init None false world_set
                  = (Ok (mkTransaction false 0 ∅ ∅ (mkConnection ∅) None), world_set))
    by (vm_compute; reflexivity).
  destruct (snapshot_isolation _ world_set world_set None _
              committed_world_set Hinit I) as [Hsnap Hreads].
  destruct (Hreads _ [[OpDelete key_alice]] world_deleted key_alice true 3%nat
              Hsnap committed_world_deleted ltac:(vm_compute; lia))
    as [(tx' & Hget & _) Hex].
  split; [exact committed_world_set|]. split; [exact committed_world_deleted|].
  split; [exists tx'; exact Hget | exact Hex].
Defined.

Lemma update_sets_on_success_witness :
  exists tx2,
    TypedKey_update 2 key_alice (fun _ => Ok (PyDict [(PyText "email", PyText "b@x")]))
      (mkTransaction true 0 ∅ ∅ (mkConnection ∅) None)
      (set_write_lock true world_set)
    = (Ok (tx2, None), set_write_lock true world_set)
    /\ TypedKey_is_dirty key_alice tx2 = true.
Proof.
  destruct (update_sets_on_success 2 key_alice
              (fun _ => Ok (PyDict [(PyText "email", PyText "b@x")]))
              (mkTransaction true 0 ∅ ∅ (mkConnection ∅) None)
              (mkTransaction true 0 {[ "users/alice" := val_alice ]} ∅
                 (mkConnection ∅) None)
              val_alice (set_write_lock true world_set)
              (set_write_lock true world_set) eq_refl)
    as [_ Hok]; [vm_compute; reflexivity|].
  destruct (Hok _ eq_refl eq_refl eq_refl) as (tx2 & Hrun & Hdirty & _).
  exists tx2. split; [exact Hrun | exact Hdirty].
Defined.

Lemma pattern_ok_users : pattern_ok users_pattern.
Proof.
  split; [repeat constructor|]. split; [|simpl; tauto]. apply NoDup_singleton.
Defined.

Lemma legal_params_users (v : string) :
  v ≠ "" -> contains_slash v = false -> legal_params users_pattern {[ "u" := v ]}.
Proof.
  intros Hne Hs. split; [vm_compute; reflexivity|].
  apply map_Forall_singleton. split; assumption.
Defined.


Lemma call_injective_witness :
  PTypedKey_init (render users_pattern) TDict "USER" = Ok users_key
  /\ PTypedKey_call users_key {[ "u" := "alice" ]} = Ok users_alice_key
  /\ ({[ "u" := "alice" ]} : gmap string string) = {[ "u" := "alice" ]}.
Proof.
  assert (Hinit : PTypedKey_init (render users_pattern) TDict "USER" = Ok users_key)
    by (vm_compute; reflexivity).
  assert (Hcall : PTypedKey_call users_key {[ "u" := "alice" ]} = Ok users_alice_key)
    by (vm_compute; reflexivity).
  split; [exact Hinit|]. split; [exact Hcall|].
  apply (call_injective users_pattern TDict "USER" users_key _ _
           users_alice_key users_alice_key pattern_ok_users);
    try assumption; try reflexivity;
    apply legal_params_users; (discriminate || reflexivity).
Defined.


Lemma changes_derivable_world_set : changes_derivable keys_alice world_set 0.
Proof.
  exists (changes_alice, []). split; [vm_compute; reflexivity|].
  intros rel c Hc. cbn [fst] in Hc. unfold changes_alice in Hc.
  apply lookup_singleton_Some in Hc as [<- <-]. reflexivity.
Defined.

Lemma handlers_alice_raise : subscribers_raise_exceptions handlers_alice.
Proof.
  intros keyname subs sub ev w Hh Hin. unfold handlers_alice in Hh.
  apply lookup_singleton_Some in Hh as [<- <-].
  apply list_elem_of_singleton in Hin as ->. reflexivity.
Defined.

Lemma handlers_alice_keep : subscribers_keep_storage handlers_alice.
Proof.
  intros keyname subs sub ev w r w' Hh Hin Hrun. unfold handlers_alice in Hh.
  apply lookup_singleton_Some in Hh as [<- <-].
  apply list_elem_of_singleton in Hin as ->. injection Hrun as _ <-.
  split; reflexivity.
Defined.

Lemma hooks_swallow_exceptions_witness :
  exists w', _execute_hooks keys_alice handlers_alice 0 false world_set = (Ok tt, w').
Proof.
  exact (hooks_swallow_exceptions keys_alice handlers_alice 0 world_set
           changes_derivable_world_set handlers_alice_raise).
Defined.

Lemma notifier_catches_up_witness :
  exists w',
    thread_run 1 notifier keys_alice handlers_alice world_set = (Ok 0, w')
    /\ read_event_serial notifier w' = (Ok 0, w').
Proof.
  destruct (notifier_catches_up notifier keys_alice handlers_alice 1 (-1) world_set)
    as (w' & Hrun & _ & _ & Hread).
  - vm_compute. reflexivity.
  - exact handlers_alice_raise.
  - exact handlers_alice_keep.
  - intros serial Hs.
    assert (E : next_serial world_set = 1) by (vm_compute; reflexivity).
    rewrite E in Hs. assert (serial = 0) as -> by lia.
    exact changes_derivable_world_set.
  - vm_compute. lia.
  - exists w'. split; [exact Hrun|]. apply Hread. vm_compute. reflexivity.
Defined.

Lemma notifier_in_order_witness :
  thread_run_loop 1 notifier keys_alice handlers_alice (-1) world_set
  = (for_each [0] (notify_serial notifier keys_alice handlers_alice) ;;; ret 0)
      world_set.
Proof.
  exact (notifier_in_order notifier keys_alice handlers_alice 1 (-1) world_set
           handlers_alice_keep ltac:(vm_compute; lia)).
Defined.

Lemma import_rejects_wrong_serial_witness :
  exists w',
    import_changes keys_alice ∅ 0 changes_alice world_set
    = (Raise AssertionError, w')
    /\ next_serial w' = 1 /\ changelog w' = changelog world_set.
Proof.
  destruct (import_rejects_wrong_serial keys_alice ∅ 0 changes_alice world_set)
    as (w' & Hrun & Hn & Hl & _).
  - reflexivity.
  - vm_compute. discriminate.
  - exists w'. split; [exact Hrun|]. split; [exact Hn | exact Hl].
Defined.

Lemma import_then_read_witness :
  exists w',
    import_changes keys_alice ∅ 0 changes_alice world0 = (Ok tt, w')
    /\ next_serial w' = 1
    /\ get_value_at 1 key_alice 0 w' = (Ok val_alice, w').
Proof.
  destruct (import_then_read keys_alice ∅ 0 changes_alice world0)
    as (w' & Hrun & Hn & _ & Hread).
  - reflexivity.
  - reflexivity.
  - lia.
  - intros rel c Hc. unfold changes_alice in Hc.
    apply lookup_singleton_Some in Hc as [<- <-].
    exists key_alice. repeat split.
  - exists w'. split; [exact Hrun|]. split; [exact Hn|].
    apply (Hread "users/alice" ("USER", -1, val_alice) key_alice 0 1%nat);
      [reflexivity | reflexivity | lia | lia].
Defined.

Lemma transaction_context_witness :
  transaction false true None body_set_and_fail NoTx world0
  = (Raise TypeError, NoTx, world0).
Proof.
  exact (transaction_context false true None body_set_and_fail world0
           (set_write_lock true world0) (set_write_lock true world0)
           empty_write_tx tx_alice_set (Raise TypeError) eq_refl eq_refl eq_refl).
Defined.

Lemma no_nested_transaction_witness :
  transaction true true None body_set_and_fail NoTx world0
  = (Raise ReadOnly, NoTx, world0)
  /\ transaction false true None body_set_and_fail (OpenTx read_tx) world0
     = (Raise AssertionError, OpenTx read_tx, world0).
Proof.
  destruct (no_nested_transaction true true None body_set_and_fail NoTx world0)
    as [Hro _].
  destruct (no_nested_transaction false true None body_set_and_fail
              (OpenTx read_tx) world0) as [_ Hnested].
  split; [apply Hro; reflexivity | apply Hnested; [reflexivity | discriminate]].
Defined.

Lemma restart_as_write_witness :
  restart_as_write_transaction false (OpenTx read_tx) world_set
  = (Ok tt, OpenTx (mkTransaction true 0 ∅ ∅ (mkConnection ∅) None),
     set_write_lock true world_set).
Proof.
  destruct (restart_as_write false read_tx world_set eq_refl) as [_ Hrw].
  exact (Hrw eq_refl eq_refl).
Defined.

Lemma only_temp_files_before_commit_witness :
  FSWriter_exit (Some TypeError) world_staged = (Ok tt, world_exit_err)
  /\ files world_exit_err !! "/srv/pkgs/a.tar" = files world_staged !! "/srv/pkgs/a.tar".
Proof.
  split; [exact rollback_world_staged|].
  destruct (only_temp_files_before_commit world_staged) as [_ Hrollback].
  apply (Hrollback TypeError (Ok tt) world_exit_err eq_refl rollback_world_staged).
  intros p E. apply (f_equal (fun s => endswith s "-tmp")) in E.
  rewrite endswith_app in E. vm_compute in E. discriminate E.
Defined.

Lemma plan_world_staged :
  forall e, changelog world_exit_ok !! next_serial world_staged = Some e ->
            rename_plan_ok (basedir world_staged) e.2.
Proof.
  intros e He. vm_compute in He. injection He as <-.
  unfold rename_plan_ok. repeat constructor.
  intros _ Hin. vm_compute in Hin.
  repeat (apply elem_of_cons in Hin as [Hin|Hin]; [discriminate Hin|]).
  inversion Hin.
Defined.

Lemma restart_completes_commit_witness :
  FSWriter_exit None world_staged = (Ok tt, world_exit_ok)
  /\ exists w_k w'',
       crash_recovery (set_next_serial 1 w_k) = (Ok tt, w'')
       /\ files w_k !! "/srv/pkgs/a.tar" = None
       /\ files w'' = files world_exit_ok.
Proof.
  split; [exact exit_world_staged|].
  destruct (restart_completes_commit world_staged world_exit_ok 0
              exit_world_staged plan_world_staged ltac:(vm_compute; discriminate))
    as (ws & rels & out_k & w_k & w'' & Hstage & _ & Hk & Hrec & Hf & _).
  exists w_k, w''. split; [exact Hrec|]. split; [|exact Hf].
  assert (Hws : ws = (stage_dirty_files world_staged).2) by now rewrite Hstage.
  injection Hk as _ <-. subst ws. vm_compute. reflexivity.
Defined.

Lemma single_writer_witness :
  Transaction_init None true world0 = (Ok empty_write_tx, set_write_lock true world0)
  /\ Transaction_init None true (set_write_lock true world0)
     = (Raise WouldBlock, set_write_lock true world0).
Proof.
  assert (Hinit : Transaction_init None true world0
                  = (Ok empty_write_tx, set_write_lock true world0))
    by (vm_compute; reflexivity).
  split; [exact Hinit|].
  exact (proj1 (proj2 (single_writer world0 _ _ Hinit))).
Defined.


Lemma duplicate_field_rejected_witness :
  PTypedKey_init "{a}/{a}" TDict "TWICE" = Raise ReError
  /\ add_key "TWICE" "{a}/{a}" TDict ∅ = (Raise ReError, ∅).
Proof.
  apply (duplicate_field_rejected twice_a_pattern TDict "TWICE" ∅).
  - repeat constructor.
  - intros Hnd. apply NoDup_cons in Hnd as [Hnin _]. apply Hnin. left.
Defined.

Lemma plan_replay_failed : rename_plan_ok "/srv" ["old"; "f-tmp"].
Proof.
  unfold rename_plan_ok. repeat constructor.
  - intros H. vm_compute in H. discriminate H.
  - intros _ Hin. vm_compute in Hin.
    repeat (apply elem_of_cons in Hin as [Hin|Hin]; [discriminate Hin|]).
    inversion Hin.
Defined.

Lemma replay_is_repeatable_witness :
  (check_pending_renames "/srv" ["f-tmp"; "old"] world_crashed
   = (Ok tt, world_recovered)
   /\ check_pending_renames "/srv" ["f-tmp"; "old"] world_recovered
      = (Ok tt, world_recovered))
  /\ (check_pending_renames "/srv" ["old"; "f-tmp"] world_win32
      = (Raise AssertionError, world_replay_failed)
      /\ check_pending_renames "/srv" ["old"; "f-tmp"] world_replay_failed
         = (Raise AssertionError, world_replay_failed)).
Proof.
  assert (Hfail : check_pending_renames "/srv" ["old"; "f-tmp"] world_win32
                  = (Raise AssertionError, world_replay_failed))
    by (vm_compute; reflexivity).
  split; (split; [eassumption || exact recovery_world_crashed|]).
  - exact (replay_is_repeatable _ _ _ _ _ plan_world_crashed recovery_world_crashed).
  - exact (replay_is_repeatable _ _ _ _ _ plan_replay_failed Hfail).
Defined.
